(** * The statistics handle of tidis (vendored tidb/statistics/handle.go)

    A shallow embedding of [Handle] and of its operations [Clear],
    [NewHandle], [Update], [GetTableStats], [copyFromOldCache],
    [UpdateTableStats], [LoadNeededHistograms] and [FlushStats], followed by
    the properties of the refresh watermarks, of the copy-on-write cache and
    of the queues.

    Go objects that are shared by reference live in explicit heaps: a heap of
    [*Table] objects and a heap of [statsCache] maps.  The [atomic.Value] of
    the handle holds a reference into the heap of maps. *)

From stdpp Require Import gmap strings list fin_maps sorting.

Local Open Scope Z_scope.

(** ** Data *)

(** A heap reference: a [*Table], or a Go map value of type [statsCache]. *)
Definition loc := positive.

(** Go [error] values; [errors.Trace] annotates an error and keeps it. *)
Inductive error : Type :=
| Err (msg : string)
| Traced (e : error).

Definition errors_Trace (e : error) : error := Traced e.

Record Bucket := { Bucket_Count : Z; Bucket_Repeat : Z }.

Module Histogram.
Record t := mk {
  ID : Z;
  NDV : Z;
  NullCount : Z;
  LastUpdateVersion : Z;
  TotColSize : Z;
  Buckets : list Bucket;
}.
(** [hg.Len()]: the number of buckets. *)
Definition Len (hg : t) : Z := Z.of_nat (length (Buckets hg)).
End Histogram.

Definition CMSketch := list (list Z).

Record ColumnInfo := { ColumnInfo_ID : Z; FieldType : Z }.

Module Column.
Record t := mk {
  Hist : Histogram.t;          (* the embedded Histogram *)
  CMSketch : option CMSketch;  (* *CMSketch, nil when absent *)
  Count : Z;
  Info : ColumnInfo;
}.
End Column.

(** [Table], with the fields handle.go reads and writes. *)
Module Table.
Record t := mk {
  TableID : Z;
  Version : Z;
  Count : Z;
  ModifyCount : Z;
  Pseudo : bool;
  Columns : gmap Z Column.t;
}.
Definition with_Version (v : Z) (x : t) : t :=
  mk (TableID x) v (Count x) (ModifyCount x) (Pseudo x) (Columns x).
Definition with_Count (v : Z) (x : t) : t :=
  mk (TableID x) (Version x) v (ModifyCount x) (Pseudo x) (Columns x).
Definition with_ModifyCount (v : Z) (x : t) : t :=
  mk (TableID x) (Version x) (Count x) v (Pseudo x) (Columns x).
Definition with_Columns (v : gmap Z Column.t) (x : t) : t :=
  mk (TableID x) (Version x) (Count x) (ModifyCount x) (Pseudo x) v.
End Table.

(** [model.TableInfo], as far as the handle looks at it. *)
Record TableInfo := { TableInfo_ID : Z; TableInfo_Name : string }.

(** [infoschema.InfoSchema]: [TableByID] followed by [Meta]. *)
Definition InfoSchema := gmap Z TableInfo.
Definition TableByID (is_ : InfoSchema) (tableID : Z) : option TableInfo :=
  is_ !! tableID.

(** One row of [mysql.stats_meta], in the column order of the SELECT of
    [Update]: version, table_id, modify_count, count. *)
Record MetaRow := {
  row_version : Z;
  row_table_id : Z;
  row_modify_count : Z;
  row_count : Z;
}.

Module AnalyzeResult.
Record t := mk {
  TableID : Z;
  Hist : list Histogram.t;
  Cms : list (option CMSketch);
  Count : Z;
  IsIndex : Z;
}.
End AnalyzeResult.

Record Event := { Event_Tp : Z; Event_TableID : Z }.
Record LoadMeta := { LoadMeta_TableID : Z }.
Record QueryFeedback := { QueryFeedback_tableID : Z; QueryFeedback_actual : Z }.

Abbreviation tableDeltaMap := (gmap Z (Z * Z)).
Abbreviation errorRateDeltaMap := (gmap Z Z).

Record SessionStatsCollector := {
  mapper : tableDeltaMap;
  collector_rateMap : errorRateDeltaMap;
}.

(** [statsCache] is [map[int64]*Table]. *)
Abbreviation statsCache := (gmap Z loc).

(** ** The handle *)

Record Handle := mkHandle {
  LastVersion : Z;
  PrevLastVersion : Z;
  statsCacheRef : loc;                 (* the atomic.Value statsCache *)
  ddlEventCh : list Event;             (* chan *util.Event, oldest first *)
  analyzeResultCh : list AnalyzeResult.t;
  listHead : SessionStatsCollector;
  globalMap : tableDeltaMap;
  rateMap : errorRateDeltaMap;
  feedback : list QueryFeedback;
  Lease : Z;
  loadMetaCh : list LoadMeta;
}.

Definition with_LastVersion (v : Z) (x : Handle) : Handle :=
  mkHandle v (PrevLastVersion x) (statsCacheRef x) (ddlEventCh x)
    (analyzeResultCh x) (listHead x) (globalMap x) (rateMap x) (feedback x)
    (Lease x) (loadMetaCh x).
Definition with_PrevLastVersion (v : Z) (x : Handle) : Handle :=
  mkHandle (LastVersion x) v (statsCacheRef x) (ddlEventCh x)
    (analyzeResultCh x) (listHead x) (globalMap x) (rateMap x) (feedback x)
    (Lease x) (loadMetaCh x).
Definition with_statsCacheRef (v : loc) (x : Handle) : Handle :=
  mkHandle (LastVersion x) (PrevLastVersion x) v (ddlEventCh x)
    (analyzeResultCh x) (listHead x) (globalMap x) (rateMap x) (feedback x)
    (Lease x) (loadMetaCh x).
Definition with_ddlEventCh (v : list Event) (x : Handle) : Handle :=
  mkHandle (LastVersion x) (PrevLastVersion x) (statsCacheRef x) v
    (analyzeResultCh x) (listHead x) (globalMap x) (rateMap x) (feedback x)
    (Lease x) (loadMetaCh x).
Definition with_analyzeResultCh (v : list AnalyzeResult.t) (x : Handle) : Handle :=
  mkHandle (LastVersion x) (PrevLastVersion x) (statsCacheRef x) (ddlEventCh x)
    v (listHead x) (globalMap x) (rateMap x) (feedback x)
    (Lease x) (loadMetaCh x).
Definition with_listHead (v : SessionStatsCollector) (x : Handle) : Handle :=
  mkHandle (LastVersion x) (PrevLastVersion x) (statsCacheRef x) (ddlEventCh x)
    (analyzeResultCh x) v (globalMap x) (rateMap x) (feedback x)
    (Lease x) (loadMetaCh x).
Definition with_globalMap (v : tableDeltaMap) (x : Handle) : Handle :=
  mkHandle (LastVersion x) (PrevLastVersion x) (statsCacheRef x) (ddlEventCh x)
    (analyzeResultCh x) (listHead x) v (rateMap x) (feedback x)
    (Lease x) (loadMetaCh x).
Definition with_rateMap (v : errorRateDeltaMap) (x : Handle) : Handle :=
  mkHandle (LastVersion x) (PrevLastVersion x) (statsCacheRef x) (ddlEventCh x)
    (analyzeResultCh x) (listHead x) (globalMap x) v (feedback x)
    (Lease x) (loadMetaCh x).

Definition with_feedback (v : list QueryFeedback) (x : Handle) : Handle :=
  mkHandle (LastVersion x) (PrevLastVersion x) (statsCacheRef x) (ddlEventCh x)
    (analyzeResultCh x) (listHead x) (globalMap x) (rateMap x) v
    (Lease x) (loadMetaCh x).

(** ** The world around the handle *)

(** The persistent store behind the restricted SQL executor. *)
Record Storage := {
  stats_meta : list MetaRow;   (* the rows of mysql.stats_meta *)
  sql_failure : option error;  (* Some e: ExecRestrictedSQL fails with e *)
}.

Inductive LogEntry : Type :=
| LogUnknownTable (tableID : Z)
| LogReadTableStats (name : string) (e : error)
| LogHandleDDLEvent (e : error)
| LogDumpStatsDelta (e : error)
| LogSaveHistogram (e : error)
| LogDumpStatsFeedback (e : error).

Record World := mkWorld {
  hdl : Handle;                              (* the receiver h *)
  tblHeap : gmap loc Table.t;                (* the *Table objects *)
  mapHeap : gmap loc (gmap Z loc);           (* the statsCache map objects *)
  histogramNeededColumns : gset (Z * Z);     (* (tableID, columnID) *)
  storage : Storage;
  MaxChunkSize : Z;                          (* h.ctx.GetSessionVars() *)
  storeLog : list loc;                       (* every statsCache.Store, oldest first *)
  logs : list LogEntry;                      (* log.Debug / log.Debugf *)
}.

Definition with_hdl (f : Handle → Handle) (w : World) : World :=
  mkWorld (f (hdl w)) (tblHeap w) (mapHeap w) (histogramNeededColumns w)
    (storage w) (MaxChunkSize w) (storeLog w) (logs w).
Definition with_tblHeap (v : gmap loc Table.t) (w : World) : World :=
  mkWorld (hdl w) v (mapHeap w) (histogramNeededColumns w)
    (storage w) (MaxChunkSize w) (storeLog w) (logs w).
Definition with_mapHeap (v : gmap loc (gmap Z loc)) (w : World) : World :=
  mkWorld (hdl w) (tblHeap w) v (histogramNeededColumns w)
    (storage w) (MaxChunkSize w) (storeLog w) (logs w).
Definition with_needed (v : gset (Z * Z)) (w : World) : World :=
  mkWorld (hdl w) (tblHeap w) (mapHeap w) v
    (storage w) (MaxChunkSize w) (storeLog w) (logs w).
Definition with_storage (v : Storage) (w : World) : World :=
  mkWorld (hdl w) (tblHeap w) (mapHeap w) (histogramNeededColumns w)
    v (MaxChunkSize w) (storeLog w) (logs w).
Definition with_MaxChunkSize (v : Z) (w : World) : World :=
  mkWorld (hdl w) (tblHeap w) (mapHeap w) (histogramNeededColumns w)
    (storage w) v (storeLog w) (logs w).
Definition with_storeLog (v : list loc) (w : World) : World :=
  mkWorld (hdl w) (tblHeap w) (mapHeap w) (histogramNeededColumns w)
    (storage w) (MaxChunkSize w) v (logs w).
Definition log_Debug (e : LogEntry) (w : World) : World :=
  mkWorld (hdl w) (tblHeap w) (mapHeap w) (histogramNeededColumns w)
    (storage w) (MaxChunkSize w) (storeLog w) (logs w ++ [e]).

(** ** Computations: a state monad with Go panics and loop fuel *)

Inductive outcome (A : Type) : Type :=
| Ok (a : A) (w : World)
| Panic
| OutOfFuel.
Arguments Ok {A} a w.
Arguments Panic {A}.
Arguments OutOfFuel {A}.

Definition M (A : Type) : Type := World → outcome A.

Definition ret {A} (a : A) : M A := λ w, Ok a w.
Definition bind {A B} (c : M A) (k : A → M B) : M B :=
  λ w, match c w with
       | Ok a w' => k a w'
       | Panic => Panic
       | OutOfFuel => OutOfFuel
       end.
Definition modify (f : World → World) : M unit := λ w, Ok tt (f w).
Definition panic {A} : M A := λ _, Panic.

Notation "'do' x <- c ; k" := (bind c (λ x, k))
  (at level 10, x name, c at level 100, k at level 200).
Notation "'exec' c ; k" := (bind c (λ _, k))
  (at level 10, c at level 100, k at level 200).

(** [for _, x := range l { body x }] *)
Fixpoint forRange {A} (l : list A) (body : A → M unit) : M unit :=
  match l with
  | [] => ret tt
  | x :: l' => exec body x; forRange l' body
  end.

(** *** Heap primitives *)

(** [&Table{...}]: a new object at an unused address. *)
Definition newTable (t : Table.t) : M loc :=
  λ w, let p := fresh (dom (tblHeap w)) in
       Ok p (with_tblHeap (<[p := t]> (tblHeap w)) w).

(** [*p]; a reference outside the heap is a nil pointer. *)
Definition readTable (p : loc) : M Table.t :=
  λ w, match tblHeap w !! p with
       | Some t => Ok t w
       | None => Panic
       end.

(** [p.f = v] *)
Definition writeTable (p : loc) (f : Table.t → Table.t) : M unit :=
  λ w, match tblHeap w !! p with
       | Some t => Ok tt (with_tblHeap (<[p := f t]> (tblHeap w)) w)
       | None => Panic
       end.

(** [statsCache{}]: a new empty map. *)
Definition newMap : M loc :=
  λ w, let r := fresh (dom (mapHeap w)) in
       Ok r (with_mapHeap (<[r := ∅]> (mapHeap w)) w).

(** [m[k] = v] on the map object [r]. *)
Definition mapAssign (r : loc) (k : Z) (v : loc) : M unit :=
  λ w, match mapHeap w !! r with
       | Some m => Ok tt (with_mapHeap (<[r := <[k := v]> m]> (mapHeap w)) w)
       | None => Panic
       end.

(** [delete(m, k)] on the map object [r]. *)
Definition mapDelete (r : loc) (k : Z) : M unit :=
  λ w, match mapHeap w !! r with
       | Some m => Ok tt (with_mapHeap (<[r := delete k m]> (mapHeap w)) w)
       | None => Panic
       end.

(** [h.statsCache.Load().(statsCache)]: the reference held by the
    atomic.Value and, for reading, the map behind it.  The type assertion
    panics when no statsCache was ever stored. *)
Definition statsCache_Load : M (gmap Z loc) :=
  λ w, match mapHeap w !! statsCacheRef (hdl w) with
       | Some m => Ok m w
       | None => Panic
       end.

(** [h.statsCache.Store(r)] *)
Definition statsCache_Store (r : loc) : M unit :=
  modify (λ w, with_storeLog (storeLog w ++ [r]) (with_hdl (with_statsCacheRef r) w)).

(** ** copyFromOldCache and UpdateTableStats *)

Definition copyFromOldCache : M loc :=
  do newCache <- newMap;
  do oldCache <- statsCache_Load;
  exec forRange (map_to_list oldCache) (λ kv, mapAssign newCache kv.1 kv.2);
  ret newCache.

Definition UpdateTableStats (tables : list loc) (deletedIDs : list Z) : M unit :=
  do newCache <- copyFromOldCache;
  exec forRange tables (λ tbl,
    do t <- readTable tbl;
    let id := Table.TableID t in
    mapAssign newCache id tbl);
  exec forRange deletedIDs (λ id, mapDelete newCache id);
  statsCache_Store newCache.

(** ** Collaborators outside handle.go

    Code of the package that handle.go calls and that lives in other files
    (table.go, histogram.go, ddl.go, update.go).  Each one is a parameter;
    what a property needs of it is a hypothesis of that property. *)

Inductive DumpMode := DumpAll | DumpDelta.

Class Collaborators := {
  (** [PseudoTable(tblInfo)]: the fields of the synthesized object. *)
  PseudoTable : TableInfo → Table.t;
  (** [h.tableStatsFromStorage(tableInfo, loadAll)]: the fields of the newly
      built object (or nil), and the error. *)
  tableStatsFromStorage :
    TableInfo → bool → World → option Table.t * option error;
  (** [histogramFromStorage(ctx, tableID, colID, tp, distinct, isIndex, ver,
      nullCount, totColSize)] *)
  histogramFromStorage :
    Z → Z → Z → Z → Z → Z → Z → Z → World → option Histogram.t * option error;
  (** [h.cmSketchFromStorage(tblID, isIndex, histID)] *)
  cmSketchFromStorage : Z → Z → Z → World → option CMSketch * option error;
  (** [int64(hg.totalRowCount())] *)
  totalRowCount : Histogram.t → Z;
  (** [h.HandleDDLEvent(e)] *)
  HandleDDLEvent : Event → World → World * option error;
  (** [h.DumpStatsDeltaToKV(mode)] *)
  DumpStatsDeltaToKV : DumpMode → World → World * option error;
  (** [SaveStatsToStorage(ctx, tableID, count, isIndex, hg, cms, isAnalyzed)] *)
  SaveStatsToStorage :
    Z → Z → Z → Histogram.t → option CMSketch → Z → World → World * option error;
  (** [h.DumpStatsFeedbackToKV()] *)
  DumpStatsFeedbackToKV : World → World * option error;
}.

(** A call of a collaborator that changes the world and may fail. *)
Definition call (f : World → World * option error) : M (option error) :=
  λ w, Ok (f w).2 (f w).1.

(** A call of a collaborator that only reads. *)
Definition query {A} (f : World → A) : M A := λ w, Ok (f w) w.

(** Modelled from the spec: [Table.copy] (table.go is not under src/).  The
    spec's lazy loader clones the table entry so that the shared object is
    never changed in place: a new object with the fields of the old one. *)
Definition Table_copy (tbl : loc) : M loc :=
  do t <- readTable tbl;
  newTable t.

(** ** The restricted SQL executor on mysql.stats_meta *)

(** [SELECT version, table_id, modify_count, count from mysql.stats_meta
    where version > %d order by version] with the number put in by
    fmt.Sprintf. *)
Inductive SQL : Type :=
| SelectStatsMeta (floor : Z).

Definition version_le (r1 r2 : MetaRow) : Prop :=
  row_version r1 ≤ row_version r2.

#[global] Instance version_le_dec : RelDecision version_le.
Proof. intros r1 r2. unfold version_le. apply _. Defined.

#[global] Instance version_le_total : Total version_le.
Proof. intros r1 r2. unfold version_le. lia. Qed.

#[global] Instance version_le_trans : Transitive version_le.
Proof. intros r1 r2 r3. unfold version_le. lia. Qed.

Definition runSQL (sql : SQL) (meta : list MetaRow) : list MetaRow :=
  match sql with
  | SelectStatsMeta floor =>
      merge_sort version_le
        (filter (λ r, row_version r > floor) meta)
  end.

(** [h.ctx.(sqlexec.RestrictedSQLExecutor).ExecRestrictedSQL(h.ctx, sql)] *)
Definition ExecRestrictedSQL (sql : SQL) : M (list MetaRow * option error) :=
  query (λ w,
    match sql_failure (storage w) with
    | Some err => ([], Some err)
    | None => (runSQL sql (stats_meta (storage w)), None)
    end).

(** ** Clear and NewHandle *)

(** [for len(ch) > 0 { <-ch }] *)
Fixpoint discardAll {A} (ch : list A) : list A :=
  match ch with
  | [] => []
  | _ :: ch' => discardAll ch'
  end.

Definition emptyCollector : SessionStatsCollector :=
  {| mapper := ∅; collector_rateMap := ∅ |}.

Definition Clear : M unit :=
  do empty <- newMap;
  exec statsCache_Store empty;
  exec modify (with_hdl (with_LastVersion 0));
  exec modify (with_hdl (with_PrevLastVersion 0));
  exec modify (with_hdl (λ h, with_ddlEventCh (discardAll (ddlEventCh h)) h));
  exec modify (with_hdl (λ h, with_analyzeResultCh (discardAll (analyzeResultCh h)) h));
  exec modify (with_MaxChunkSize 1);
  exec modify (with_hdl (with_listHead emptyCollector));
  exec modify (with_hdl (with_globalMap ∅));
  modify (with_hdl (with_rateMap ∅)).

(** The world before any handle exists. *)
Definition emptyWorld (st : Storage) : World :=
  {| hdl := mkHandle 0 0 1%positive [] [] emptyCollector ∅ ∅ [] 0 [];
     tblHeap := ∅; mapHeap := ∅; histogramNeededColumns := ∅;
     storage := st; MaxChunkSize := 32; storeLog := []; logs := [] |}.

Definition NewHandle (lease : Z) : M unit :=
  exec modify (with_hdl (λ h,
    mkHandle 0 0 (statsCacheRef h) [] [] emptyCollector ∅ ∅ [] lease []));
  do empty <- newMap;
  statsCache_Store empty.

(** [GetQueryFeedback]: the result is taken, then the deferred function
    cuts the slice to length zero. *)
Definition GetQueryFeedback : M (list QueryFeedback) :=
  do fb <- query (λ w, feedback (hdl w));
  exec modify (with_hdl (with_feedback []));
  ret fb.

Definition AnalyzeResultCh : M (list AnalyzeResult.t) :=
  query (λ w, analyzeResultCh (hdl w)).

Definition LoadMetaCh : M (list LoadMeta) :=
  query (λ w, loadMetaCh (hdl w)).

(** ** Update *)

(** The body of [for _, row := range rows]; [tables] and [deletedTableIDs]
    are the two slices it appends to. *)
Definition updateRow `{!Collaborators} (is_ : InfoSchema) (row : MetaRow)
    (tables : list loc) (deletedTableIDs : list Z) : M (list loc * list Z) :=
  let version := row_version row in
  let tableID := row_table_id row in
  let modifyCount := row_modify_count row in
  let count := row_count row in
  exec modify (with_hdl (with_LastVersion version));
  match TableByID is_ tableID with
  | None =>
      exec modify (log_Debug (LogUnknownTable tableID));
      ret (tables, deletedTableIDs ++ [tableID])
  | Some tableInfo =>
      do r <- query (tableStatsFromStorage tableInfo false);
      match r.2 with
      | Some err =>
          exec modify (log_Debug (LogReadTableStats (TableInfo_Name tableInfo) err));
          ret (tables, deletedTableIDs)
      | None =>
          match r.1 with
          | None => ret (tables, deletedTableIDs ++ [tableID])
          | Some t =>
              do tbl <- newTable t;
              exec writeTable tbl (Table.with_Version version);
              exec writeTable tbl (Table.with_Count count);
              exec writeTable tbl (Table.with_ModifyCount modifyCount);
              ret (tables ++ [tbl], deletedTableIDs)
          end
      end
  end.

Fixpoint updateRows `{!Collaborators} (is_ : InfoSchema) (rows : list MetaRow)
    (tables : list loc) (deletedTableIDs : list Z) : M (list loc * list Z) :=
  match rows with
  | [] => ret (tables, deletedTableIDs)
  | row :: rows' =>
      do acc <- updateRow is_ row tables deletedTableIDs;
      updateRows is_ rows' acc.1 acc.2
  end.

Definition Update `{!Collaborators} (is_ : InfoSchema) : M (option error) :=
  do sql <- query (λ w, SelectStatsMeta (PrevLastVersion (hdl w)));
  do res <- ExecRestrictedSQL sql;
  match res.2 with
  | Some err => ret (Some (errors_Trace err))
  | None =>
      let rows := res.1 in
      exec modify (with_hdl (λ h, with_PrevLastVersion (LastVersion h) h));
      do acc <- updateRows is_ rows [] [];
      exec UpdateTableStats acc.1 acc.2;
      ret None
  end.

(** ** GetTableStats *)

Definition GetTableStats `{!Collaborators} (tblInfo : TableInfo) : M loc :=
  do cache <- statsCache_Load;
  match cache !! TableInfo_ID tblInfo with
  | None =>
      do tbl <- newTable (PseudoTable tblInfo);
      exec UpdateTableStats [tbl] [];
      ret tbl
  | Some tbl => ret tbl
  end.

(** ** LoadNeededHistograms *)

(** [histogramNeededColumns.allCols()] and [histogramNeededColumns.delete]. *)
Definition allCols : M (list (Z * Z)) :=
  query (λ w, elements (histogramNeededColumns w)).
Definition neededDelete (col : Z * Z) : M unit :=
  modify (λ w, with_needed (histogramNeededColumns w ∖ {[col]}) w).

(** The body of [for _, col := range cols]; [Some err] is [return err],
    [None] goes on with the next column. *)
Definition loadColumn `{!Collaborators} (col : Z * Z) : M (option error) :=
  let tableID := col.1 in
  let columnID := col.2 in
  do cache <- statsCache_Load;
  match cache !! tableID with
  | None => ret None
  | Some tbl0 =>
      do tbl <- Table_copy tbl0;
      do t <- readTable tbl;
      match Table.Columns t !! columnID with
      | None => exec neededDelete col; ret None
      | Some c =>
          if decide (Histogram.Len (Column.Hist c) > 0)
          then exec neededDelete col; ret None
          else
            let ch := Column.Hist c in
            do r1 <- query (histogramFromStorage tableID (Histogram.ID ch)
                       (FieldType (Column.Info c)) (Histogram.NDV ch) 0
                       (Histogram.LastUpdateVersion ch) (Histogram.NullCount ch)
                       (Histogram.TotColSize ch));
            match r1.2 with
            | Some err => ret (Some (errors_Trace err))
            | None =>
                do r2 <- query (cmSketchFromStorage tableID 0 columnID);
                match r2.2 with
                | Some err => ret (Some (errors_Trace err))
                | None =>
                    match r1.1 with
                    | None => panic
                    | Some hg =>
                        let newCol :=
                          Column.mk hg r2.1 (totalRowCount hg) (Column.Info c) in
                        exec writeTable tbl (λ t',
                          Table.with_Columns
                            (<[Histogram.ID ch := newCol]> (Table.Columns t')) t');
                        exec UpdateTableStats [tbl] [];
                        exec neededDelete col;
                        ret None
                    end
                end
            end
      end
  end.

Fixpoint loadColumns `{!Collaborators} (cols : list (Z * Z)) : M (option error) :=
  match cols with
  | [] => ret None
  | col :: cols' =>
      do r <- loadColumn col;
      match r with
      | Some err => ret (Some err)
      | None => loadColumns cols'
      end
  end.

Definition LoadNeededHistograms `{!Collaborators} : M (option error) :=
  do cols <- allCols;
  loadColumns cols.

(** ** FlushStats *)

Definition logIfError (mk : error → LogEntry) (err : option error) : M unit :=
  match err with
  | Some e => modify (log_Debug (mk e))
  | None => ret tt
  end.

(** [for len(h.ddlEventCh) > 0 { e := <-h.ddlEventCh; ... }]; the channel is
    looked at again on every round, [fuel] bounds the number of rounds. *)
Fixpoint drainDDLEvents `{!Collaborators} (fuel : nat) : M unit :=
  λ w,
  match ddlEventCh (hdl w) with
  | [] => Ok tt w
  | e :: ch' =>
      match fuel with
      | O => OutOfFuel
      | S fuel' =>
          (exec modify (with_hdl (with_ddlEventCh ch'));
           do err <- call (HandleDDLEvent e);
           exec logIfError LogHandleDDLEvent err;
           drainDDLEvents fuel') w
      end
  end.

(** [for i, hg := range t.Hist { ... t.Cms[i] ... }] from index [i] on. *)
Fixpoint saveHistograms `{!Collaborators} (t : AnalyzeResult.t) (i : nat)
    (hists : list Histogram.t) : M unit :=
  match hists with
  | [] => ret tt
  | hg :: hists' =>
      match AnalyzeResult.Cms t !! i with
      | None => panic
      | Some cms =>
          do err <- call (SaveStatsToStorage (AnalyzeResult.TableID t)
                      (AnalyzeResult.Count t) (AnalyzeResult.IsIndex t) hg cms 1);
          exec logIfError LogSaveHistogram err;
          saveHistograms t (S i) hists'
      end
  end.

Fixpoint drainAnalyzeResults `{!Collaborators} (fuel : nat) : M unit :=
  λ w,
  match analyzeResultCh (hdl w) with
  | [] => Ok tt w
  | t :: ch' =>
      match fuel with
      | O => OutOfFuel
      | S fuel' =>
          (exec modify (with_hdl (with_analyzeResultCh ch'));
           exec saveHistograms t 0 (AnalyzeResult.Hist t);
           drainAnalyzeResults fuel') w
      end
  end.

Definition FlushStats `{!Collaborators} (fuel : nat) : M unit :=
  exec drainDDLEvents fuel;
  do err1 <- call (DumpStatsDeltaToKV DumpAll);
  exec logIfError LogDumpStatsDelta err1;
  exec drainAnalyzeResults fuel;
  do err2 <- call DumpStatsFeedbackToKV;
  logIfError LogDumpStatsFeedback err2.

(** ** Notions used to state the properties *)

(** The snapshot a reader gets at this moment: the map behind the reference
    held by the atomic.Value. *)
Definition snapshot (w : World) : gmap Z loc :=
  default ∅ (mapHeap w !! statsCacheRef (hdl w)).

(** The handle owns a snapshot: some statsCache was stored. *)
Definition hasSnapshot (w : World) : Prop :=
  is_Some (mapHeap w !! statsCacheRef (hdl w)).

(** The world after one [h.statsCache.Store(r)] of a map object [r] whose
    content is [m]. *)
Definition installed (r : loc) (m : gmap Z loc) (w : World) : World :=
  with_storeLog (storeLog w ++ [r])
    (with_hdl (with_statsCacheRef r)
       (with_mapHeap (<[r := m]> (mapHeap w)) w)).

(** Replace, in the words of the specification: on a clone of the prior
    snapshot, first every insert or overwrite (each table under its own
    table ID), then every deletion. *)
Definition applyUpdates (heap : gmap loc Table.t) (m : gmap Z loc)
    (updates : list loc) : gmap Z loc :=
  foldl (λ acc p, match heap !! p with
                  | Some t => <[Table.TableID t := p]> acc
                  | None => acc
                  end) m updates.

Definition applyRemovals (m : gmap Z loc) (removals : list Z) : gmap Z loc :=
  foldl (λ acc id, delete id acc) m removals.

Definition Replace_spec (heap : gmap loc Table.t) (old : gmap Z loc)
    (updates : list loc) (removals : list Z) : gmap Z loc :=
  applyRemovals (applyUpdates heap old updates) removals.

(** The current watermark after a pass over [rows] that started at [v]:
    every row assigns its version. *)
Definition lastVersionOf (rows : list MetaRow) (v : Z) : Z :=
  foldl (λ _ row, row_version row) v rows.

(** What the loop of [Update] over the meta rows may change between two
    worlds: the current watermark, the log, and table objects that are new. *)
Record rowsFrame (w w' : World) : Prop := {
  rf_hdl : hdl w' = with_LastVersion (LastVersion (hdl w')) (hdl w);
  rf_mapHeap : mapHeap w' = mapHeap w;
  rf_tblHeap : tblHeap w ⊆ tblHeap w';
  rf_needed : histogramNeededColumns w' = histogramNeededColumns w;
  rf_storage : storage w' = storage w;
  rf_storeLog : storeLog w' = storeLog w;
}.

(** The table object [Update] publishes for a meta row, built from the
    object [t] that the reconstruction returned. *)
Definition stamped (row : MetaRow) (t : Table.t) : Table.t :=
  Table.mk (Table.TableID t) (row_version row) (row_count row)
    (row_modify_count row) (Table.Pseudo t) (Table.Columns t).

(** The rows a refresh cycle started in [w] gets from a storage that
    answers: the result of the SELECT of [Update]. *)
Definition refreshBatch (w : World) : list MetaRow :=
  runSQL (SelectStatsMeta (PrevLastVersion (hdl w))) (stats_meta (storage w)).

(** The world in which the loop of [Update] starts: the previous watermark
    has taken the value of the current one. *)
Definition cycleStart (w : World) : World :=
  with_hdl (λ h, with_PrevLastVersion (LastVersion h) h) w.

(** The meta row of the specification's example: version 5, table 1,
    modify count 3, count 100. *)
Definition exampleRow : MetaRow :=
  {| row_version := 5; row_table_id := 1;
     row_modify_count := 3; row_count := 100 |}.

(** The pair (current watermark, previous watermark). *)
Definition watermarks (w : World) : Z * Z :=
  (LastVersion (hdl w), PrevLastVersion (hdl w)).

(** The world a computation leaves, when it returns. *)
Definition after {A} (c : M A) (w : World) : option World :=
  match c w with
  | Ok _ w' => Some w'
  | _ => None
  end.

(** A sequence of refresh cycles; before each of them the writers of the
    store have turned it into [st].  The result is the world after each
    cycle, in order. *)
Fixpoint refreshCycles `{!Collaborators}
    (cycles : list (InfoSchema * Storage)) (w : World) : list World :=
  match cycles with
  | [] => []
  | (is_, st) :: cycles' =>
      match Update is_ (with_storage st w) with
      | Ok _ w' => w' :: refreshCycles cycles' w'
      | _ => []
      end
  end.

(** The writers of the store never lose a version: for every row stored in
    [st], a row of at least that version is stored in [st'] (rows are added,
    or stamped again with a later version, never removed). *)
Definition keepsVersions (st st' : Storage) : Prop :=
  ∀ row, row ∈ stats_meta st →
    ∃ row', row' ∈ stats_meta st' ∧ row_version row ≤ row_version row'.

(** The store keeps its versions from [st] on, through all the stores the
    cycles of the sequence see. *)
Fixpoint storeKeepsVersions (st : Storage)
    (cycles : list (InfoSchema * Storage)) : Prop :=
  match cycles with
  | [] => True
  | (_, st') :: cycles' => keepsVersions st st' ∧ storeKeepsVersions st' cycles'
  end.

(** The current watermark is a version the store still covers, unless
    nothing was read since the previous watermark was taken. *)
Definition currentCovered (w : World) : Prop :=
  PrevLastVersion (hdl w) = LastVersion (hdl w) ∨
  ∃ row, row ∈ stats_meta (storage w) ∧ LastVersion (hdl w) ≤ row_version row.

(** From the world before a cycle to the world after it: no watermark went
    back and previous is at most current; a cycle whose query succeeded gave
    previous the old value of current, a cycle whose query failed left both
    watermarks as they were. *)
Definition watermarksStep (wa wb : World) : Prop :=
  LastVersion (hdl wa) ≤ LastVersion (hdl wb) ∧
  PrevLastVersion (hdl wa) ≤ PrevLastVersion (hdl wb) ∧
  PrevLastVersion (hdl wb) ≤ LastVersion (hdl wb) ∧
  match sql_failure (storage wb) with
  | None => PrevLastVersion (hdl wb) = LastVersion (hdl wa)
  | Some _ => watermarks wb = watermarks wa
  end.

(** [P] holds from each world of [w :: ws] to the next. *)
Fixpoint stepwise (P : World → World → Prop) (w : World) (ws : list World) : Prop :=
  match ws with
  | [] => True
  | w' :: ws' => P w w' ∧ stepwise P w' ws'
  end.

(** ** Collaborators for the examples *)

(** Column 7 as a refresh leaves it: known, with a histogram that has no
    bucket yet. *)
Definition coldColumn : Column.t :=
  Column.mk (Histogram.mk 7 4 0 5 32 []) None 0
    {| ColumnInfo_ID := 7; FieldType := 3 |}.

(** The statistics a refresh rebuilds for a table: column 7, not loaded. *)
Definition coldStats (tableInfo : TableInfo) : Table.t :=
  Table.mk (TableInfo_ID tableInfo) 0 0 0 false {[ 7 := coldColumn ]}.

(** A storage side that always answers: every table of the catalog has
    statistics, every load and every save succeeds. *)
Definition healthy : Collaborators := {|
  PseudoTable tableInfo := Table.mk (TableInfo_ID tableInfo) 0 10000 0 true ∅;
  tableStatsFromStorage tableInfo _ _ := (Some (coldStats tableInfo), None);
  histogramFromStorage _ colID _ ndv _ ver nulls size _ :=
    (Some (Histogram.mk colID ndv nulls ver size [Build_Bucket 1 1]), None);
  cmSketchFromStorage _ _ _ _ := (None, None);
  totalRowCount hg := Z.of_nat (length (Histogram.Buckets hg));
  HandleDDLEvent _ w := (w, None);
  DumpStatsDeltaToKV _ w := (w, None);
  SaveStatsToStorage _ _ _ _ _ _ w := (w, None);
  DumpStatsFeedbackToKV w := (w, None);
|}.

(** A storage side on which every load and every save fails. *)
Definition broken : Collaborators := {|
  PseudoTable tableInfo := Table.mk (TableInfo_ID tableInfo) 0 10000 0 true ∅;
  tableStatsFromStorage _ _ _ := (None, Some (Err "stats_histograms"));
  histogramFromStorage _ _ _ _ _ _ _ _ _ := (None, Some (Err "stats_buckets"));
  cmSketchFromStorage _ _ _ _ := (None, Some (Err "cm_sketch"));
  totalRowCount _ := 0;
  HandleDDLEvent _ w := (w, Some (Err "ddl"));
  DumpStatsDeltaToKV _ w := (w, Some (Err "delta"));
  SaveStatsToStorage _ _ _ _ _ _ w := (w, Some (Err "save"));
  DumpStatsFeedbackToKV w := (w, Some (Err "feedback"));
|}.

(** A storage side on which histograms load and sketches do not. *)
Definition sketchless : Collaborators := {|
  PseudoTable tableInfo := Table.mk (TableInfo_ID tableInfo) 0 10000 0 true ∅;
  tableStatsFromStorage tableInfo _ _ := (Some (coldStats tableInfo), None);
  histogramFromStorage _ colID _ ndv _ ver nulls size _ :=
    (Some (Histogram.mk colID ndv nulls ver size [Build_Bucket 1 1]), None);
  cmSketchFromStorage _ _ _ _ := (None, Some (Err "cm_sketch"));
  totalRowCount hg := Z.of_nat (length (Histogram.Buckets hg));
  HandleDDLEvent _ w := (w, None);
  DumpStatsDeltaToKV _ w := (w, None);
  SaveStatsToStorage _ _ _ _ _ _ w := (w, None);
  DumpStatsFeedbackToKV w := (w, None);
|}.

Definition tableA : TableInfo := {| TableInfo_ID := 1; TableInfo_Name := "a" |}.
Definition tableB : TableInfo := {| TableInfo_ID := 2; TableInfo_Name := "b" |}.
Definition tableX : TableInfo := {| TableInfo_ID := 3; TableInfo_Name := "x" |}.
Definition catalogAB : InfoSchema := {[ 1 := tableA; 2 := tableB; 3 := tableX ]}.

Definition rowA10 : MetaRow :=
  {| row_version := 10; row_table_id := 1; row_modify_count := 0; row_count := 7 |}.
Definition rowB12 : MetaRow :=
  {| row_version := 12; row_table_id := 2; row_modify_count := 0; row_count := 9 |}.
Definition rowX11 : MetaRow :=
  {| row_version := 11; row_table_id := 3; row_modify_count := 0; row_count := 4 |}.

Definition metaStore (rows : list MetaRow) : Storage :=
  {| stats_meta := rows; sql_failure := None |}.

(** A handle made by [NewHandle] in front of a store with the given rows. *)
Definition freshHandle (rows : list MetaRow) : option World :=
  after (NewHandle 3) (emptyWorld (metaStore rows)).

(** The writers of the store leave it with the rows [rows]. *)
Definition storeBecomes (rows : list MetaRow) (o : option World) : option World :=
  with_storage (metaStore rows) <$> o.

(** One refresh cycle of the examples: a healthy storage side and the
    catalog of A, B and X. *)
Definition refresh (o : option World) : option World :=
  match o with
  | Some w => after (@Update healthy catalogAB) w
  | None => None
  end.

(** What an observer reads off the world of an example. *)
Definition observe {A} (f : World → A) (o : option World) : option A := f <$> o.

(** The version of the table object the snapshot holds for [tableID]. *)
Definition cachedVersion (tableID : Z) (w : World) : option Z :=
  match snapshot w !! tableID with
  | Some p => Table.Version <$> tblHeap w !! p
  | None => None
  end.

(** The world after [tbl.copy()] of an object with the fields [t]. *)
Definition copied (t : Table.t) (w : World) : World :=
  with_tblHeap (<[fresh (dom (tblHeap w)) := t]> (tblHeap w)) w.

(** The world after [histogramNeededColumns.delete(col)]. *)
Definition unregistered (col : Z * Z) (w : World) : World :=
  with_needed (histogramNeededColumns w ∖ {[col]}) w.

(** The calls of the lazy loader for the column [c] of table [tableID]. *)
Definition loadHistogram `{!Collaborators} (tableID : Z) (c : Column.t)
    (w : World) : option Histogram.t * option error :=
  let ch := Column.Hist c in
  histogramFromStorage tableID (Histogram.ID ch) (FieldType (Column.Info c))
    (Histogram.NDV ch) 0 (Histogram.LastUpdateVersion ch)
    (Histogram.NullCount ch) (Histogram.TotColSize ch) w.

(** The column object the lazy loader builds from what it loaded. *)
Definition loadedColumn `{!Collaborators} (c : Column.t) (hg : Histogram.t)
    (cms : option CMSketch) : Column.t :=
  Column.mk hg cms (totalRowCount hg) (Column.Info c).

(** The store fails with [err] while the lazy loader loads the column [c]
    requested as [col]: the histogram cannot be loaded, or the histogram
    loads without error and the sketch cannot be loaded. *)
Definition loadFails `{!Collaborators} (col : Z * Z) (c : Column.t)
    (w : World) (err : error) : Prop :=
  (loadHistogram col.1 c w).2 = Some err ∨
  ((loadHistogram col.1 c w).2 = None ∧
   (cmSketchFromStorage col.1 0 col.2 w).2 = Some err).

(** The ways one round of the loop of [LoadNeededHistograms] can go, for
    the pending column [col] in the world [w]. *)
Inductive loadRound `{!Collaborators} (col : Z * Z) (w : World) :
    outcome (option error) → Prop :=
| round_table_absent :
    snapshot w !! col.1 = None →
    loadRound col w (Ok None w)
| round_nil_table tbl0 :
    snapshot w !! col.1 = Some tbl0 →
    tblHeap w !! tbl0 = None →
    loadRound col w Panic
| round_column_absent tbl0 t :
    snapshot w !! col.1 = Some tbl0 →
    tblHeap w !! tbl0 = Some t →
    Table.Columns t !! col.2 = None →
    loadRound col w (Ok None (unregistered col (copied t w)))
| round_already_loaded tbl0 t c :
    snapshot w !! col.1 = Some tbl0 →
    tblHeap w !! tbl0 = Some t →
    Table.Columns t !! col.2 = Some c →
    Histogram.Len (Column.Hist c) > 0 →
    loadRound col w (Ok None (unregistered col (copied t w)))
| round_histogram_fails tbl0 t c hg err :
    snapshot w !! col.1 = Some tbl0 →
    tblHeap w !! tbl0 = Some t →
    Table.Columns t !! col.2 = Some c →
    ¬ Histogram.Len (Column.Hist c) > 0 →
    loadHistogram col.1 c (copied t w) = (hg, Some err) →
    loadRound col w (Ok (Some (errors_Trace err)) (copied t w))
| round_sketch_fails tbl0 t c hg cms err :
    snapshot w !! col.1 = Some tbl0 →
    tblHeap w !! tbl0 = Some t →
    Table.Columns t !! col.2 = Some c →
    ¬ Histogram.Len (Column.Hist c) > 0 →
    loadHistogram col.1 c (copied t w) = (hg, None) →
    cmSketchFromStorage col.1 0 col.2 (copied t w) = (cms, Some err) →
    loadRound col w (Ok (Some (errors_Trace err)) (copied t w))
| round_nil_histogram tbl0 t c cms :
    snapshot w !! col.1 = Some tbl0 →
    tblHeap w !! tbl0 = Some t →
    Table.Columns t !! col.2 = Some c →
    ¬ Histogram.Len (Column.Hist c) > 0 →
    loadHistogram col.1 c (copied t w) = (None, None) →
    cmSketchFromStorage col.1 0 col.2 (copied t w) = (cms, None) →
    loadRound col w Panic
| round_loaded tbl0 t c hg cms :
    snapshot w !! col.1 = Some tbl0 →
    tblHeap w !! tbl0 = Some t →
    Table.Columns t !! col.2 = Some c →
    ¬ Histogram.Len (Column.Hist c) > 0 →
    loadHistogram col.1 c (copied t w) = (Some hg, None) →
    cmSketchFromStorage col.1 0 col.2 (copied t w) = (cms, None) →
    let t' := Table.with_Columns
                (<[Histogram.ID (Column.Hist c) := loadedColumn c hg cms]>
                   (Table.Columns t)) t in
    loadRound col w
      (Ok None
         (unregistered col
            (installed (fresh (dom (mapHeap w)))
               (<[Table.TableID t := fresh (dom (tblHeap w))]> (snapshot w))
               (copied t' w)))).

(** Queries register the pending columns [cols]. *)
Definition registered (cols : list (Z * Z)) (o : option World) : option World :=
  (λ w, with_needed (list_to_set cols ∪ histogramNeededColumns w) w) <$> o.

(** The column object the snapshot holds for a column of a table. *)
Definition cachedColumn (col : Z * Z) (w : World) : option Column.t :=
  match snapshot w !! col.1 with
  | Some p =>
      match tblHeap w !! p with
      | Some t => Table.Columns t !! col.2
      | None => None
      end
  | None => None
  end.

(** What a computation returns. *)
Definition returned {A} (c : M A) (o : option World) : option A :=
  match o with
  | Some w => match c w with Ok a _ => Some a | _ => None end
  | None => None
  end.

(** The world of an example, once it is known to exist. *)
Definition theWorld (o : option World) : World :=
  default (emptyWorld (metaStore [])) o.

(** The three inbound queues of the handle. *)
Definition queues (w : World) : list Event * list AnalyzeResult.t * list LoadMeta :=
  (ddlEventCh (hdl w), analyzeResultCh (hdl w), loadMetaCh (hdl w)).

(** A collaborator that leaves the three queues as they are. *)
Definition keepsQueues (f : World → World * option error) : Prop :=
  ∀ w, queues (f w).1 = queues w.

(** The world after a call of a collaborator whose failure, if any, went to
    the log. *)
Definition logged (mk : error → LogEntry) (r : World * option error) : World :=
  match r.2 with
  | Some err => log_Debug (mk err) r.1
  | None => r.1
  end.

(** Every analyze result in the queue has a sketch slot for each of its
    histograms. *)
Definition sketchesCoverHistograms (t : AnalyzeResult.t) : Prop :=
  (length (AnalyzeResult.Hist t) ≤ length (AnalyzeResult.Cms t))%nat.

(** Producers put events, analyze results, load notifications and feedback
    in front of the handle. *)
Definition enqueued (evs : list Event) (results : list AnalyzeResult.t)
    (loads : list LoadMeta) (fb : list QueryFeedback) (w : World) : World :=
  with_hdl (λ h,
    mkHandle (LastVersion h) (PrevLastVersion h) (statsCacheRef h)
      (ddlEventCh h ++ evs) (analyzeResultCh h ++ results) (listHead h)
      (globalMap h) (rateMap h) (feedback h ++ fb) (Lease h)
      (loadMetaCh h ++ loads)) w.

Definition someHistogram : Histogram.t := Histogram.mk 7 1 0 5 8 [Build_Bucket 1 1].

Definition someResult : AnalyzeResult.t :=
  AnalyzeResult.mk 1 [someHistogram; someHistogram] [None; None] 100 0.

(** A handle that has read table A, with two schema events, one analyze
    result of two histograms, one load notification and one feedback record
    waiting. *)
Definition busyWorld : World :=
  enqueued [Build_Event 3 1; Build_Event 5 1] [someResult]
    [Build_LoadMeta 1] [Build_QueryFeedback 1 42]
    (theWorld (refresh (freshHandle [rowA10]))).

(** ** Notions for the further properties *)

(** The handle has a snapshot and no entry of it is a nil pointer: every
    cached pointer is a table object. *)
Definition wellFormed (w : World) : Prop :=
  hasSnapshot w ∧
  ∀ id p, snapshot w !! id = Some p → is_Some (tblHeap w !! p).

(** What the loop of [Update] does with one meta row. *)
Inductive RowFate : Type :=
| Dropped                 (* the catalog has no such table *)
| Skipped (err : error)   (* the statistics could not be read *)
| Vanished                (* there are no statistics: a nil table *)
| Rebuilt (t : Table.t).  (* the statistics were rebuilt into [t] *)

(** The world in which the loop of [Update] looks at [row]: the current
    watermark is the version of the row. *)
Definition atRow (row : MetaRow) (w : World) : World :=
  with_hdl (with_LastVersion (row_version row)) w.

Definition rowFate `{!Collaborators} (is_ : InfoSchema) (row : MetaRow)
    (w : World) : RowFate :=
  match TableByID is_ (row_table_id row) with
  | None => Dropped
  | Some tableInfo =>
      match tableStatsFromStorage tableInfo false (atRow row w) with
      | (_, Some err) => Skipped err
      | (None, None) => Vanished
      | (Some t, None) => Rebuilt t
      end
  end.

(** The catalog files every table under its own ID. *)
Definition catalogById (is_ : InfoSchema) : Prop :=
  ∀ tableID tableInfo,
    TableByID is_ tableID = Some tableInfo → TableInfo_ID tableInfo = tableID.

(** The statistics rebuilt for a table carry the ID of that table. *)
Definition rebuildsOwnTable `{!Collaborators} : Prop :=
  ∀ tableInfo loadAll w t,
    (tableStatsFromStorage tableInfo loadAll w).1 = Some t →
    Table.TableID t = TableInfo_ID tableInfo.

(** The table ID a pointer of [tables] is filed under. *)
Definition tableIdAt (heap : gmap loc Table.t) (p : loc) : option Z :=
  Table.TableID <$> heap !! p.

(** A catalog that has lost table B. *)
Definition catalogA : InfoSchema := {[ 1 := tableA; 3 := tableX ]}.

(** A storage side that has no statistics for any table and cannot load
    histograms: reconstruction yields nil without an error. *)
Definition vacant : Collaborators := {|
  PseudoTable tableInfo := Table.mk (TableInfo_ID tableInfo) 0 10000 0 true ∅;
  tableStatsFromStorage _ _ _ := (None, None);
  histogramFromStorage _ _ _ _ _ _ _ _ _ := (None, None);
  cmSketchFromStorage _ _ _ _ := (None, None);
  totalRowCount _ := 0;
  HandleDDLEvent _ w := (w, None);
  DumpStatsDeltaToKV _ w := (w, None);
  SaveStatsToStorage _ _ _ _ _ _ w := (w, None);
  DumpStatsFeedbackToKV w := (w, None);
|}.

(** A handle made by [NewHandle] in front of the rows A and B, before its
    first cycle. *)
Definition unreadAB : World := theWorld (freshHandle [rowA10; rowB12]).

(** The same handle after one cycle, and after two. *)
Definition cachedAB : World := theWorld (refresh (freshHandle [rowA10; rowB12])).
Definition recachedAB : World :=
  theWorld (refresh (refresh (freshHandle [rowA10; rowB12]))).

(** Table A was analyzed again at version 13. *)
Definition rowA13 : MetaRow :=
  {| row_version := 13; row_table_id := 1; row_modify_count := 2; row_count := 8 |}.

Definition unreadABA : World :=
  theWorld (freshHandle [rowA10; rowB12; rowA13]).

(** Table A is cached with its column 7 not loaded; the pending columns are
    the given ones. *)
Definition pending (cols : list (Z * Z)) : World :=
  theWorld (registered cols (refresh (freshHandle [rowA10]))).

Definition loadedHistogram : Histogram.t :=
  Histogram.mk 7 4 0 5 32 [Build_Bucket 1 1].

(** An analyze result with two histograms and one sketch slot. *)
Definition shortResult : AnalyzeResult.t :=
  AnalyzeResult.mk 1 [someHistogram; someHistogram] [None] 100 0.

(** Whether every cached pointer is a table object, by computation. *)
Definition pointersValid (w : World) : bool :=
  bool_decide (map_Forall (λ _ p, is_Some (tblHeap w !! p)) (snapshot w)).

(** The cached handle once the store holds B's row only. *)
Definition onlyB : World := with_storage (metaStore [rowB12]) cachedAB.

(** One event and two analyze results are waiting; the second result is the
    short one. *)
Definition shortQueue : World :=
  enqueued [Build_Event 3 1] [someResult; shortResult] [] [] cachedAB.

(** * Properties *)

(** ** Running computations *)

Lemma bind_Ok {A B} (c : M A) (k : A → M B) w a w1 :
  c w = Ok a w1 → bind c k w = k a w1.
Proof. intros H. unfold bind. by rewrite H. Qed.

Lemma hasSnapshot_snapshot w m :
  mapHeap w !! statsCacheRef (hdl w) = Some m → snapshot w = m.
Proof. intros H. unfold snapshot. by rewrite H. Qed.

(** ** The copy-on-write cache *)

Section copy_on_write.

Lemma foldl_insert_entries (l : list (Z * loc)) (m0 : gmap Z loc) :
  NoDup l.*1 →
  foldl (λ acc kv, <[kv.1 := kv.2]> acc) m0 l = list_to_map l ∪ m0.
Proof.
  revert m0. induction l as [|[k v] l IH]; intros m0 Hnd; csimpl.
  - by rewrite (left_id_L ∅ (∪)).
  - rewrite fmap_cons in Hnd. apply NoDup_cons in Hnd as [Hk Hnd].
    rewrite IH by done.
    rewrite <- insert_union_l. symmetry. apply insert_union_r.
    by apply not_elem_of_list_to_map_1.
Qed.

Lemma forRange_mapAssign (l : list (Z * loc)) r m0 w :
  mapHeap w !! r = Some m0 →
  forRange l (λ kv, mapAssign r kv.1 kv.2) w =
  Ok tt (with_mapHeap
           (<[r := foldl (λ acc kv, <[kv.1 := kv.2]> acc) m0 l]> (mapHeap w)) w).
Proof.
  revert m0 w. induction l as [|[k v] l IH]; intros m0 w Hr; simpl.
  - unfold ret. rewrite insert_id by done. by destruct w.
  - unfold bind at 1. unfold mapAssign at 1. simpl. rewrite Hr.
    rewrite (IH (<[k:=v]> m0)); simpl.
    + by rewrite insert_insert_eq.
    + by rewrite lookup_insert_eq.
Qed.

(** The clone is a new map object with the entries of the old one. *)
Lemma copyFromOldCache_spec w m :
  mapHeap w !! statsCacheRef (hdl w) = Some m →
  copyFromOldCache w =
  Ok (fresh (dom (mapHeap w)))
     (with_mapHeap (<[fresh (dom (mapHeap w)) := m]> (mapHeap w)) w).
Proof.
  intros Hm. unfold copyFromOldCache.
  set (r := fresh (dom (mapHeap w))).
  assert (Hr : r ∉ dom (mapHeap w)) by apply is_fresh.
  assert (Hne : r ≠ statsCacheRef (hdl w)).
  { intros ->. apply Hr, elem_of_dom. eauto. }
  unfold bind at 1. unfold newMap at 1. fold r.
  unfold bind at 1. unfold statsCache_Load at 1. simpl.
  rewrite lookup_insert_ne by done. rewrite Hm.
  unfold bind at 1.
  rewrite (forRange_mapAssign _ r ∅); simpl.
  2:{ by rewrite lookup_insert_eq. }
  unfold ret. rewrite insert_insert_eq.
  rewrite foldl_insert_entries by apply NoDup_fst_map_to_list.
  by rewrite (right_id_L ∅ (∪)), list_to_map_to_list.
Qed.

Lemma forRange_updates (tables : list loc) r m0 w :
  mapHeap w !! r = Some m0 →
  Forall (λ p, is_Some (tblHeap w !! p)) tables →
  forRange tables (λ tbl, do t <- readTable tbl;
                          let id := Table.TableID t in mapAssign r id tbl) w =
  Ok tt (with_mapHeap
           (<[r := applyUpdates (tblHeap w) m0 tables]> (mapHeap w)) w).
Proof.
  revert m0 w. induction tables as [|p tables IH]; intros m0 w Hr Hall; simpl.
  - unfold ret. rewrite insert_id by done. by destruct w.
  - apply Forall_cons in Hall as [[t Ht] Hall].
    unfold bind at 1. unfold bind at 1. unfold readTable at 1. rewrite Ht.
    unfold mapAssign at 1. rewrite Hr.
    rewrite (IH (<[Table.TableID t := p]> m0)); simpl;
      [|by rewrite lookup_insert_eq|done].
    by rewrite insert_insert_eq.
Qed.

Lemma forRange_removals (ids : list Z) r m0 w :
  mapHeap w !! r = Some m0 →
  forRange ids (λ id, mapDelete r id) w =
  Ok tt (with_mapHeap (<[r := applyRemovals m0 ids]> (mapHeap w)) w).
Proof.
  revert m0 w. induction ids as [|id ids IH]; intros m0 w Hr; simpl.
  - unfold ret. rewrite insert_id by done. by destruct w.
  - unfold bind at 1. unfold mapDelete at 1. rewrite Hr.
    rewrite (IH (delete id m0)); simpl; [|by rewrite lookup_insert_eq].
    by rewrite insert_insert_eq.
Qed.

(** The code refines the specification's Replace. *)
Lemma UpdateTableStats_spec tables deletedIDs w m :
  mapHeap w !! statsCacheRef (hdl w) = Some m →
  Forall (λ p, is_Some (tblHeap w !! p)) tables →
  UpdateTableStats tables deletedIDs w =
  Ok tt (installed (fresh (dom (mapHeap w)))
           (Replace_spec (tblHeap w) m tables deletedIDs) w).
Proof.
  intros Hm Hall. unfold UpdateTableStats.
  rewrite (bind_Ok _ _ _ _ _ (copyFromOldCache_spec w m Hm)).
  set (r := fresh (dom (mapHeap w))).
  erewrite bind_Ok; last first.
  { apply (forRange_updates tables r m); simpl;
      [by rewrite lookup_insert_eq|done]. }
  erewrite bind_Ok; last first.
  { apply (forRange_removals deletedIDs r (applyUpdates (tblHeap w) m tables)).
    simpl. by rewrite lookup_insert_eq. }
  unfold statsCache_Store, modify, installed, Replace_spec. simpl.
  by rewrite !insert_insert_eq.
Qed.

Lemma applyRemovals_lookup (ids : list Z) (m : gmap Z loc) id :
  applyRemovals m ids !! id = if decide (id ∈ ids) then None else m !! id.
Proof.
  revert m. induction ids as [|i ids IH]; intros m; cbn [applyRemovals foldl].
  - case_decide as Hin; [by apply elem_of_nil in Hin|done].
  - fold (applyRemovals (delete i m) ids). rewrite IH.
    destruct (decide (id ∈ ids)) as [Hin|Hin].
    + rewrite decide_True; [done|]. apply elem_of_cons. by right.
    + destruct (decide (id = i)) as [->|Hne].
      * rewrite decide_True by (apply elem_of_cons; by left).
        apply lookup_delete_eq.
      * rewrite decide_False by (by apply not_elem_of_cons).
        by apply lookup_delete_ne.
Qed.

Lemma snapshot_installed r m w : snapshot (installed r m w) = m.
Proof. unfold snapshot, installed. simpl. by rewrite lookup_insert_eq. Qed.

Lemma installed_old_maps r m w r0 m0 :
  r ∉ dom (mapHeap w) →
  mapHeap w !! r0 = Some m0 → mapHeap (installed r m w) !! r0 = Some m0.
Proof.
  intros Hr H0. unfold installed. simpl. rewrite lookup_insert_ne; [done|].
  intros ->. apply Hr, elem_of_dom. eauto.
Qed.

End copy_on_write.

(** C5.  For every prior snapshot [m], every list of updates (non-nil
    pointers to tables) and every list of removals, [UpdateTableStats]
    returns and the snapshot it leaves is the specification's Replace: the
    prior snapshot cloned, the inserts and overwrites applied, then the
    deletions, so that an ID that is also removed is absent.  The new snapshot
    is a map object that did not exist before, it is installed by exactly one
    [Store], every map object that existed before (the prior snapshot among
    them) keeps its content, and nothing else in the world changes. *)
Theorem UpdateTableStats_copy_on_write
    (w : World) (m : gmap Z loc) (tables : list loc) (deletedIDs : list Z) :
  mapHeap w !! statsCacheRef (hdl w) = Some m →
  Forall (λ p, is_Some (tblHeap w !! p)) tables →
  ∃ (r : loc) (w' : World),
    (r ∉ dom (mapHeap w)) ∧
    UpdateTableStats tables deletedIDs w = Ok tt w' ∧
    w' = installed r (Replace_spec (tblHeap w) m tables deletedIDs) w ∧
    snapshot w' = applyRemovals (applyUpdates (tblHeap w) m tables) deletedIDs ∧
    (∀ id, id ∈ deletedIDs → snapshot w' !! id = None) ∧
    storeLog w' = storeLog w ++ [r] ∧
    statsCacheRef (hdl w') = r ∧
    mapHeap w' !! statsCacheRef (hdl w) = Some m ∧
    (∀ r0 m0, mapHeap w !! r0 = Some m0 → mapHeap w' !! r0 = Some m0).
Proof.
  intros Hm Hall.
  assert (Hr : fresh (dom (mapHeap w)) ∉ dom (mapHeap w)) by apply is_fresh.
  eexists _, _. split; [exact Hr|].
  split; [by apply UpdateTableStats_spec|]. split; [done|].
  rewrite snapshot_installed. repeat split.
  - intros id Hid. unfold Replace_spec. rewrite applyRemovals_lookup.
    by rewrite decide_True.
  - by apply installed_old_maps.
  - intros r0 m0. by apply installed_old_maps.
Qed.

(** ** The loop of Update over the meta rows *)

Section update_rows.
Context `{!Collaborators}.

Lemma rowsFrame_refl w : rowsFrame w w.
Proof. split; try done. by destruct w as [[]]. Qed.

Lemma rowsFrame_trans w1 w2 w3 :
  rowsFrame w1 w2 → rowsFrame w2 w3 → rowsFrame w1 w3.
Proof.
  intros [A1 A2 A3 A4 A5 A6] [B1 B2 B3 B4 B5 B6]. split; try congruence.
  - rewrite B1, A1. done.
  - by etrans.
Qed.

(** A row whose table the catalog knows and whose statistics are rebuilt:
    a new object, stamped with the row, is appended to [tables]. *)
Lemma updateRow_rebuilt is_ row tables deletedTableIDs w tableInfo t :
  TableByID is_ (row_table_id row) = Some tableInfo →
  tableStatsFromStorage tableInfo false
    (with_hdl (with_LastVersion (row_version row)) w) = (Some t, None) →
  updateRow is_ row tables deletedTableIDs w =
  Ok (tables ++ [fresh (dom (tblHeap w))], deletedTableIDs)
     (with_tblHeap (<[fresh (dom (tblHeap w)) := stamped row t]> (tblHeap w))
        (with_hdl (with_LastVersion (row_version row)) w)).
Proof.
  intros Hcat Hst. unfold updateRow. rewrite Hcat.
  unfold bind, modify, query, newTable, writeTable, ret. simpl.
  rewrite Hst. simpl. rewrite !lookup_insert_eq. simpl.
  rewrite !lookup_insert_eq. simpl. rewrite !lookup_insert_eq.
  by rewrite !insert_insert_eq.
Qed.

(** Whatever the catalog and the storage answer, one row is processed
    without a panic; it sets the current watermark to its version. *)
Lemma updateRow_frame is_ row tables deletedTableIDs w :
  Forall (λ p, is_Some (tblHeap w !! p)) tables →
  ∃ acc w',
    updateRow is_ row tables deletedTableIDs w = Ok acc w' ∧
    rowsFrame w w' ∧
    LastVersion (hdl w') = row_version row ∧
    Forall (λ p, is_Some (tblHeap w' !! p)) acc.1.
Proof.
  intros Hall.
  destruct (TableByID is_ (row_table_id row)) as [tableInfo|] eqn:Hcat.
  - destruct (tableStatsFromStorage tableInfo false
                (with_hdl (with_LastVersion (row_version row)) w))
      as [ot oe] eqn:Hst.
    destruct oe as [err|]; [|destruct ot as [t|]].
    + eexists _, _. split.
      { unfold updateRow. rewrite Hcat.
        unfold bind, modify, query, ret. simpl. rewrite Hst. simpl. done. }
      split; [|done]. split; done.
    + eexists _, _. split; [by eapply updateRow_rebuilt|].
      assert (Hfresh : tblHeap w !! fresh (dom (tblHeap w)) = None).
      { apply not_elem_of_dom, is_fresh. }
      split; [|split; [done|]].
      * split; try done. simpl. by apply insert_subseteq.
      * simpl. apply Forall_app. split.
        -- eapply Forall_impl; [exact Hall|]. intros p [t' Hp].
           destruct (decide (p = fresh (dom (tblHeap w)))) as [->|Hne];
             [congruence|].
           rewrite lookup_insert_ne by done. eauto.
        -- apply Forall_singleton. rewrite lookup_insert_eq. eauto.
    + eexists _, _. split.
      { unfold updateRow. rewrite Hcat.
        unfold bind, modify, query, ret. simpl. rewrite Hst. simpl. done. }
      split; [|done]. split; done.
  - eexists _, _. split.
    { unfold updateRow. rewrite Hcat.
      unfold bind, modify, ret. simpl. done. }
    split; [|done]. split; done.
Qed.

Lemma updateRows_frame is_ rows tables deletedTableIDs w :
  Forall (λ p, is_Some (tblHeap w !! p)) tables →
  ∃ acc w',
    updateRows is_ rows tables deletedTableIDs w = Ok acc w' ∧
    rowsFrame w w' ∧
    LastVersion (hdl w') = lastVersionOf rows (LastVersion (hdl w)) ∧
    Forall (λ p, is_Some (tblHeap w' !! p)) acc.1.
Proof.
  revert tables deletedTableIDs w.
  induction rows as [|row rows IH]; intros tables deletedTableIDs w Hall.
  - exists (tables, deletedTableIDs), w. split; [done|].
    split; [apply rowsFrame_refl|]. done.
  - destruct (updateRow_frame is_ row tables deletedTableIDs w Hall)
      as (acc1 & w1 & Hrow & Hf1 & Hv1 & Hall1).
    destruct (IH acc1.1 acc1.2 w1 Hall1) as (acc & w' & Hrows & Hf & Hv & Hall').
    exists acc, w'. split.
    { cbn [updateRows]. by rewrite (bind_Ok _ _ _ _ _ Hrow). }
    split; [by eapply rowsFrame_trans|]. split; [|done].
    rewrite Hv. unfold lastVersionOf. simpl. by rewrite Hv1.
Qed.

Lemma lastVersionOf_last rows row v :
  last rows = Some row → lastVersionOf rows v = row_version row.
Proof.
  intros Hlast. apply last_Some in Hlast as [rows' ->].
  unfold lastVersionOf. by rewrite foldl_app.
Qed.

End update_rows.

(** ** One refresh cycle *)

Section update_cycle.
Context `{!Collaborators}.

(** A cycle whose query succeeds: the loop runs on [refreshBatch w] from
    [cycleStart w], then one Replace installs the result. *)
Lemma Update_success is_ w m :
  mapHeap w !! statsCacheRef (hdl w) = Some m →
  sql_failure (storage w) = None →
  ∃ acc w1,
    updateRows is_ (refreshBatch w) [] [] (cycleStart w) = Ok acc w1 ∧
    rowsFrame (cycleStart w) w1 ∧
    LastVersion (hdl w1) = lastVersionOf (refreshBatch w) (LastVersion (hdl w)) ∧
    Update is_ w =
      Ok None (installed (fresh (dom (mapHeap w)))
                 (Replace_spec (tblHeap w1) m acc.1 acc.2) w1).
Proof.
  intros Hm Hsql.
  destruct (updateRows_frame is_ (refreshBatch w) [] [] (cycleStart w))
    as (acc & w1 & Hrows & Hf & Hv & Hall); [done|].
  exists acc, w1. split; [done|]. split; [done|]. split; [done|].
  unfold Update.
  unfold bind at 1. unfold query at 1.
  unfold bind at 1. unfold ExecRestrictedSQL, query at 1. rewrite Hsql.
  cbn [fst snd]. unfold bind at 1. unfold modify at 1.
  fold (cycleStart w). fold (refreshBatch w).
  rewrite (bind_Ok _ _ _ _ _ Hrows).
  assert (Hm1 : mapHeap w1 !! statsCacheRef (hdl w1) = Some m).
  { rewrite (rf_mapHeap _ _ Hf), (rf_hdl _ _ Hf). done. }
  rewrite (bind_Ok _ _ _ _ _ (UpdateTableStats_spec _ _ _ _ Hm1 Hall)).
  unfold ret. by rewrite (rf_mapHeap _ _ Hf).
Qed.

Lemma Update_query_failure is_ w err :
  sql_failure (storage w) = Some err →
  Update is_ w = Ok (Some (errors_Trace err)) w.
Proof.
  intros Hsql. unfold Update, bind, query, ExecRestrictedSQL, query, ret.
  by rewrite Hsql.
Qed.

(** The watermarks after a cycle whose query succeeds. *)
Lemma Update_watermarks is_ w :
  hasSnapshot w →
  sql_failure (storage w) = None →
  ∃ w', Update is_ w = Ok None w' ∧
    PrevLastVersion (hdl w') = LastVersion (hdl w) ∧
    LastVersion (hdl w') = lastVersionOf (refreshBatch w) (LastVersion (hdl w)) ∧
    hasSnapshot w' ∧
    storage w' = storage w.
Proof.
  intros [m Hm] Hsql.
  destruct (Update_success is_ w m Hm Hsql) as (acc & w1 & _ & Hf & Hv & HU).
  eexists. split; [exact HU|].
  unfold installed, hasSnapshot. simpl.
  rewrite (rf_hdl _ _ Hf). simpl. split; [done|]. split; [done|].
  split; [rewrite lookup_insert_eq; eauto|]. by rewrite (rf_storage _ _ Hf).
Qed.

End update_cycle.

(** C10.  When the query of a refresh cycle fails, [Update] returns that
    error (traced) and the world, with the handle in it, is exactly the one
    before the call: both watermarks, the reference of the snapshot, the map
    objects and the history of stores are untouched. *)
Theorem Update_query_error_keeps_state `{!Collaborators}
    (is_ : InfoSchema) (w : World) (err : error) :
  sql_failure (storage w) = Some err →
  ∃ w', Update is_ w = Ok (Some (errors_Trace err)) w' ∧
    w' = w ∧
    LastVersion (hdl w') = LastVersion (hdl w) ∧
    PrevLastVersion (hdl w') = PrevLastVersion (hdl w) ∧
    statsCacheRef (hdl w') = statsCacheRef (hdl w) ∧
    snapshot w' = snapshot w ∧
    storeLog w' = storeLog w.
Proof.
  intros Hsql. exists w. split; [by apply Update_query_failure|]. done.
Qed.

(** C1.  A cycle whose query returns the single meta row (version 5,
    table 1, modify count 3, count 100), for a table 1 that the catalog
    resolves and whose statistics are rebuilt into an object of table 1:
    afterwards the snapshot maps table 1 to an object with Version 5,
    Count 100 and ModifyCount 3, the previous watermark is the old current
    one and the current watermark is 5. *)
Theorem Update_single_meta_row `{!Collaborators}
    (is_ : InfoSchema) (w : World) (tableInfo : TableInfo) (t : Table.t) :
  hasSnapshot w →
  sql_failure (storage w) = None →
  refreshBatch w = [exampleRow] →
  TableByID is_ 1 = Some tableInfo →
  tableStatsFromStorage tableInfo false
    (with_hdl (with_LastVersion 5) (cycleStart w)) = (Some t, None) →
  Table.TableID t = 1 →
  ∃ w' p t',
    Update is_ w = Ok None w' ∧
    snapshot w' !! 1 = Some p ∧
    tblHeap w' !! p = Some t' ∧
    Table.TableID t' = 1 ∧
    Table.Version t' = 5 ∧
    Table.Count t' = 100 ∧
    Table.ModifyCount t' = 3 ∧
    PrevLastVersion (hdl w') = LastVersion (hdl w) ∧
    LastVersion (hdl w') = 5.
Proof.
  intros [m Hm] Hsql Hrows Hcat Hst Hid.
  destruct (Update_success is_ w m Hm Hsql) as (acc & w1 & Hloop & _ & _ & HU).
  rewrite Hrows in Hloop. cbn [updateRows] in Hloop.
  rewrite (bind_Ok _ _ _ _ _
             (updateRow_rebuilt is_ exampleRow [] [] (cycleStart w) tableInfo t Hcat Hst))
    in Hloop.
  injection Hloop as <- <-.
  eexists _, (fresh (dom (tblHeap w))), (stamped exampleRow t).
  split; [exact HU|]. rewrite snapshot_installed.
  split.
  { unfold Replace_spec, applyUpdates, applyRemovals. simpl.
    rewrite lookup_insert_eq. simpl. rewrite Hid. by rewrite lookup_insert_eq. }
  split; [simpl; by rewrite lookup_insert_eq|]. done.
Qed.

(** ** The batch of a cycle *)

Section batches.

Lemma elem_of_runSQL floor meta row :
  row ∈ runSQL (SelectStatsMeta floor) meta ↔
  row ∈ meta ∧ floor < row_version row.
Proof.
  unfold runSQL. rewrite merge_sort_Permutation, list_elem_of_filter.
  split; intros [? ?]; split; done || lia.
Qed.

Lemma runSQL_sorted sql meta : StronglySorted version_le (runSQL sql meta).
Proof. destruct sql. apply StronglySorted_merge_sort; apply _. Qed.

Lemma elem_of_refreshBatch w row :
  row ∈ refreshBatch w ↔
  row ∈ stats_meta (storage w) ∧ PrevLastVersion (hdl w) < row_version row.
Proof. apply elem_of_runSQL. Qed.

Lemma refreshBatch_sorted w : StronglySorted version_le (refreshBatch w).
Proof. apply runSQL_sorted. Qed.

(** The last row of an ascending batch carries its largest version. *)
Lemma sorted_last_max (rows : list MetaRow) row row' :
  StronglySorted version_le rows →
  last rows = Some row' → row ∈ rows →
  row_version row ≤ row_version row'.
Proof.
  intros Hsorted Hlast Hin. apply last_Some in Hlast as [rows' ->].
  apply elem_of_app in Hin as [Hin|Hin].
  - apply (StronglySorted_app_1_elem_of _ _ _ _ _ Hsorted Hin).
    apply list_elem_of_singleton. done.
  - apply list_elem_of_singleton in Hin as ->. done.
Qed.

Lemma refreshBatch_nil w :
  (∀ row, row ∈ stats_meta (storage w) →
          row_version row ≤ PrevLastVersion (hdl w)) →
  refreshBatch w = [].
Proof.
  intros Hnone. apply elem_of_nil_inv. intros row Hin.
  apply elem_of_refreshBatch in Hin as [Hin Hgt].
  specialize (Hnone row Hin). lia.
Qed.

(** With no stored row above the current watermark, a batch that ends below
    it can only come from a store that lost the row at the watermark. *)
Lemma lastVersionOf_refreshBatch_steady w :
  (∀ row, row ∈ stats_meta (storage w) →
          row_version row ≤ LastVersion (hdl w)) →
  (∃ row, row ∈ stats_meta (storage w) ∧
          row_version row = LastVersion (hdl w)) ∨
  (∀ row, row ∈ stats_meta (storage w) →
          row_version row ≤ PrevLastVersion (hdl w)) →
  lastVersionOf (refreshBatch w) (LastVersion (hdl w)) = LastVersion (hdl w).
Proof.
  intros Hle Hcase.
  destruct (last (refreshBatch w)) as [row'|] eqn:Hlast.
  - rewrite (lastVersionOf_last _ row') by done.
    assert (Hin' : row' ∈ refreshBatch w) by by apply last_Some_elem_of.
    apply elem_of_refreshBatch in Hin' as [Hin' Hgt'].
    pose proof (Hle row' Hin') as Hle'.
    destruct Hcase as [(row & Hin & Hv)|Hnone].
    + assert (Hb : row ∈ refreshBatch w).
      { apply elem_of_refreshBatch. split; [done|lia]. }
      pose proof (sorted_last_max _ _ _ (refreshBatch_sorted w) Hlast Hb).
      lia.
    + specialize (Hnone row' Hin'). lia.
  - apply last_None in Hlast. by rewrite Hlast.
Qed.

End batches.

(** ** Two cycles in a row *)

Section update_twice.
Context `{!Collaborators}.

(** A cycle with an empty batch keeps every table object and the content
    of the snapshot; previous takes the value of current. *)
Lemma Update_empty_batch is_ w :
  hasSnapshot w →
  sql_failure (storage w) = None →
  refreshBatch w = [] →
  ∃ w', Update is_ w = Ok None w' ∧
    snapshot w' = snapshot w ∧
    tblHeap w' = tblHeap w ∧
    LastVersion (hdl w') = LastVersion (hdl w) ∧
    PrevLastVersion (hdl w') = LastVersion (hdl w).
Proof.
  intros [m Hm] Hsql Hnil.
  destruct (Update_success is_ w m Hm Hsql) as (acc & w1 & Hloop & _ & _ & HU).
  rewrite Hnil in Hloop. injection Hloop as <- <-.
  eexists. split; [exact HU|]. rewrite snapshot_installed.
  split; [|done]. by rewrite (hasSnapshot_snapshot w m).
Qed.

End update_twice.

(** C4, as the code has it.  For every handle with a snapshot, in front of a
    store that answers, that holds no meta row above the current watermark
    and that either still holds a row at the current watermark or holds no
    row above the previous one: two calls of [Update] in a row both return,
    and across the second call the content of the cache (the snapshot and
    every table object) and both watermarks are unchanged. *)
Theorem Update_twice_without_new_rows `{!Collaborators}
    (is1 is2 : InfoSchema) (w : World) :
  hasSnapshot w →
  sql_failure (storage w) = None →
  (∀ row, row ∈ stats_meta (storage w) →
          row_version row ≤ LastVersion (hdl w)) →
  ((∃ row, row ∈ stats_meta (storage w) ∧
           row_version row = LastVersion (hdl w)) ∨
   (∀ row, row ∈ stats_meta (storage w) →
           row_version row ≤ PrevLastVersion (hdl w))) →
  ∃ w1 w2,
    Update is1 w = Ok None w1 ∧
    Update is2 w1 = Ok None w2 ∧
    snapshot w2 = snapshot w1 ∧
    tblHeap w2 = tblHeap w1 ∧
    LastVersion (hdl w2) = LastVersion (hdl w1) ∧
    PrevLastVersion (hdl w2) = PrevLastVersion (hdl w1).
Proof.
  intros Hsnap Hsql Hle Hcase.
  destruct (Update_watermarks is1 w Hsnap Hsql)
    as (w1 & HU1 & Hprev1 & Hlast1 & Hsnap1 & Hst1).
  rewrite (lastVersionOf_refreshBatch_steady w Hle Hcase) in Hlast1.
  assert (Hnil : refreshBatch w1 = []).
  { apply refreshBatch_nil. rewrite Hst1, Hprev1. exact Hle. }
  destruct (Update_empty_batch is2 w1 Hsnap1) as (w2 & HU2 & Hs & Ht & Hl & Hp);
    [by rewrite Hst1|done|].
  exists w1, w2. repeat split; try done. congruence.
Qed.

(** Against C4 as stated. A handle made by [NewHandle] reads the rows A
    (version 10) and B (version 12), then B's row is gone from the store: the
    store holds no row above the current watermark 12. Two calls of [Update]
    follow. After the first the watermarks are (current 10, previous 12),
    after the second they are (10, 10): the second call changed the previous
    watermark. *)
Lemma second_Update_moves_previous :
  let w0 := storeBecomes [rowA10] (refresh (freshHandle [rowA10; rowB12])) in
  let w1 := refresh w0 in
  let w2 := refresh w1 in
  observe watermarks w0 = Some (12, 0) ∧
  observe (λ w, stats_meta (storage w)) w0 = Some [rowA10] ∧
  observe watermarks w1 = Some (10, 12) ∧
  observe watermarks w2 = Some (10, 10) ∧
  observe (λ w, PrevLastVersion (hdl w)) w2 ≠
  observe (λ w, PrevLastVersion (hdl w)) w1.
Proof.
  intros w0 w1 w2.
  split; [vm_compute; reflexivity|].
  split; [vm_compute; reflexivity|].
  split; [vm_compute; reflexivity|].
  split; [vm_compute; reflexivity|].
  vm_compute. discriminate.
Qed.

(** C3, as the code has it.  A cycle whose query succeeds runs its loop on
    the batch of the stored rows whose version is strictly above the previous
    watermark (the current one plays no part), in ascending order of version.
    So when a cycle that started with the current watermark below 10 has
    advanced it to 12, a row of version 10 that becomes visible afterwards is
    in the batch of the next cycle. *)
Theorem Update_reads_above_previous_watermark `{!Collaborators}
    (is1 : InfoSchema) (w : World) (st1 st2 : Storage) (rowA : MetaRow) :
  hasSnapshot w →
  sql_failure st1 = None →
  LastVersion (hdl w) < 10 →
  lastVersionOf (refreshBatch (with_storage st1 w)) (LastVersion (hdl w)) = 12 →
  row_version rowA = 10 →
  rowA ∈ stats_meta st2 →
  (∀ w0 row, row ∈ refreshBatch w0 ↔
      row ∈ stats_meta (storage w0) ∧ PrevLastVersion (hdl w0) < row_version row) ∧
  (∀ w0, StronglySorted version_le (refreshBatch w0)) ∧
  (∀ is_ w0 m, mapHeap w0 !! statsCacheRef (hdl w0) = Some m →
      sql_failure (storage w0) = None →
      ∃ acc w1,
        updateRows is_ (refreshBatch w0) [] [] (cycleStart w0) = Ok acc w1 ∧
        Update is_ w0 =
          Ok None (installed (fresh (dom (mapHeap w0)))
                     (Replace_spec (tblHeap w1) m acc.1 acc.2) w1)) ∧
  ∃ w1, Update is1 (with_storage st1 w) = Ok None w1 ∧
    LastVersion (hdl w1) = 12 ∧
    rowA ∈ refreshBatch (with_storage st2 w1).
Proof.
  intros Hsnap Hsql Hlt Hadv HvA HinA.
  split; [apply elem_of_refreshBatch|].
  split; [apply refreshBatch_sorted|].
  split.
  { intros is_ w0 m Hm Hsql0.
    destruct (Update_success is_ w0 m Hm Hsql0) as (acc & w1 & ? & _ & _ & ?).
    eauto. }
  destruct (Update_watermarks is1 (with_storage st1 w))
    as (w1 & HU & Hprev & Hlast & _ & _); [done..|].
  exists w1. split; [done|]. split; [by rewrite Hlast|].
  apply elem_of_refreshBatch. simpl. split; [done|].
  rewrite Hprev. simpl. lia.
Qed.

(** Against C3 as stated. A handle made by [NewHandle] reads X (version 11)
    twice: both watermarks are 11. B (version 12) appears and a cycle advances
    the current watermark to 12. Only then A's row (version 10) becomes
    visible. The next cycle asks for versions above 11: its batch is [B], and
    afterwards the cache has B's table but no entry for A's table, although
    the catalog knows A and its statistics can be rebuilt. *)
Lemma late_row_below_previous_is_missed :
  let w2 := refresh (refresh (freshHandle [rowX11])) in
  let w3 := refresh (storeBecomes [rowX11; rowB12] w2) in
  let late := storeBecomes [rowA10; rowX11; rowB12] w3 in
  let w4 := refresh late in
  observe watermarks w2 = Some (11, 11) ∧
  observe watermarks w3 = Some (12, 11) ∧
  observe refreshBatch late = Some [rowB12] ∧
  observe watermarks w4 = Some (12, 12) ∧
  observe (cachedVersion 1) w4 = Some None ∧
  observe (cachedVersion 2) w4 = Some (Some 12) ∧
  TableByID catalogAB 1 = Some tableA.
Proof.
  intros w2 w3 late w4.
  split; [vm_compute; reflexivity|].
  split; [vm_compute; reflexivity|].
  split; [vm_compute; reflexivity|].
  split; [vm_compute; reflexivity|].
  split; [vm_compute; reflexivity|].
  split; [vm_compute; reflexivity|].
  vm_compute; reflexivity.
Qed.

(** The skew the two watermarks are there for: B (version 12) is read by the
    first cycle of a new handle, A (version 10) becomes visible afterwards,
    and the second cycle installs A's table with version 10. *)
Example late_row_above_previous_is_read :
  let w1 := refresh (freshHandle [rowB12]) in
  let w2 := refresh (storeBecomes [rowB12; rowA10] w1) in
  observe watermarks w1 = Some (12, 0) ∧
  observe watermarks w2 = Some (12, 12) ∧
  observe (cachedVersion 1) w2 = Some (Some 10).
Proof.
  intros w1 w2.
  split; [vm_compute; reflexivity|].
  split; [vm_compute; reflexivity|].
  vm_compute; reflexivity.
Qed.

(** ** The watermarks over sequences of cycles *)

Section watermark_sequences.
Context `{!Collaborators}.

(** A batch that is not empty ends at or above the current watermark when
    the store still covers that watermark. *)
Lemma lastVersionOf_refreshBatch_covered w :
  PrevLastVersion (hdl w) ≤ LastVersion (hdl w) →
  currentCovered w →
  LastVersion (hdl w) ≤ lastVersionOf (refreshBatch w) (LastVersion (hdl w)) ∧
  (refreshBatch w = [] ∨
   ∃ row, row ∈ stats_meta (storage w) ∧
     lastVersionOf (refreshBatch w) (LastVersion (hdl w)) = row_version row).
Proof.
  intros Hle Hcov.
  destruct (last (refreshBatch w)) as [row'|] eqn:Hlast.
  - rewrite (lastVersionOf_last _ row') by done.
    assert (Hin' : row' ∈ refreshBatch w) by by apply last_Some_elem_of.
    pose proof Hin' as Hb. apply elem_of_refreshBatch in Hb as [Hst Hgt].
    split; [|right; by exists row'].
    destruct Hcov as [Heq|(row & Hin & Hge)]; [lia|].
    destruct (decide (PrevLastVersion (hdl w) < row_version row)) as [Habove|?];
      [|lia].
    assert (Hrow : row ∈ refreshBatch w) by by apply elem_of_refreshBatch.
    pose proof (sorted_last_max _ _ _ (refreshBatch_sorted w) Hlast Hrow). lia.
  - apply last_None in Hlast. rewrite Hlast. split; [done|by left].
Qed.

Lemma currentCovered_keepsVersions w st :
  currentCovered w → keepsVersions (storage w) st →
  currentCovered (with_storage st w).
Proof.
  intros [Heq|(row & Hin & Hge)] Hkeep; [by left|].
  destruct (Hkeep row Hin) as (row' & Hin' & Hle).
  right. exists row'. split; [done|]. simpl. lia.
Qed.

Lemma refreshCycles_steps cycles w :
  hasSnapshot w →
  PrevLastVersion (hdl w) ≤ LastVersion (hdl w) →
  currentCovered w →
  storeKeepsVersions (storage w) cycles →
  length (refreshCycles cycles w) = length cycles ∧
  stepwise watermarksStep w (refreshCycles cycles w).
Proof.
  revert w. induction cycles as [|[is_ st] cycles IH];
    intros w Hsnap Hle Hcov Hkeep; [done|].
  cbn [refreshCycles storeKeepsVersions] in *. destruct Hkeep as [Hst Hkeep].
  assert (Hsnap0 : hasSnapshot (with_storage st w)) by done.
  pose proof (currentCovered_keepsVersions w st Hcov Hst) as Hcov0.
  destruct (sql_failure st) as [err|] eqn:Hsql.
  - rewrite (Update_query_failure is_ (with_storage st w) err) by done.
    destruct (IH (with_storage st w)) as [Hlen Hsteps]; [done..|].
    cbn [length stepwise]. split; [by rewrite Hlen|]. split; [|done].
    unfold watermarksStep. simpl. rewrite Hsql. repeat split; try lia.
  - destruct (Update_watermarks is_ (with_storage st w))
      as (w' & HU & Hprev & Hlast & Hsnap' & Hst'); [done..|].
    rewrite HU.
    destruct (lastVersionOf_refreshBatch_covered (with_storage st w))
      as [Hup Hrow]; [done..|].
    simpl in Hprev, Hlast, Hup, Hst'.
    assert (Hcov' : currentCovered w').
    { destruct Hrow as [Hnil|(row & Hin & Hv)].
      - left. rewrite Hprev, Hlast, Hnil. done.
      - right. exists row. rewrite Hst'. split; [done|].
        rewrite Hlast. simpl in Hv. lia. }
    destruct (IH w') as [Hlen Hsteps]; [done|lia|done|by rewrite Hst'|].
    cbn [length stepwise]. split; [by rewrite Hlen|]. split; [|done].
    unfold watermarksStep. rewrite Hst'. simpl. rewrite Hsql.
    repeat split; lia.
Qed.

End watermark_sequences.

(** C2, as the code has it.  In every cycle whose query succeeds, previous
    takes the value current had before the cycle, before the rows are
    processed, and current ends at the version of the last row of the batch
    (it is unchanged when the batch is empty).  A cycle whose query fails
    changes neither watermark.  Over every sequence of cycles in front of a
    store that never loses a version, started with previous at most current
    and with a current watermark the store still covers: every cycle
    returns, neither watermark goes back from one cycle to the next, and
    previous is at most current at the end of every cycle. *)
Theorem watermarks_nondecreasing_when_store_keeps_versions `{!Collaborators}
    (cycles : list (InfoSchema * Storage)) (w : World) :
  hasSnapshot w →
  PrevLastVersion (hdl w) ≤ LastVersion (hdl w) →
  currentCovered w →
  storeKeepsVersions (storage w) cycles →
  length (refreshCycles cycles w) = length cycles ∧
  stepwise watermarksStep w (refreshCycles cycles w) ∧
  (∀ is_ w0,
     hasSnapshot w0 → sql_failure (storage w0) = None →
     ∃ acc w1 w',
       PrevLastVersion (hdl (cycleStart w0)) = LastVersion (hdl w0) ∧
       LastVersion (hdl (cycleStart w0)) = LastVersion (hdl w0) ∧
       updateRows is_ (refreshBatch w0) [] [] (cycleStart w0) = Ok acc w1 ∧
       Update is_ w0 = Ok None w' ∧
       PrevLastVersion (hdl w') = LastVersion (hdl w0) ∧
       LastVersion (hdl w') =
         lastVersionOf (refreshBatch w0) (LastVersion (hdl w0))) ∧
  (∀ is_ w0 err,
     sql_failure (storage w0) = Some err →
     Update is_ w0 = Ok (Some (errors_Trace err)) w0).
Proof.
  intros Hsnap Hle Hcov Hkeep.
  destruct (refreshCycles_steps cycles w Hsnap Hle Hcov Hkeep) as [Hlen Hsteps].
  split; [done|]. split; [done|]. split.
  - intros is_ w0 [m Hm] Hsql.
    destruct (Update_success is_ w0 m Hm Hsql) as (acc & w1 & Hrun & Hf & Hv & HU).
    eexists acc, w1, _. split; [done|]. split; [done|]. split; [exact Hrun|].
    split; [exact HU|]. unfold installed. simpl.
    rewrite (rf_hdl _ _ Hf). simpl. done.
  - intros is_ w0 err Hsql. by apply Update_query_failure.
Qed.

(** Against C2 as stated.  A handle made by [NewHandle] reads the rows A
    (version 10) and B (version 12): the watermarks are (current 12, previous 0).  Then B's row
    is gone from the store.  The next cycle gets the ordered batch [A]: it
    ends with current 10 and previous 12, so current went back and previous
    is above current.  And with the store unchanged instead, the next cycle
    gets [A; B], and after its first row current is 10 and previous is 12,
    before the second row brings current back to 12. *)
Lemma watermarks_can_go_back :
  let w1 := refresh (freshHandle [rowA10; rowB12]) in
  let shrunk := storeBecomes [rowA10] w1 in
  observe watermarks w1 = Some (12, 0) ∧
  observe refreshBatch shrunk = Some [rowA10] ∧
  observe watermarks (refresh shrunk) = Some (10, 12) ∧
  ¬ (12 ≤ 10) ∧
  observe refreshBatch w1 = Some [rowA10; rowB12] ∧
  observe watermarks
    (match observe cycleStart w1 with
     | Some w => after (@updateRow healthy catalogAB rowA10 [] []) w
     | None => None
     end) = Some (10, 12) ∧
  observe watermarks (refresh w1) = Some (12, 12).
Proof.
  intros w1 shrunk.
  split; [vm_compute; reflexivity|].
  split; [vm_compute; reflexivity|].
  split; [vm_compute; reflexivity|].
  split; [lia|].
  split; [vm_compute; reflexivity|].
  split; [vm_compute; reflexivity|].
  vm_compute; reflexivity.
Qed.

(** ** The lazy histogram loader *)

Section lazy_loader.
Context `{!Collaborators}.

(** Every round of the loop goes one of the ways of [loadRound]. *)
Lemma loadColumn_round col w :
  hasSnapshot w → loadRound col w (loadColumn col w).
Proof.
  intros [m Hm]. pose proof (hasSnapshot_snapshot w m Hm) as Hsnap.
  unfold loadColumn. unfold bind at 1. unfold statsCache_Load at 1.
  rewrite Hm.
  destruct (m !! col.1) as [tbl0|] eqn:Htbl0.
  2:{ apply round_table_absent. by rewrite Hsnap. }
  unfold bind at 1. unfold Table_copy, bind at 1. unfold readTable at 1.
  destruct (tblHeap w !! tbl0) as [t|] eqn:Ht.
  2:{ eapply round_nil_table; [by rewrite Hsnap|done]. }
  unfold newTable at 1. fold (copied t w).
  unfold bind at 1. unfold readTable at 1.
  assert (Hp : tblHeap (copied t w) !! fresh (dom (tblHeap w)) = Some t).
  { unfold copied. simpl. by rewrite lookup_insert_eq. }
  rewrite Hp.
  destruct (Table.Columns t !! col.2) as [c|] eqn:Hc.
  2:{ eapply round_column_absent; [by rewrite Hsnap|done..]. }
  destruct (decide (Histogram.Len (Column.Hist c) > 0)) as [Hlen|Hlen].
  { eapply round_already_loaded; [by rewrite Hsnap|done..]. }
  unfold bind at 1. unfold query at 1. fold (loadHistogram col.1 c (copied t w)).
  destruct (loadHistogram col.1 c (copied t w)) as [ohg oerr] eqn:Hh.
  destruct oerr as [err|]; cbn [fst snd].
  { eapply round_histogram_fails; [by rewrite Hsnap|done..]. }
  unfold bind at 1. unfold query at 1.
  destruct (cmSketchFromStorage col.1 0 col.2 (copied t w)) as [cms oerr] eqn:Hs.
  destruct oerr as [err|]; cbn [fst snd].
  { eapply round_sketch_fails; [by rewrite Hsnap|done..]. }
  destruct ohg as [hg|].
  2:{ eapply round_nil_histogram; [by rewrite Hsnap|done..]. }
  unfold bind at 1. unfold writeTable at 1. rewrite Hp.
  set (t' := Table.with_Columns _ t).
  assert (Hw : with_tblHeap
                 (<[fresh (dom (tblHeap w)) := t']> (tblHeap (copied t w)))
                 (copied t w) = copied t' w).
  { unfold copied. simpl. by rewrite insert_insert_eq. }
  rewrite Hw.
  assert (Hp' : tblHeap (copied t' w) !! fresh (dom (tblHeap w)) = Some t').
  { unfold copied. simpl. by rewrite lookup_insert_eq. }
  unfold bind at 1.
  rewrite (UpdateTableStats_spec [fresh (dom (tblHeap w))] [] (copied t' w) m);
    [|done|apply Forall_singleton; eauto].
  unfold bind at 1. unfold neededDelete, modify at 1. unfold ret.
  replace (Replace_spec (tblHeap (copied t' w)) m [fresh (dom (tblHeap w))] [])
    with (<[Table.TableID t := fresh (dom (tblHeap w))]> (snapshot w)).
  2:{ unfold Replace_spec, applyRemovals, applyUpdates. cbn [foldl].
      rewrite Hp'. by rewrite Hsnap. }
  by eapply (round_loaded col w tbl0 t c hg cms); [by rewrite Hsnap|..].
Qed.

End lazy_loader.

Section lazy_loader_rounds.
Context `{!Collaborators}.

Lemma hasSnapshot_installed r m w : hasSnapshot (installed r m w).
Proof. unfold hasSnapshot, installed. simpl. rewrite lookup_insert_eq. eauto. Qed.

Lemma elem_of_unregistered col col' w :
  col' ≠ col →
  col' ∈ histogramNeededColumns (unregistered col w) ↔
  col' ∈ histogramNeededColumns w.
Proof.
  intros Hne. unfold unregistered. simpl.
  rewrite elem_of_difference, elem_of_singleton. tauto.
Qed.

(** A round keeps the handle's snapshot in place and removes no entry of
    the registry but, possibly, its own. *)
Lemma loadRound_frame col w r w' :
  hasSnapshot w →
  loadRound col w (Ok r w') →
  hasSnapshot w' ∧
  (∀ col', col' ≠ col →
     (col' ∈ histogramNeededColumns w' ↔ col' ∈ histogramNeededColumns w)).
Proof.
  intros Hsnap HR. inversion HR; subst; clear HR.
  - done.
  - split; [done|]. intros col' Hne. by rewrite elem_of_unregistered.
  - split; [done|]. intros col' Hne. by rewrite elem_of_unregistered.
  - done.
  - done.
  - split; [apply hasSnapshot_installed|].
    intros col' Hne. by rewrite elem_of_unregistered.
Qed.

(** A round that returns an error was stopped by a failed load from the
    store; it changed neither the registry nor the snapshot. *)
Lemma loadRound_error col w e w' :
  loadRound col w (Ok (Some e) w') →
  histogramNeededColumns w' = histogramNeededColumns w ∧
  snapshot w' = snapshot w ∧
  ∃ tbl0 t c err,
    snapshot w !! col.1 = Some tbl0 ∧ tblHeap w !! tbl0 = Some t ∧
    Table.Columns t !! col.2 = Some c ∧
    e = errors_Trace err ∧
    ((loadHistogram col.1 c (copied t w)).2 = Some err ∨
     (cmSketchFromStorage col.1 0 col.2 (copied t w)).2 = Some err).
Proof.
  intros HR. inversion HR; subst; clear HR.
  - split; [done|]. split; [done|].
    eexists _, _, _, _. repeat split; try done. left.
    by match goal with Hh : loadHistogram _ _ _ = _ |- _ => rewrite Hh end.
  - split; [done|]. split; [done|].
    eexists _, _, _, _. repeat split; try done. right.
    by match goal with Hs : cmSketchFromStorage _ _ _ _ = _ |- _ => rewrite Hs end.
Qed.

(** A round that removes its column from the registry found the table in
    the cache and then either no such column in the table, or the column
    with a histogram that has buckets, or it loaded the column. *)
Lemma loadRound_removed col w r w' :
  loadRound col w (Ok r w') →
  col ∈ histogramNeededColumns w →
  col ∉ histogramNeededColumns w' →
  r = None ∧
  ∃ tbl0 t,
    snapshot w !! col.1 = Some tbl0 ∧ tblHeap w !! tbl0 = Some t ∧
    (Table.Columns t !! col.2 = None ∨
     ∃ c, Table.Columns t !! col.2 = Some c ∧
       (Histogram.Len (Column.Hist c) > 0 ∨
        ∃ hg cms,
          loadHistogram col.1 c (copied t w) = (Some hg, None) ∧
          cmSketchFromStorage col.1 0 col.2 (copied t w) = (cms, None))).
Proof.
  intros HR Hin Hout. inversion HR; subst; clear HR; try done.
  - split; [done|]. eexists _, _. eauto.
  - split; [done|]. eexists _, _. eauto 10.
  - split; [done|]. eexists _, _. eauto 10.
Qed.

(** The loop stops at the first round that returns an error. *)
Lemma loadColumns_error cols w e w' :
  hasSnapshot w →
  loadColumns cols w = Ok (Some e) w' →
  ∃ pre col post wmid,
    cols = pre ++ col :: post ∧
    loadColumns pre w = Ok None wmid ∧
    hasSnapshot wmid ∧
    (∀ c, c ∉ pre →
       (c ∈ histogramNeededColumns wmid ↔ c ∈ histogramNeededColumns w)) ∧
    loadColumn col wmid = Ok (Some e) w'.
Proof.
  revert w. induction cols as [|col cols IH]; intros w Hsnap Hrun.
  - done.
  - cbn [loadColumns] in Hrun. unfold bind in Hrun.
    pose proof (loadColumn_round col w Hsnap) as HR.
    destruct (loadColumn col w) as [r w1| |] eqn:Hcol; [|done..].
    destruct r as [e1|].
    + injection Hrun as <- <-.
      exists [], col, cols, w. repeat split; done.
    + destruct (loadRound_frame col w None w1 Hsnap HR) as [Hsnap1 Hkeep].
      destruct (IH w1 Hsnap1 Hrun)
        as (pre & col0 & post & wmid & -> & Hpre & Hsm & Hk & Hfail).
      exists (col :: pre), col0, post, wmid. split; [done|].
      split; [cbn [loadColumns]; unfold bind; by rewrite Hcol|].
      split; [done|]. split; [|done].
      intros c Hc. apply not_elem_of_cons in Hc as [Hne Hc].
      rewrite (Hk c Hc). by apply Hkeep.
Qed.

End lazy_loader_rounds.

Section lazy_loader_failures.
Context `{!Collaborators}.

(** A failed load stops the round: the error is returned, traced, from the
    world in which the copy of the table was made. *)
Lemma loadColumn_load_failure col w tbl0 t c err :
  hasSnapshot w →
  snapshot w !! col.1 = Some tbl0 →
  tblHeap w !! tbl0 = Some t →
  Table.Columns t !! col.2 = Some c →
  ¬ Histogram.Len (Column.Hist c) > 0 →
  loadFails col c (copied t w) err →
  loadColumn col w = Ok (Some (errors_Trace err)) (copied t w).
Proof.
  intros Hsnap Hk Ht Hc Hlen Hfail.
  pose proof (loadColumn_round col w Hsnap) as HR.
  inversion HR;
    repeat match goal with
    | H1 : ?o = Some ?x, H2 : ?o = Some ?y |- _ =>
        rewrite H1 in H2; injection H2 as <-
    | H1 : ?o = Some ?x, H2 : ?o = None |- _ => rewrite H1 in H2; discriminate
    end;
    try done;
    match goal with
    | Hh : loadHistogram _ _ _ = _ |- _ =>
        unfold loadFails in Hfail; rewrite Hh in Hfail
    end;
    try match goal with
    | Hs : cmSketchFromStorage _ _ _ _ = _ |- _ => rewrite Hs in Hfail
    end;
    cbn [fst snd] in Hfail;
    destruct Hfail as [Hfail|[Hnone Hfail]]; try discriminate;
    by injection Hfail as <-.
Qed.

(** The rounds before a failure leave the snapshot in place and touch no
    registry entry but their own. *)
Lemma loadColumns_ok_frame cols w wmid :
  hasSnapshot w →
  loadColumns cols w = Ok None wmid →
  hasSnapshot wmid ∧
  (∀ c, c ∉ cols →
     (c ∈ histogramNeededColumns wmid ↔ c ∈ histogramNeededColumns w)).
Proof.
  revert w. induction cols as [|col cols IH]; intros w Hsnap Hrun.
  - by injection Hrun as <-.
  - cbn [loadColumns] in Hrun. unfold bind in Hrun.
    pose proof (loadColumn_round col w Hsnap) as HR.
    destruct (loadColumn col w) as [r w1| |] eqn:Hcol; [|done..].
    destruct r as [e1|]; [done|].
    destruct (loadRound_frame col w None w1 Hsnap HR) as [Hsnap1 Hkeep].
    destruct (IH w1 Hsnap1 Hrun) as [Hsm Hk].
    split; [done|]. intros c Hc. apply not_elem_of_cons in Hc as [Hne Hc].
    rewrite (Hk c Hc). by apply Hkeep.
Qed.

Lemma loadColumns_app cols1 cols2 w wmid :
  loadColumns cols1 w = Ok None wmid →
  loadColumns (cols1 ++ cols2) w = loadColumns cols2 wmid.
Proof.
  revert w. induction cols1 as [|col cols1 IH]; intros w Hrun.
  - by injection Hrun as <-.
  - cbn [app loadColumns] in *. unfold bind in *.
    destruct (loadColumn col w) as [[e|] w1| |]; try done.
    by apply IH.
Qed.

End lazy_loader_failures.

(** C8, as the code has it.  In [LoadNeededHistograms], started with a
    snapshot in place:
    - a failure of the store while loading the histogram or the sketch of a
      pending column makes the round of that column return the traced error
      at once, the loop return it without looking at the columns after it,
      and so the whole call return it as soon as the columns before it were
      handled without error; the registry and the snapshot are what they
      were before that round, and that column and all the later ones are
      still registered;
    - conversely, when the call returns an error, the pending columns split
      into those handled without error, the column whose round returned the
      error, and the rest, and the error is the traced failure of the store
      while loading that column;
    - a round never touches the registry entry of another column, and it
      removes its own only when the table is in the cache and the column is
      absent from the table, or has a histogram with buckets already, or was
      loaded by this round. *)
Theorem LoadNeededHistograms_failure_and_registry `{!Collaborators} (w : World) :
  hasSnapshot w →
  (∀ col rest w0 tbl0 t c err,
     hasSnapshot w0 →
     snapshot w0 !! col.1 = Some tbl0 →
     tblHeap w0 !! tbl0 = Some t →
     Table.Columns t !! col.2 = Some c →
     ¬ Histogram.Len (Column.Hist c) > 0 →
     loadFails col c (copied t w0) err →
     loadColumn col w0 = Ok (Some (errors_Trace err)) (copied t w0) ∧
     loadColumns (col :: rest) w0 = Ok (Some (errors_Trace err)) (copied t w0) ∧
     histogramNeededColumns (copied t w0) = histogramNeededColumns w0 ∧
     snapshot (copied t w0) = snapshot w0) ∧
  (∀ pre col post wmid tbl0 t c err,
     elements (histogramNeededColumns w) = pre ++ col :: post →
     loadColumns pre w = Ok None wmid →
     snapshot wmid !! col.1 = Some tbl0 →
     tblHeap wmid !! tbl0 = Some t →
     Table.Columns t !! col.2 = Some c →
     ¬ Histogram.Len (Column.Hist c) > 0 →
     loadFails col c (copied t wmid) err →
     LoadNeededHistograms w = Ok (Some (errors_Trace err)) (copied t wmid) ∧
     (∀ c', c' ∈ col :: post → c' ∈ histogramNeededColumns (copied t wmid))) ∧
  (∀ e w', LoadNeededHistograms w = Ok (Some e) w' →
     ∃ pre col post wmid tbl0 t c err,
       elements (histogramNeededColumns w) = pre ++ col :: post ∧
       loadColumns pre w = Ok None wmid ∧
       loadColumn col wmid = Ok (Some e) w' ∧
       snapshot wmid !! col.1 = Some tbl0 ∧ tblHeap wmid !! tbl0 = Some t ∧
       Table.Columns t !! col.2 = Some c ∧
       e = errors_Trace err ∧
       ((loadHistogram col.1 c (copied t wmid)).2 = Some err ∨
        (cmSketchFromStorage col.1 0 col.2 (copied t wmid)).2 = Some err) ∧
       snapshot w' = snapshot wmid ∧
       (∀ c', c' ∈ col :: post → c' ∈ histogramNeededColumns w')) ∧
  (∀ col rest w0 e w1,
     loadColumn col w0 = Ok (Some e) w1 →
     loadColumns (col :: rest) w0 = Ok (Some e) w1) ∧
  (∀ col w0 r w1,
     hasSnapshot w0 →
     loadColumn col w0 = Ok r w1 →
     (∀ col', col' ≠ col →
        (col' ∈ histogramNeededColumns w1 ↔ col' ∈ histogramNeededColumns w0)) ∧
     (col ∈ histogramNeededColumns w0 →
      col ∉ histogramNeededColumns w1 →
      r = None ∧
      ∃ tbl0 t,
        snapshot w0 !! col.1 = Some tbl0 ∧ tblHeap w0 !! tbl0 = Some t ∧
        (Table.Columns t !! col.2 = None ∨
         ∃ c, Table.Columns t !! col.2 = Some c ∧
           (Histogram.Len (Column.Hist c) > 0 ∨
            ∃ hg cms,
              loadHistogram col.1 c (copied t w0) = (Some hg, None) ∧
              cmSketchFromStorage col.1 0 col.2 (copied t w0) = (cms, None))))).
Proof.
  intros Hsnap. split; [|split; [|split; [|split]]].
  - intros col rest w0 tbl0 t c err Hsnap0 Hk Ht Hc Hlen Hfail.
    pose proof (loadColumn_load_failure col w0 tbl0 t c err Hsnap0 Hk Ht Hc
                  Hlen Hfail) as Hcol.
    split; [exact Hcol|]. split; [|done].
    cbn [loadColumns]. unfold bind. by rewrite Hcol.
  - intros pre col post wmid tbl0 t c err Hsplit Hpre Hk Ht Hc Hlen Hfail.
    destruct (loadColumns_ok_frame pre w wmid Hsnap Hpre) as [Hsm Hkeep].
    pose proof (loadColumn_load_failure col wmid tbl0 t c err Hsm Hk Ht Hc
                  Hlen Hfail) as Hcol.
    split.
    + unfold LoadNeededHistograms, bind, allCols, query.
      rewrite Hsplit, (loadColumns_app pre (col :: post) w wmid Hpre).
      cbn [loadColumns]. unfold bind. by rewrite Hcol.
    + intros c' Hc'. change (c' ∈ histogramNeededColumns wmid). apply Hkeep.
      * pose proof (NoDup_elements (histogramNeededColumns w)) as Hnd.
        rewrite Hsplit in Hnd. apply NoDup_app in Hnd as (_ & Hdisj & _).
        intros Hin. by apply (Hdisj c').
      * apply elem_of_elements. rewrite Hsplit. apply elem_of_app. by right.
  - intros e w' Hrun. unfold LoadNeededHistograms, bind, allCols, query in Hrun.
    destruct (loadColumns_error _ w e w' Hsnap Hrun)
      as (pre & col & post & wmid & Hsplit & Hpre & Hsm & Hk & Hfail).
    pose proof (loadColumn_round col wmid Hsm) as HR. rewrite Hfail in HR.
    destruct (loadRound_error col wmid e w' HR)
      as (Hneeded & Hsnap' & tbl0 & t & c & err & H1 & H2 & H3 & H4 & H5).
    exists pre, col, post, wmid, tbl0, t, c, err.
    repeat split; try done.
    intros c' Hc'. rewrite Hneeded. apply Hk.
    + pose proof (NoDup_elements (histogramNeededColumns w)) as Hnd.
      rewrite Hsplit in Hnd. apply NoDup_app in Hnd as (_ & Hdisj & _).
      intros Hin. by apply (Hdisj c').
    + apply elem_of_elements. rewrite Hsplit. apply elem_of_app. by right.
  - intros col rest w0 e w1 Hcol. cbn [loadColumns]. unfold bind.
    by rewrite Hcol.
  - intros col w0 r w1 Hsnap0 Hcol.
    pose proof (loadColumn_round col w0 Hsnap0) as HR. rewrite Hcol in HR.
    split.
    + by apply (loadRound_frame col w0 r w1 Hsnap0 HR).
    + by apply loadRound_removed.
Qed.

(** Against C8 as stated.  A handle that has read table A, whose statistics
    have column 7 only; a query has registered column 8 of table 1.  No load
    from the store can succeed.  [LoadNeededHistograms] returns without error
    and column 8 of table 1 is no longer registered, although the cache entry
    of table 1 has no such column, before and after, and nothing was
    loaded. *)
Lemma absent_column_is_unregistered :
  let w := registered [(1, 8)] (refresh (freshHandle [rowA10])) in
  let w' := match w with
            | Some w0 => after (@LoadNeededHistograms broken) w0
            | None => None
            end in
  observe (λ w0, elements (histogramNeededColumns w0)) w = Some [(1, 8)] ∧
  observe (λ w0, is_Some (snapshot w0 !! 1)) w = Some (is_Some (Some 1%positive)) ∧
  observe (cachedColumn (1, 8)) w = Some None ∧
  (∀ tableID c w0, (@loadHistogram broken tableID c w0).1 = None) ∧
  returned (@LoadNeededHistograms broken) w = Some None ∧
  observe (λ w0, elements (histogramNeededColumns w0)) w' = Some [] ∧
  observe (cachedColumn (1, 8)) w' = Some None.
Proof.
  intros w w'.
  split; [vm_compute; reflexivity|].
  split; [vm_compute; reflexivity|].
  split; [vm_compute; reflexivity|].
  split; [reflexivity|].
  split; [vm_compute; reflexivity|].
  split; [vm_compute; reflexivity|].
  vm_compute; reflexivity.
Qed.

(** Column 7 of table 1 is registered and not loaded.  With a store that
    fails, the call returns the traced error of the histogram load and the
    column is still registered, not loaded.  With a store that answers, the
    call returns without error, the column has its bucket and is no longer
    registered; the object published before is unchanged. *)
Example load_of_a_pending_column :
  let w := registered [(1, 7)] (refresh (freshHandle [rowA10])) in
  let failed := match w with
                | Some w0 => after (@LoadNeededHistograms broken) w0
                | None => None
                end in
  let loaded := match w with
                | Some w0 => after (@LoadNeededHistograms healthy) w0
                | None => None
                end in
  observe (cachedColumn (1, 7)) w = Some (Some coldColumn) ∧
  returned (@LoadNeededHistograms broken) w
    = Some (Some (errors_Trace (Err "stats_buckets"))) ∧
  observe (λ w0, elements (histogramNeededColumns w0)) failed = Some [(1, 7)] ∧
  observe (cachedColumn (1, 7)) failed = Some (Some coldColumn) ∧
  returned (@LoadNeededHistograms healthy) w = Some None ∧
  observe (λ w0, elements (histogramNeededColumns w0)) loaded = Some [] ∧
  observe (λ w0, (λ c, Histogram.Len (Column.Hist c)) <$> cachedColumn (1, 7) w0)
    loaded = Some (Some 1) ∧
  observe (λ w0, Table.Columns <$> tblHeap w0 !! 1%positive) loaded
    = Some (Some {[ 7 := coldColumn ]}).
Proof.
  intros w failed loaded.
  split; [vm_compute; reflexivity|].
  split; [vm_compute; reflexivity|].
  split; [vm_compute; reflexivity|].
  split; [vm_compute; reflexivity|].
  split; [vm_compute; reflexivity|].
  split; [vm_compute; reflexivity|].
  split; [vm_compute; reflexivity|].
  vm_compute; reflexivity.
Qed.

(** ** GetTableStats *)

(** C6.  With a snapshot [m] in place and a [PseudoTable] that gives the
    synthesized object the ID of the table:
    - for a table that is not in the cache, [GetTableStats] returns a new
      object [p] holding the pseudo statistics and installs it with one
      [UpdateTableStats]: the snapshot becomes [m] plus the entry of the
      table, one entry larger; a second call right after returns the same
      pointer [p] and changes nothing at all;
    - for a table that is in the cache, [GetTableStats] returns the cached
      pointer and changes nothing. *)
Theorem GetTableStats_miss_then_hit `{!Collaborators}
    (tblInfo : TableInfo) (w : World) (m : gmap Z loc) :
  mapHeap w !! statsCacheRef (hdl w) = Some m →
  Table.TableID (PseudoTable tblInfo) = TableInfo_ID tblInfo →
  (m !! TableInfo_ID tblInfo = None →
   ∃ p w0 w1,
     (p ∉ dom (tblHeap w)) ∧
     newTable (PseudoTable tblInfo) w = Ok p w0 ∧
     tblHeap w0 = <[p := PseudoTable tblInfo]> (tblHeap w) ∧
     UpdateTableStats [p] [] w0 = Ok tt w1 ∧
     GetTableStats tblInfo w = Ok p w1 ∧
     tblHeap w1 !! p = Some (PseudoTable tblInfo) ∧
     snapshot w1 = <[TableInfo_ID tblInfo := p]> m ∧
     size (snapshot w1) = S (size m) ∧
     storeLog w1 = storeLog w ++ [statsCacheRef (hdl w1)] ∧
     GetTableStats tblInfo w1 = Ok p w1) ∧
  (∀ p, m !! TableInfo_ID tblInfo = Some p →
     GetTableStats tblInfo w = Ok p w).
Proof.
  intros Hm Hid. split.
  - intros Hmiss.
    set (p := fresh (dom (tblHeap w))).
    set (w0 := with_tblHeap (<[p := PseudoTable tblInfo]> (tblHeap w)) w).
    assert (Hp : tblHeap w0 !! p = Some (PseudoTable tblInfo)).
    { unfold w0. simpl. by rewrite lookup_insert_eq. }
    assert (HU : UpdateTableStats [p] [] w0 =
                 Ok tt (installed (fresh (dom (mapHeap w0)))
                          (Replace_spec (tblHeap w0) m [p] []) w0)).
    { apply UpdateTableStats_spec; [done|]. apply Forall_singleton. eauto. }
    assert (HR : Replace_spec (tblHeap w0) m [p] [] =
                 <[TableInfo_ID tblInfo := p]> m).
    { unfold Replace_spec, applyRemovals, applyUpdates. cbn [foldl].
      by rewrite Hp, Hid. }
    rewrite HR in HU.
    eexists p, w0, _. split; [apply is_fresh|]. split; [done|]. split; [done|].
    split; [exact HU|].
    assert (HG : GetTableStats tblInfo w =
                 Ok p (installed (fresh (dom (mapHeap w0)))
                         (<[TableInfo_ID tblInfo := p]> m) w0)).
    { unfold GetTableStats. unfold bind at 1. unfold statsCache_Load at 1.
      rewrite Hm, Hmiss. unfold bind at 1. unfold newTable at 1.
      fold p. fold w0. unfold bind. by rewrite HU. }
    split; [exact HG|]. split; [done|].
    rewrite snapshot_installed. split; [done|].
    split; [by apply map_size_insert_None|]. split; [done|].
    unfold GetTableStats. unfold bind at 1. unfold statsCache_Load at 1.
    unfold installed at 1 2. simpl. rewrite lookup_insert_eq.
    by rewrite lookup_insert_eq.
  - intros p Hhit. unfold GetTableStats, bind, statsCache_Load.
    by rewrite Hm, Hhit.
Qed.

(** ** Clear *)

Lemma discardAll_nil {A} (ch : list A) : discardAll ch = [].
Proof. by induction ch. Qed.

(** C9, as the code has it.  [Clear] always returns, and afterwards the
    snapshot is a new empty map, both watermarks are zero, the queue of
    schema-change events and the queue of analyze results are empty, the
    per-table deltas, the error-rate map and the first collector are empty,
    and the chunk size of the session is 1. *)
Theorem Clear_resets_cache_versions_and_two_queues (w : World) :
  ∃ w', Clear w = Ok tt w' ∧
    snapshot w' = ∅ ∧
    (statsCacheRef (hdl w') ∉ dom (mapHeap w)) ∧
    LastVersion (hdl w') = 0 ∧
    PrevLastVersion (hdl w') = 0 ∧
    ddlEventCh (hdl w') = [] ∧
    analyzeResultCh (hdl w') = [] ∧
    globalMap (hdl w') = ∅ ∧
    rateMap (hdl w') = ∅ ∧
    listHead (hdl w') = emptyCollector ∧
    MaxChunkSize w' = 1.
Proof.
  eexists. split; [reflexivity|]. cbn.
  unfold snapshot. cbn. rewrite lookup_insert_eq, !discardAll_nil.
  repeat split. apply is_fresh.
Qed.

(** Against C9 as stated. [Clear] on a handle with one load notification and
    one feedback record waiting: the queue of the load notifications still has
    its element, and so has the feedback. *)
Lemma Clear_leaves_load_queue_and_feedback :
  let w' := after Clear busyWorld in
  loadMetaCh (hdl busyWorld) = [Build_LoadMeta 1] ∧
  feedback (hdl busyWorld) = [Build_QueryFeedback 1 42] ∧
  observe (λ w, loadMetaCh (hdl w)) w' = Some [Build_LoadMeta 1] ∧
  observe (λ w, feedback (hdl w)) w' = Some [Build_QueryFeedback 1 42] ∧
  observe (λ w, length (loadMetaCh (hdl w))) w' ≠ Some 0%nat.
Proof.
  intros w'.
  split; [vm_compute; reflexivity|].
  split; [vm_compute; reflexivity|].
  split; [vm_compute; reflexivity|].
  split; [vm_compute; reflexivity|].
  vm_compute. discriminate.
Qed.

(** ** FlushStats *)

Section flush.
Context `{!Collaborators}.
Hypothesis HandleDDLEvent_keeps : ∀ e, keepsQueues (HandleDDLEvent e).
Hypothesis DumpStatsDeltaToKV_keeps : ∀ mode, keepsQueues (DumpStatsDeltaToKV mode).
Hypothesis SaveStatsToStorage_keeps :
  ∀ tableID count isIndex hg cms isAnalyzed,
    keepsQueues (SaveStatsToStorage tableID count isIndex hg cms isAnalyzed).
Hypothesis DumpStatsFeedbackToKV_keeps : keepsQueues DumpStatsFeedbackToKV.

Lemma call_keeps f w :
  keepsQueues f → ∃ err w', call f w = Ok err w' ∧ queues w' = queues w.
Proof. intros Hf. eexists _, _. split; [reflexivity|]. apply Hf. Qed.

Lemma logIfError_keeps mk err w :
  ∃ w', logIfError mk err w = Ok tt w' ∧ queues w' = queues w.
Proof. destruct err; eexists; (split; [reflexivity|done]). Qed.

(** A failed call is logged and the computation goes on. *)
Lemma call_then_log f mk w :
  keepsQueues f →
  ∃ w', (do err <- call f; logIfError mk err) w = Ok tt w' ∧
        queues w' = queues w.
Proof.
  intros Hf. destruct (call_keeps f w Hf) as (err & w1 & Hc & Hq1).
  destruct (logIfError_keeps mk err w1) as (w2 & Hl & Hq2).
  exists w2. split; [|congruence].
  unfold bind. by rewrite Hc.
Qed.

Lemma drainDDLEvents_empties fuel w :
  (length (ddlEventCh (hdl w)) ≤ fuel)%nat →
  ∃ w', drainDDLEvents fuel w = Ok tt w' ∧
    ddlEventCh (hdl w') = [] ∧
    analyzeResultCh (hdl w') = analyzeResultCh (hdl w) ∧
    loadMetaCh (hdl w') = loadMetaCh (hdl w).
Proof.
  revert w. induction fuel as [|fuel IH]; intros w Hlen.
  - destruct (ddlEventCh (hdl w)) as [|e ch'] eqn:Hch; [|simpl in Hlen; lia].
    exists w. simpl. by rewrite Hch.
  - destruct (ddlEventCh (hdl w)) as [|e ch'] eqn:Hch.
    { exists w. simpl. by rewrite Hch. }
    cbn [drainDDLEvents]. rewrite Hch.
    unfold bind at 1. unfold modify at 1.
    set (w0 := with_hdl (with_ddlEventCh ch') w).
    destruct (call_keeps (HandleDDLEvent e) w0) as (err & w1 & Hc & Hq1);
      [done|].
    unfold bind at 1. rewrite Hc.
    destruct (logIfError_keeps LogHandleDDLEvent err w1) as (w2 & Hl & Hq2).
    unfold bind at 1. rewrite Hl.
    assert (Hq : queues w2 = queues w0) by congruence.
    unfold queues in Hq. simpl in Hq. injection Hq as Hq_d Hq_a Hq_l.
    destruct (IH w2) as (w' & Hrun & Hd & Ha & Hm).
    { rewrite Hq_d. simpl in Hlen. lia. }
    exists w'. split; [done|]. split; [done|]. split; congruence.
Qed.

Lemma saveHistograms_keeps t i hists w :
  (i + length hists ≤ length (AnalyzeResult.Cms t))%nat →
  ∃ w', saveHistograms t i hists w = Ok tt w' ∧ queues w' = queues w.
Proof.
  revert i w. induction hists as [|hg hists IH]; intros i w Hlen.
  - by exists w.
  - cbn [saveHistograms].
    destruct (lookup_lt_is_Some_2 (AnalyzeResult.Cms t) i) as [cms Hcms].
    { simpl in Hlen. lia. }
    rewrite Hcms.
    destruct (call_keeps (SaveStatsToStorage (AnalyzeResult.TableID t)
                (AnalyzeResult.Count t) (AnalyzeResult.IsIndex t) hg cms 1) w)
      as (err & w1 & Hc & Hq1); [done|].
    unfold bind at 1. rewrite Hc.
    destruct (logIfError_keeps LogSaveHistogram err w1) as (w2 & Hl & Hq2).
    unfold bind at 1. rewrite Hl.
    destruct (IH (S i) w2) as (w' & Hrun & Hq); [simpl in Hlen; lia|].
    exists w'. split; [done|]. congruence.
Qed.

Lemma drainAnalyzeResults_empties fuel w :
  Forall sketchesCoverHistograms (analyzeResultCh (hdl w)) →
  (length (analyzeResultCh (hdl w)) ≤ fuel)%nat →
  ∃ w', drainAnalyzeResults fuel w = Ok tt w' ∧
    analyzeResultCh (hdl w') = [] ∧
    ddlEventCh (hdl w') = ddlEventCh (hdl w) ∧
    loadMetaCh (hdl w') = loadMetaCh (hdl w).
Proof.
  revert w. induction fuel as [|fuel IH]; intros w Hcover Hlen.
  - destruct (analyzeResultCh (hdl w)) as [|t ch'] eqn:Hch;
      [|simpl in Hlen; lia].
    exists w. simpl. by rewrite Hch.
  - destruct (analyzeResultCh (hdl w)) as [|t ch'] eqn:Hch.
    { exists w. simpl. by rewrite Hch. }
    apply Forall_cons in Hcover as [Ht Hcover].
    cbn [drainAnalyzeResults]. rewrite Hch.
    unfold bind at 1. unfold modify at 1.
    set (w0 := with_hdl (with_analyzeResultCh ch') w).
    destruct (saveHistograms_keeps t 0 (AnalyzeResult.Hist t) w0)
      as (w1 & Hs & Hq); [exact Ht|].
    unfold bind at 1. rewrite Hs.
    unfold queues in Hq. simpl in Hq. injection Hq as Hq_d Hq_a Hq_l.
    destruct (IH w1) as (w' & Hrun & Ha & Hd & Hm).
    { by rewrite Hq_a. }
    { rewrite Hq_a. simpl in Hlen. lia. }
    exists w'. split; [done|]. split; [done|]. split; congruence.
Qed.

Lemma FlushStats_drains fuel w :
  Forall sketchesCoverHistograms (analyzeResultCh (hdl w)) →
  (length (ddlEventCh (hdl w)) ≤ fuel)%nat →
  (length (analyzeResultCh (hdl w)) ≤ fuel)%nat →
  ∃ w', FlushStats fuel w = Ok tt w' ∧
    ddlEventCh (hdl w') = [] ∧
    analyzeResultCh (hdl w') = [] ∧
    loadMetaCh (hdl w') = loadMetaCh (hdl w).
Proof.
  intros Hcover Hlen_d Hlen_a. unfold FlushStats.
  destruct (drainDDLEvents_empties fuel w Hlen_d) as (w1 & H1 & Hd1 & Ha1 & Hm1).
  unfold bind at 1. rewrite H1.
  destruct (call_keeps (DumpStatsDeltaToKV DumpAll) w1)
    as (err1 & w2 & H2 & Hq2); [done|].
  unfold bind at 1. rewrite H2.
  destruct (logIfError_keeps LogDumpStatsDelta err1 w2) as (w3 & H3 & Hq3).
  unfold bind at 1. rewrite H3.
  assert (Hq : queues w3 = queues w1) by congruence.
  unfold queues in Hq. injection Hq as Hq_d Hq_a Hq_l.
  destruct (drainAnalyzeResults_empties fuel w3)
    as (w4 & H4 & Ha4 & Hd4 & Hm4).
  { by rewrite Hq_a, Ha1. }
  { by rewrite Hq_a, Ha1. }
  unfold bind at 1. rewrite H4.
  destruct (call_then_log DumpStatsFeedbackToKV LogDumpStatsFeedback w4)
    as (w5 & H5 & Hq5); [done|].
  exists w5. split; [exact H5|].
  unfold queues in Hq5. injection Hq5 as Hq5_d Hq5_a Hq5_l.
  split; [congruence|]. split; congruence.
Qed.

End flush.

(** A failed handler is logged and the draining goes on with the rest of
    the queue. *)
Lemma drainDDLEvents_round `{!Collaborators} fuel w e ch' :
  ddlEventCh (hdl w) = e :: ch' →
  drainDDLEvents (S fuel) w =
  drainDDLEvents fuel
    (logged LogHandleDDLEvent
       (HandleDDLEvent e (with_hdl (with_ddlEventCh ch') w))).
Proof.
  intros Hch. cbn [drainDDLEvents]. rewrite Hch.
  unfold bind, modify, call, logged, logIfError.
  by destruct (HandleDDLEvent e _) as [w1 [err|]].
Qed.

(** A failed save is logged and the next histogram is saved. *)
Lemma saveHistograms_round `{!Collaborators} t i hg hists cms w :
  AnalyzeResult.Cms t !! i = Some cms →
  saveHistograms t i (hg :: hists) w =
  saveHistograms t (S i) hists
    (logged LogSaveHistogram
       (SaveStatsToStorage (AnalyzeResult.TableID t) (AnalyzeResult.Count t)
          (AnalyzeResult.IsIndex t) hg cms 1 w)).
Proof.
  intros Hcms. cbn [saveHistograms]. rewrite Hcms.
  unfold bind, call, logged, logIfError.
  by destruct (SaveStatsToStorage _ _ _ _ _ _ _) as [w1 [err|]].
Qed.

(** C7, as the code has it.  With collaborators that leave the queues
    alone, and analyze results that carry a sketch slot for each histogram:
    [FlushStats] returns (as soon as the fuel covers the two queues),
    whichever of the calls to the store fail, and afterwards the queue of
    schema-change events and the queue of analyze results are empty, the
    failed items included, while the queue of load notifications is what it
    was before.  A handler or a save that fails is logged, and the loop goes
    on with the next event or histogram. *)
Theorem FlushStats_drains_events_and_results `{!Collaborators}
    (fuel : nat) (w : World) :
  (∀ e, keepsQueues (HandleDDLEvent e)) →
  (∀ mode, keepsQueues (DumpStatsDeltaToKV mode)) →
  (∀ tableID count isIndex hg cms isAnalyzed,
     keepsQueues (SaveStatsToStorage tableID count isIndex hg cms isAnalyzed)) →
  keepsQueues DumpStatsFeedbackToKV →
  Forall sketchesCoverHistograms (analyzeResultCh (hdl w)) →
  (length (ddlEventCh (hdl w)) ≤ fuel)%nat →
  (length (analyzeResultCh (hdl w)) ≤ fuel)%nat →
  (∃ w', FlushStats fuel w = Ok tt w' ∧
     ddlEventCh (hdl w') = [] ∧
     analyzeResultCh (hdl w') = [] ∧
     loadMetaCh (hdl w') = loadMetaCh (hdl w)) ∧
  (∀ fuel' w0 e ch',
     ddlEventCh (hdl w0) = e :: ch' →
     drainDDLEvents (S fuel') w0 =
     drainDDLEvents fuel'
       (logged LogHandleDDLEvent
          (HandleDDLEvent e (with_hdl (with_ddlEventCh ch') w0)))) ∧
  (∀ t i hg hists cms w0,
     AnalyzeResult.Cms t !! i = Some cms →
     saveHistograms t i (hg :: hists) w0 =
     saveHistograms t (S i) hists
       (logged LogSaveHistogram
          (SaveStatsToStorage (AnalyzeResult.TableID t) (AnalyzeResult.Count t)
             (AnalyzeResult.IsIndex t) hg cms 1 w0))).
Proof.
  intros. split; [by apply FlushStats_drains|].
  split; [apply @drainDDLEvents_round|apply @saveHistograms_round].
Qed.

(** Against C7 as stated. [FlushStats] with a healthy store, on a handle with
    two events, one analyze result and one load notification waiting: it
    returns, nothing is logged, the first two queues are empty and the queue
    of load notifications still has its element. With a broken store the call
    returns as well, the six failures are logged, and the two queues are empty
    although nothing was persisted. *)
Lemma FlushStats_leaves_load_queue :
  let w' := after (@FlushStats healthy 2) busyWorld in
  let w'' := after (@FlushStats broken 2) busyWorld in
  returned (@FlushStats healthy 2) (Some busyWorld) = Some tt ∧
  observe logs w' = Some [] ∧
  observe (λ w, length (ddlEventCh (hdl w))) w' = Some 0%nat ∧
  observe (λ w, length (analyzeResultCh (hdl w))) w' = Some 0%nat ∧
  observe (λ w, length (loadMetaCh (hdl w))) w' = Some 1%nat ∧
  observe logs w'' =
    Some [LogHandleDDLEvent (Err "ddl"); LogHandleDDLEvent (Err "ddl");
          LogDumpStatsDelta (Err "delta");
          LogSaveHistogram (Err "save"); LogSaveHistogram (Err "save");
          LogDumpStatsFeedback (Err "feedback")] ∧
  observe (λ w, (length (ddlEventCh (hdl w)), length (analyzeResultCh (hdl w)))) w''
    = Some (0%nat, 0%nat).
Proof.
  intros w' w''.
  split; [vm_compute; reflexivity|].
  split; [vm_compute; reflexivity|].
  split; [vm_compute; reflexivity|].
  split; [vm_compute; reflexivity|].
  split; [vm_compute; reflexivity|].
  split; [vm_compute; reflexivity|].
  vm_compute; reflexivity.
Qed.

(** ** The properties at concrete handles *)

Ltac evaluated :=
  first
    [ reflexivity
    | vm_compute; reflexivity
    | vm_compute; eexists; reflexivity
    | vm_compute; congruence
    | intros; reflexivity ].

(** Every row of a given list satisfies a property that can be computed. *)
Ltac every_row :=
  let row := fresh "row" in
  let Hin := fresh "Hin" in
  intros row Hin; vm_compute in Hin;
  repeat (apply elem_of_cons in Hin as [->|Hin]; [vm_compute; congruence|]);
  by apply elem_of_nil in Hin.

Definition outage : Storage :=
  {| stats_meta := [rowA10]; sql_failure := Some (Err "timeout") |}.

Lemma Update_query_error_keeps_state_witness :
  sql_failure (storage (with_storage outage busyWorld)) = Some (Err "timeout") ∧
  ∃ w', @Update healthy catalogAB (with_storage outage busyWorld)
          = Ok (Some (errors_Trace (Err "timeout"))) w' ∧
    w' = with_storage outage busyWorld ∧
    LastVersion (hdl w') = LastVersion (hdl (with_storage outage busyWorld)) ∧
    PrevLastVersion (hdl w') = PrevLastVersion (hdl (with_storage outage busyWorld)) ∧
    statsCacheRef (hdl w') = statsCacheRef (hdl (with_storage outage busyWorld)) ∧
    snapshot w' = snapshot (with_storage outage busyWorld) ∧
    storeLog w' = storeLog (with_storage outage busyWorld).
Proof.
  split; [evaluated|].
  apply (@Update_query_error_keeps_state healthy). evaluated.
Defined.

Definition exampleCatalog : InfoSchema := {[ 1 := tableA ]}.
Definition exampleWorld : World := theWorld (freshHandle [exampleRow]).

Lemma Update_single_meta_row_witness :
  hasSnapshot exampleWorld ∧
  refreshBatch exampleWorld = [exampleRow] ∧
  TableByID exampleCatalog 1 = Some tableA ∧
  ∃ w' p t',
    @Update healthy exampleCatalog exampleWorld = Ok None w' ∧
    snapshot w' !! 1 = Some p ∧
    tblHeap w' !! p = Some t' ∧
    Table.TableID t' = 1 ∧
    Table.Version t' = 5 ∧
    Table.Count t' = 100 ∧
    Table.ModifyCount t' = 3 ∧
    PrevLastVersion (hdl w') = LastVersion (hdl exampleWorld) ∧
    LastVersion (hdl w') = 5.
Proof.
  split; [evaluated|]. split; [evaluated|]. split; [evaluated|].
  apply (@Update_single_meta_row healthy exampleCatalog exampleWorld tableA
           (coldStats tableA)); evaluated.
Defined.

(** The store holds A and B but does not answer. *)
Definition outageAB : Storage :=
  {| stats_meta := [rowA10; rowB12]; sql_failure := Some (Err "timeout") |}.

(** Three cycles: the rows A and B are read, the store fails once, and the
    same rows are read again. *)
Definition threeCycles : list (InfoSchema * Storage) :=
  [ (catalogAB, metaStore [rowA10; rowB12]);
    (catalogAB, outageAB);
    (catalogAB, metaStore [rowA10; rowB12]) ].

Definition newWorld : World := theWorld (freshHandle []).

Lemma keepsVersions_same_rows st st' :
  stats_meta st ⊆ stats_meta st' → keepsVersions st st'.
Proof. intros Hsub row Hin. exists row. split; [by apply Hsub|lia]. Qed.

Lemma watermarks_nondecreasing_when_store_keeps_versions_witness :
  hasSnapshot newWorld ∧
  PrevLastVersion (hdl newWorld) ≤ LastVersion (hdl newWorld) ∧
  currentCovered newWorld ∧
  storeKeepsVersions (storage newWorld) threeCycles ∧
  length (@refreshCycles healthy threeCycles newWorld) = length threeCycles ∧
  stepwise watermarksStep newWorld (@refreshCycles healthy threeCycles newWorld) ∧
  watermarks <$> @refreshCycles healthy threeCycles newWorld
    = [(12, 0); (12, 0); (12, 12)].
Proof.
  assert (H1 : hasSnapshot newWorld) by evaluated.
  assert (H2 : PrevLastVersion (hdl newWorld) ≤ LastVersion (hdl newWorld))
    by evaluated.
  assert (H3 : currentCovered newWorld) by (left; evaluated).
  assert (H4 : storeKeepsVersions (storage newWorld) threeCycles).
  { split; [|split; [|split; [|exact I]]].
    - apply keepsVersions_same_rows. intros row Hin. vm_compute in Hin.
      by apply elem_of_nil in Hin.
    - apply keepsVersions_same_rows. intros row Hin. exact Hin.
    - apply keepsVersions_same_rows. intros row Hin. exact Hin. }
  split; [exact H1|]. split; [exact H2|]. split; [exact H3|]. split; [exact H4|].
  destruct (@watermarks_nondecreasing_when_store_keeps_versions healthy
              threeCycles newWorld H1 H2 H3 H4) as (Hlen & Hsteps & _ & _).
  split; [exact Hlen|]. split; [exact Hsteps|]. evaluated.
Defined.

Definition readAB : World := theWorld (refresh (freshHandle [rowA10; rowB12])).

Lemma Update_twice_without_new_rows_witness :
  hasSnapshot readAB ∧
  sql_failure (storage readAB) = None ∧
  (∀ row, row ∈ stats_meta (storage readAB) →
          row_version row ≤ LastVersion (hdl readAB)) ∧
  (∃ row, row ∈ stats_meta (storage readAB) ∧
          row_version row = LastVersion (hdl readAB)) ∧
  ∃ w1 w2,
    @Update healthy catalogAB readAB = Ok None w1 ∧
    @Update healthy exampleCatalog w1 = Ok None w2 ∧
    snapshot w2 = snapshot w1 ∧
    tblHeap w2 = tblHeap w1 ∧
    LastVersion (hdl w2) = LastVersion (hdl w1) ∧
    PrevLastVersion (hdl w2) = PrevLastVersion (hdl w1).
Proof.
  assert (H1 : hasSnapshot readAB) by evaluated.
  assert (H2 : sql_failure (storage readAB) = None) by evaluated.
  assert (H3 : ∀ row, row ∈ stats_meta (storage readAB) →
                      row_version row ≤ LastVersion (hdl readAB)) by every_row.
  assert (H4 : ∃ row, row ∈ stats_meta (storage readAB) ∧
                      row_version row = LastVersion (hdl readAB)).
  { exists rowB12. split; [|evaluated]. vm_compute. right. left. }
  split; [exact H1|]. split; [exact H2|]. split; [exact H3|]. split; [exact H4|].
  exact (@Update_twice_without_new_rows healthy catalogAB exampleCatalog readAB
           H1 H2 H3 (or_introl H4)).
Defined.

Lemma Update_reads_above_previous_watermark_witness :
  hasSnapshot newWorld ∧
  LastVersion (hdl newWorld) < 10 ∧
  lastVersionOf (refreshBatch (with_storage (metaStore [rowB12]) newWorld))
    (LastVersion (hdl newWorld)) = 12 ∧
  rowA10 ∈ stats_meta (metaStore [rowB12; rowA10]) ∧
  ∃ w1, @Update healthy catalogAB (with_storage (metaStore [rowB12]) newWorld)
          = Ok None w1 ∧
    LastVersion (hdl w1) = 12 ∧
    rowA10 ∈ refreshBatch (with_storage (metaStore [rowB12; rowA10]) w1).
Proof.
  assert (H1 : hasSnapshot newWorld) by evaluated.
  assert (H2 : LastVersion (hdl newWorld) < 10) by evaluated.
  assert (H3 : lastVersionOf
                 (refreshBatch (with_storage (metaStore [rowB12]) newWorld))
                 (LastVersion (hdl newWorld)) = 12) by evaluated.
  assert (H4 : rowA10 ∈ stats_meta (metaStore [rowB12; rowA10])).
  { simpl. right. left. }
  split; [exact H1|]. split; [exact H2|]. split; [exact H3|]. split; [exact H4|].
  exact (proj2 (proj2 (proj2
    (@Update_reads_above_previous_watermark healthy catalogAB newWorld
       (metaStore [rowB12]) (metaStore [rowB12; rowA10]) rowA10
       H1 eq_refl H2 H3 eq_refl H4)))).
Defined.

Lemma UpdateTableStats_copy_on_write_witness :
  mapHeap readAB !! statsCacheRef (hdl readAB) = Some (snapshot readAB) ∧
  Forall (λ p, is_Some (tblHeap readAB !! p)) [2%positive; 1%positive] ∧
  ∃ (r : loc) (w' : World),
    (r ∉ dom (mapHeap readAB)) ∧
    UpdateTableStats [2%positive; 1%positive] [2; 5] readAB = Ok tt w' ∧
    w' = installed r (Replace_spec (tblHeap readAB) (snapshot readAB)
                        [2%positive; 1%positive] [2; 5]) readAB ∧
    snapshot w' =
      applyRemovals (applyUpdates (tblHeap readAB) (snapshot readAB)
                       [2%positive; 1%positive]) [2; 5] ∧
    (∀ id, id ∈ [2; 5] → snapshot w' !! id = None) ∧
    storeLog w' = storeLog readAB ++ [r] ∧
    statsCacheRef (hdl w') = r ∧
    mapHeap w' !! statsCacheRef (hdl readAB) = Some (snapshot readAB) ∧
    (∀ r0 m0, mapHeap readAB !! r0 = Some m0 → mapHeap w' !! r0 = Some m0).
Proof.
  assert (H1 : mapHeap readAB !! statsCacheRef (hdl readAB)
               = Some (snapshot readAB)) by evaluated.
  assert (H2 : Forall (λ p, is_Some (tblHeap readAB !! p))
                 [2%positive; 1%positive]).
  { repeat constructor; evaluated. }
  split; [exact H1|]. split; [exact H2|].
  exact (UpdateTableStats_copy_on_write readAB (snapshot readAB)
           [2%positive; 1%positive] [2; 5] H1 H2).
Defined.

Lemma GetTableStats_miss_then_hit_witness :
  mapHeap newWorld !! statsCacheRef (hdl newWorld) = Some ∅ ∧
  Table.TableID (@PseudoTable healthy tableA) = TableInfo_ID tableA ∧
  (∅ : gmap Z loc) !! TableInfo_ID tableA = None ∧
  ∃ p w1,
    @GetTableStats healthy tableA newWorld = Ok p w1 ∧
    tblHeap w1 !! p = Some (@PseudoTable healthy tableA) ∧
    snapshot w1 = {[ TableInfo_ID tableA := p ]} ∧
    @GetTableStats healthy tableA w1 = Ok p w1.
Proof.
  assert (H1 : mapHeap newWorld !! statsCacheRef (hdl newWorld) = Some ∅)
    by evaluated.
  assert (H2 : Table.TableID (@PseudoTable healthy tableA) = TableInfo_ID tableA)
    by evaluated.
  assert (H3 : (∅ : gmap Z loc) !! TableInfo_ID tableA = None) by evaluated.
  split; [exact H1|]. split; [exact H2|]. split; [exact H3|].
  destruct (proj1 (@GetTableStats_miss_then_hit healthy tableA newWorld ∅ H1 H2) H3)
    as (p & w0 & w1 & _ & _ & _ & _ & HG & Hp & Hs & _ & _ & HG2).
  exists p, w1. split; [exact HG|]. split; [exact Hp|]. split; [exact Hs|].
  exact HG2.
Defined.

Lemma FlushStats_drains_events_and_results_witness :
  (∀ e, keepsQueues (@HandleDDLEvent broken e)) ∧
  Forall sketchesCoverHistograms (analyzeResultCh (hdl busyWorld)) ∧
  (length (ddlEventCh (hdl busyWorld)) ≤ 2)%nat ∧
  (length (analyzeResultCh (hdl busyWorld)) ≤ 2)%nat ∧
  ∃ w', @FlushStats broken 2 busyWorld = Ok tt w' ∧
    ddlEventCh (hdl w') = [] ∧
    analyzeResultCh (hdl w') = [] ∧
    loadMetaCh (hdl w') = loadMetaCh (hdl busyWorld).
Proof.
  assert (H1 : ∀ e, keepsQueues (@HandleDDLEvent broken e)) by evaluated.
  assert (H2 : Forall sketchesCoverHistograms (analyzeResultCh (hdl busyWorld))).
  { vm_compute. repeat constructor. }
  assert (H3 : (length (ddlEventCh (hdl busyWorld)) ≤ 2)%nat).
  { vm_compute. repeat constructor. }
  assert (H4 : (length (analyzeResultCh (hdl busyWorld)) ≤ 2)%nat).
  { vm_compute. repeat constructor. }
  split; [exact H1|]. split; [exact H2|]. split; [exact H3|]. split; [exact H4|].
  refine (proj1 (@FlushStats_drains_events_and_results broken 2 busyWorld H1
                   _ _ _ H2 H3 H4));
    evaluated.
Defined.

(** A handle that has read table A and on which queries have asked for
    column 7 of table 1 and column 1 of table 9. *)
Definition pendingWorld : World :=
  theWorld (registered [(1, 7); (9, 1)] (refresh (freshHandle [rowA10]))).

(** The table object a refresh has cached for table A at version 10. *)
Definition pendingTable : Table.t :=
  Table.mk 1 10 7 0 false {[ 7 := coldColumn ]}.

Lemma LoadNeededHistograms_failure_and_registry_witness :
  hasSnapshot pendingWorld ∧
  elements (histogramNeededColumns pendingWorld) = [] ++ (1, 7) :: [(9, 1)] ∧
  @loadColumns broken [] pendingWorld = Ok None pendingWorld ∧
  @loadColumns sketchless [] pendingWorld = Ok None pendingWorld ∧
  snapshot pendingWorld !! 1 = Some 1%positive ∧
  tblHeap pendingWorld !! 1%positive = Some pendingTable ∧
  Table.Columns pendingTable !! 7 = Some coldColumn ∧
  ¬ Histogram.Len (Column.Hist coldColumn) > 0 ∧
  @loadFails broken (1, 7) coldColumn (copied pendingTable pendingWorld)
    (Err "stats_buckets") ∧
  @loadFails sketchless (1, 7) coldColumn (copied pendingTable pendingWorld)
    (Err "cm_sketch") ∧
  @LoadNeededHistograms broken pendingWorld
    = Ok (Some (errors_Trace (Err "stats_buckets")))
        (copied pendingTable pendingWorld) ∧
  @LoadNeededHistograms sketchless pendingWorld
    = Ok (Some (errors_Trace (Err "cm_sketch")))
        (copied pendingTable pendingWorld) ∧
  (1, 7) ∈ histogramNeededColumns (copied pendingTable pendingWorld) ∧
  (9, 1) ∈ histogramNeededColumns (copied pendingTable pendingWorld).
Proof.
  assert (H1 : hasSnapshot pendingWorld) by evaluated.
  assert (H2 : elements (histogramNeededColumns pendingWorld)
               = [] ++ (1, 7) :: [(9, 1)]) by evaluated.
  assert (H3 : snapshot pendingWorld !! 1 = Some 1%positive) by evaluated.
  assert (H4 : tblHeap pendingWorld !! 1%positive = Some pendingTable)
    by evaluated.
  assert (H5 : Table.Columns pendingTable !! 7 = Some coldColumn) by evaluated.
  assert (H6 : ¬ Histogram.Len (Column.Hist coldColumn) > 0).
  { vm_compute. discriminate. }
  assert (H7 : @loadFails broken (1, 7) coldColumn
                 (copied pendingTable pendingWorld) (Err "stats_buckets")).
  { left. reflexivity. }
  assert (H8 : @loadFails sketchless (1, 7) coldColumn
                 (copied pendingTable pendingWorld) (Err "cm_sketch")).
  { right. split; reflexivity. }
  pose proof (proj1 (proj2
    (@LoadNeededHistograms_failure_and_registry broken pendingWorld H1))
    [] (1, 7) [(9, 1)] pendingWorld 1%positive pendingTable coldColumn
    (Err "stats_buckets") H2 eq_refl H3 H4 H5 H6 H7) as [Hb Hkeep].
  pose proof (proj1 (proj1 (proj2
    (@LoadNeededHistograms_failure_and_registry sketchless pendingWorld H1))
    [] (1, 7) [(9, 1)] pendingWorld 1%positive pendingTable coldColumn
    (Err "cm_sketch") H2 eq_refl H3 H4 H5 H6 H8)) as Hs.
  split; [exact H1|]. split; [exact H2|].
  split; [reflexivity|]. split; [reflexivity|].
  repeat (split; [assumption|]).
  split; apply Hkeep.
  - apply elem_of_cons. by left.
  - apply elem_of_cons. right. apply elem_of_cons. by left.
Defined.

(** * Further properties of the handle *)

(** ** NewHandle and the shape of the handle *)

Lemma wellFormed_hasSnapshot w : wellFormed w → hasSnapshot w.
Proof. by intros [? _]. Qed.

(** X1.  [NewHandle] returns in every world, and the handle it makes has an
    empty snapshot in a new map object, both watermarks at zero, the three
    queues, the feedback and the delta maps empty, and the given lease; the
    map objects and table objects that existed before are untouched. *)
Theorem NewHandle_initial_state (lease : Z) (w : World) :
  ∃ w', NewHandle lease w = Ok tt w' ∧
    wellFormed w' ∧
    snapshot w' = ∅ ∧
    (statsCacheRef (hdl w') ∉ dom (mapHeap w)) ∧
    watermarks w' = (0, 0) ∧
    queues w' = ([], [], []) ∧
    feedback (hdl w') = [] ∧
    globalMap (hdl w') = ∅ ∧ rateMap (hdl w') = ∅ ∧
    listHead (hdl w') = emptyCollector ∧
    Lease (hdl w') = lease ∧
    tblHeap w' = tblHeap w ∧
    (∀ r0 m0, mapHeap w !! r0 = Some m0 → mapHeap w' !! r0 = Some m0).
Proof.
  eexists. split; [reflexivity|]. cbn.
  assert (Hs : snapshot
    (with_storeLog (storeLog w ++ [fresh (dom (mapHeap w))])
       (with_hdl (with_statsCacheRef (fresh (dom (mapHeap w))))
          (with_mapHeap (<[fresh (dom (mapHeap w)) := ∅]> (mapHeap w))
             (with_hdl (λ h, mkHandle 0 0 (statsCacheRef h) [] []
                emptyCollector ∅ ∅ [] lease []) w)))) = ∅).
  { unfold snapshot. cbn. by rewrite lookup_insert_eq. }
  split.
  { split.
    - unfold hasSnapshot. cbn. rewrite lookup_insert_eq. eauto.
    - intros id p. rewrite Hs. by rewrite lookup_empty. }
  split; [exact Hs|]. split; [apply is_fresh|].
  repeat split.
  intros r0 m0 H0. rewrite lookup_insert_ne; [done|].
  intros <-. pose proof (is_fresh (dom (mapHeap w))) as Hf.
  apply Hf, elem_of_dom. eauto.
Qed.

(** ** What a refresh cycle does with each row *)

Section row_fates.
Context `{!Collaborators}.

(** The body of the loop, by the fate of the row. *)
Lemma updateRow_fate is_ row tables deletedTableIDs w :
  updateRow is_ row tables deletedTableIDs w =
  match rowFate is_ row w with
  | Dropped =>
      Ok (tables, deletedTableIDs ++ [row_table_id row])
         (log_Debug (LogUnknownTable (row_table_id row)) (atRow row w))
  | Skipped err =>
      Ok (tables, deletedTableIDs)
         (log_Debug
            (LogReadTableStats
               (from_option TableInfo_Name "" (TableByID is_ (row_table_id row)))
               err)
            (atRow row w))
  | Vanished => Ok (tables, deletedTableIDs ++ [row_table_id row]) (atRow row w)
  | Rebuilt t =>
      Ok (tables ++ [fresh (dom (tblHeap w))], deletedTableIDs)
         (with_tblHeap (<[fresh (dom (tblHeap w)) := stamped row t]> (tblHeap w))
            (atRow row w))
  end.
Proof.
  unfold rowFate, atRow.
  destruct (TableByID is_ (row_table_id row)) as [tableInfo|] eqn:Hcat.
  - destruct (tableStatsFromStorage tableInfo false
                (with_hdl (with_LastVersion (row_version row)) w))
      as [ot oe] eqn:Hst.
    destruct ot as [t|], oe as [err|].
    + unfold updateRow. rewrite Hcat.
      unfold bind, modify, query, ret. rewrite Hst. reflexivity.
    + by apply (updateRow_rebuilt _ _ _ _ _ tableInfo).
    + unfold updateRow. rewrite Hcat.
      unfold bind, modify, query, ret. rewrite Hst. reflexivity.
    + unfold updateRow. rewrite Hcat.
      unfold bind, modify, query, ret. rewrite Hst. reflexivity.
  - unfold updateRow. rewrite Hcat. reflexivity.
Qed.

Lemma rowFate_Dropped is_ row w w0 :
  rowFate is_ row w = Dropped → rowFate is_ row w0 = Dropped.
Proof.
  unfold rowFate. destruct (TableByID is_ (row_table_id row)); [|done].
  by destruct (tableStatsFromStorage _ _ _) as [[?|] [?|]].
Qed.

Lemma rowFate_Rebuilt is_ row w t :
  rowFate is_ row w = Rebuilt t →
  ∃ tableInfo,
    TableByID is_ (row_table_id row) = Some tableInfo ∧
    tableStatsFromStorage tableInfo false (atRow row w) = (Some t, None).
Proof.
  unfold rowFate.
  destruct (TableByID is_ (row_table_id row)) as [tableInfo|]; [|done].
  destruct (tableStatsFromStorage _ _ _) as [[t'|] [?|]] eqn:Hst; try done.
  intros [= ->]. eauto.
Qed.

Lemma updateRows_app is_ rows1 rows2 tables deletedTableIDs w :
  updateRows is_ (rows1 ++ rows2) tables deletedTableIDs w =
  (do acc <- updateRows is_ rows1 tables deletedTableIDs;
   updateRows is_ rows2 acc.1 acc.2) w.
Proof.
  revert tables deletedTableIDs w.
  induction rows1 as [|row rows1 IH]; intros tables deletedTableIDs w.
  - reflexivity.
  - cbn [app updateRows]. unfold bind.
    destruct (updateRow is_ row tables deletedTableIDs w) as [acc w1| |];
      [|done..].
    rewrite IH. reflexivity.
Qed.

(** The loop only adds table objects and log entries. *)
Lemma updateRows_grows is_ rows tables deletedTableIDs w acc w1 :
  updateRows is_ rows tables deletedTableIDs w = Ok acc w1 →
  tblHeap w ⊆ tblHeap w1 ∧ (∀ e, e ∈ logs w → e ∈ logs w1).
Proof.
  revert tables deletedTableIDs w.
  induction rows as [|row rows IH]; intros tables deletedTableIDs w Hrun.
  - by injection Hrun as _ <-.
  - cbn [updateRows] in Hrun. unfold bind in Hrun.
    rewrite updateRow_fate in Hrun.
    destruct (rowFate is_ row w) as [|err| |t];
      destruct (IH _ _ _ Hrun) as [Hheap Hlogs]; cbn in Hheap, Hlogs.
    + split; [done|]. intros e He. apply Hlogs, elem_of_app. by left.
    + split; [done|]. intros e He. apply Hlogs, elem_of_app. by left.
    + done.
    + split; [|done]. etrans; [|exact Hheap].
      apply insert_subseteq, not_elem_of_dom, is_fresh.
Qed.

(** The two slices after the loop: what was appended, and why. *)
Lemma updateRows_appended is_ rows tables deletedTableIDs w acc w1 :
  updateRows is_ rows tables deletedTableIDs w = Ok acc w1 →
  ∃ ts ds,
    acc = (tables ++ ts, deletedTableIDs ++ ds) ∧
    (∀ id, id ∈ ds →
       ∃ row w0, row ∈ rows ∧ row_table_id row = id ∧
         (rowFate is_ row w0 = Dropped ∨ rowFate is_ row w0 = Vanished)) ∧
    (∀ row, row ∈ rows →
       (∀ w0, rowFate is_ row w0 = Dropped ∨ rowFate is_ row w0 = Vanished) →
       row_table_id row ∈ ds) ∧
    (∀ p, p ∈ ts →
       (p ∉ dom (tblHeap w)) ∧
       ∃ row w0 t, row ∈ rows ∧ rowFate is_ row w0 = Rebuilt t ∧
         tblHeap w1 !! p = Some (stamped row t)) ∧
    (∀ row, row ∈ rows → TableByID is_ (row_table_id row) = None →
       LogUnknownTable (row_table_id row) ∈ logs w1).
Proof.
  revert tables deletedTableIDs w.
  induction rows as [|row rows IH]; intros tables deletedTableIDs w Hrun.
  - injection Hrun as <- <-. exists [], [].
    rewrite !app_nil_r. split; [done|].
    split; [intros ? Hin; by apply elem_of_nil in Hin|].
    split; [intros ? Hin; by apply elem_of_nil in Hin|].
    split; [intros ? Hin; by apply elem_of_nil in Hin|].
    intros ? Hin; by apply elem_of_nil in Hin.
  - cbn [updateRows] in Hrun. unfold bind in Hrun.
    rewrite updateRow_fate in Hrun.
    destruct (rowFate is_ row w) as [|err| |t] eqn:Hfate;
      destruct (updateRows_grows _ _ _ _ _ _ _ Hrun) as [Hheap Hlogs];
      destruct (IH _ _ _ Hrun) as (ts & ds & -> & HB & HC & HE & HU);
      cbn in Hheap, Hlogs, HE.
    + exists ts, (row_table_id row :: ds).
      split; [cbn [fst snd]; by rewrite <- app_assoc|].
      split; [|split; [|split]].
      * intros id [->|Hin]%elem_of_cons.
        -- exists row, w. split; [by left|]. eauto.
        -- destruct (HB id Hin) as (r & wr & Hr & ?). exists r, wr.
           split; [by right|done].
      * intros r [->|Hin]%elem_of_cons Hr; [by left|]. right. by apply HC.
      * intros p Hp. destruct (HE p Hp) as (Hnew & r & wr & t & Hr & ? & ?).
        split; [done|]. exists r, wr, t. split; [by right|done].
      * intros r [->|Hin]%elem_of_cons Hr; [|by apply HU].
        apply Hlogs, elem_of_app. right. by left.
    + exists ts, ds. split; [done|].
      split; [|split; [|split]].
      * intros id Hin. destruct (HB id Hin) as (r & wr & Hr & ?).
        exists r, wr. split; [by right|done].
      * intros r [->|Hin]%elem_of_cons Hr; [|by apply HC].
        destruct (Hr w); congruence.
      * intros p Hp. destruct (HE p Hp) as (Hnew & r & wr & t & Hr & ? & ?).
        split; [done|]. exists r, wr, t. split; [by right|done].
      * intros r [->|Hin]%elem_of_cons Hr; [|by apply HU].
        unfold rowFate in Hfate. rewrite Hr in Hfate. done.
    + exists ts, (row_table_id row :: ds).
      split; [cbn [fst snd]; by rewrite <- app_assoc|].
      split; [|split; [|split]].
      * intros id [->|Hin]%elem_of_cons.
        -- exists row, w. split; [by left|]. eauto.
        -- destruct (HB id Hin) as (r & wr & Hr & ?). exists r, wr.
           split; [by right|done].
      * intros r [->|Hin]%elem_of_cons Hr; [by left|]. right. by apply HC.
      * intros p Hp. destruct (HE p Hp) as (Hnew & r & wr & t & Hr & ? & ?).
        split; [done|]. exists r, wr, t. split; [by right|done].
      * intros r [->|Hin]%elem_of_cons Hr; [|by apply HU].
        unfold rowFate in Hfate. rewrite Hr in Hfate. done.
    + exists (fresh (dom (tblHeap w)) :: ts), ds.
      split; [cbn [fst snd]; by rewrite <- app_assoc|].
      assert (Hp0 : tblHeap w1 !! fresh (dom (tblHeap w)) = Some (stamped row t)).
      { eapply lookup_weaken; [|exact Hheap]. by rewrite lookup_insert_eq. }
      split; [|split; [|split]].
      * intros id Hin. destruct (HB id Hin) as (r & wr & Hr & ?).
        exists r, wr. split; [by right|done].
      * intros r [->|Hin]%elem_of_cons Hr; [|by apply HC].
        destruct (Hr w); congruence.
      * intros p [->|Hin]%elem_of_cons.
        -- split; [apply is_fresh|]. exists row, w, t. split; [by left|done].
        -- destruct (HE p Hin) as (Hnew & r & wr & t' & Hr & ? & ?).
           split.
           { intros Hd. apply Hnew. rewrite dom_insert.
             apply elem_of_union. by right. }
           exists r, wr, t'. split; [by right|done].
      * intros r [->|Hin]%elem_of_cons Hr; [|by apply HU].
        unfold rowFate in Hfate. rewrite Hr in Hfate. done.
Qed.

End row_fates.

(** ** Lookups in the result of a Replace *)

Section replace_lookups.

Lemma applyUpdates_app heap (m : gmap Z loc) l1 l2 :
  applyUpdates heap m (l1 ++ l2) = applyUpdates heap (applyUpdates heap m l1) l2.
Proof. unfold applyUpdates. by rewrite foldl_app. Qed.

Lemma applyUpdates_cons heap (m : gmap Z loc) p l :
  applyUpdates heap m (p :: l) =
  applyUpdates heap
    (match heap !! p with
     | Some t => <[Table.TableID t := p]> m
     | None => m
     end) l.
Proof. reflexivity. Qed.

Lemma applyUpdates_lookup_other heap (m : gmap Z loc) tables id :
  (∀ p, p ∈ tables → tableIdAt heap p ≠ Some id) →
  applyUpdates heap m tables !! id = m !! id.
Proof.
  revert m. induction tables as [|p tables IH]; intros m Hother; [done|].
  rewrite applyUpdates_cons, IH.
  - pose proof (Hother p (list_elem_of_here _ _)) as Hp. unfold tableIdAt in Hp.
    destruct (heap !! p) as [t|]; [|done].
    rewrite lookup_insert_ne; [done|]. intros Heq. apply Hp. simpl. by rewrite Heq.
  - intros q Hq. apply Hother. by right.
Qed.

Lemma applyUpdates_lookup_Some heap (m : gmap Z loc) tables id p :
  applyUpdates heap m tables !! id = Some p → p ∈ tables ∨ m !! id = Some p.
Proof.
  revert m. induction tables as [|q tables IH]; intros m Hlk; [by right|].
  rewrite applyUpdates_cons in Hlk. destruct (IH _ Hlk) as [Hin|Hm].
  - left. by right.
  - destruct (heap !! q) as [t|]; [|by right].
    destruct (decide (Table.TableID t = id)) as [<-|Hne].
    + rewrite lookup_insert_eq in Hm. injection Hm as <-. left. by left.
    + rewrite lookup_insert_ne in Hm by done. by right.
Qed.

Lemma Replace_spec_lookup_Some heap (m : gmap Z loc) tables deletedIDs id p :
  Replace_spec heap m tables deletedIDs !! id = Some p →
  (id ∉ deletedIDs) ∧ (p ∈ tables ∨ m !! id = Some p).
Proof.
  unfold Replace_spec. rewrite applyRemovals_lookup.
  destruct (decide (id ∈ deletedIDs)); [done|].
  intros Hlk. split; [done|]. by eapply applyUpdates_lookup_Some.
Qed.

(** The last update filed under [id] is the one the new snapshot holds. *)
Lemma applyUpdates_last_wins heap (m : gmap Z loc) before p after t :
  heap !! p = Some t →
  (∀ q, q ∈ after → tableIdAt heap q ≠ Some (Table.TableID t)) →
  applyUpdates heap m (before ++ p :: after) !! Table.TableID t = Some p.
Proof.
  intros Hp Hafter.
  rewrite applyUpdates_app, applyUpdates_cons, Hp.
  rewrite applyUpdates_lookup_other by done. by rewrite lookup_insert_eq.
Qed.

Lemma wellFormed_installed r m w :
  (∀ id p, m !! id = Some p → is_Some (tblHeap w !! p)) →
  wellFormed (installed r m w).
Proof.
  intros Hm. split; [apply hasSnapshot_installed|].
  intros id p. rewrite snapshot_installed. apply Hm.
Qed.

End replace_lookups.

(** ** Whole refresh cycles *)

Section cycles.
Context `{!Collaborators}.

(** A cycle whose query succeeds, with what is known of its loop. *)
Lemma Update_result is_ w m :
  mapHeap w !! statsCacheRef (hdl w) = Some m →
  sql_failure (storage w) = None →
  ∃ acc w1,
    updateRows is_ (refreshBatch w) [] [] (cycleStart w) = Ok acc w1 ∧
    rowsFrame (cycleStart w) w1 ∧
    Forall (λ p, is_Some (tblHeap w1 !! p)) acc.1 ∧
    Update is_ w =
      Ok None (installed (fresh (dom (mapHeap w)))
                 (Replace_spec (tblHeap w1) m acc.1 acc.2) w1).
Proof.
  intros Hm Hsql.
  destruct (updateRows_frame is_ (refreshBatch w) [] [] (cycleStart w))
    as (acc & w1 & Hrows & Hf & Hv & Hall); [done|].
  destruct (Update_success is_ w m Hm Hsql) as (acc' & w1' & Hrows' & _ & _ & HU).
  rewrite Hrows in Hrows'. injection Hrows' as <- <-.
  exists acc, w1. done.
Qed.

Lemma updateRows_all_skipped is_ rows tables deletedTableIDs w :
  (∀ row w0, row ∈ rows → ∃ err, rowFate is_ row w0 = Skipped err) →
  ∃ w1,
    updateRows is_ rows tables deletedTableIDs w = Ok (tables, deletedTableIDs) w1 ∧
    tblHeap w1 = tblHeap w ∧
    length (logs w1) = (length (logs w) + length rows)%nat.
Proof.
  revert w. induction rows as [|row rows IH]; intros w Hskip.
  - exists w. split; [done|]. split; [done|]. simpl. lia.
  - destruct (Hskip row w) as [err Hfate]; [by left|].
    destruct (IH (log_Debug
                    (LogReadTableStats
                       (from_option TableInfo_Name ""
                          (TableByID is_ (row_table_id row))) err)
                    (atRow row w))) as (w1 & Hrun & Hheap & Hlen).
    { intros r w0 Hr. apply Hskip. by right. }
    exists w1. split.
    { cbn [updateRows]. unfold bind. by rewrite updateRow_fate, Hfate. }
    split; [done|]. rewrite Hlen. simpl. rewrite length_app. simpl. lia.
Qed.

End cycles.

(** X2.  On a well-formed handle [Update] always returns, whatever the
    catalog, the store and the collaborators answer: a failed query gives the
    traced error and leaves the world as it is, anything else gives nil; and
    the handle is well-formed afterwards. *)
Theorem Update_returns_and_keeps_wellFormed `{!Collaborators}
    (is_ : InfoSchema) (w : World) :
  wellFormed w →
  ∃ r w', Update is_ w = Ok r w' ∧ wellFormed w' ∧
    (r = errors_Trace <$> sql_failure (storage w)) ∧
    (is_Some r → w' = w).
Proof.
  intros [[m Hm] Hptr].
  destruct (sql_failure (storage w)) as [err|] eqn:Hsql.
  - exists (Some (errors_Trace err)), w.
    split; [by apply Update_query_failure|].
    split; [split; [by exists m|done]|]. done.
  - destruct (Update_result is_ w m Hm Hsql) as (acc & w1 & _ & Hf & Hall & HU).
    eexists None, _. split; [exact HU|].
    split; [|split; [done|by intros [? ?]]].
    apply wellFormed_installed. intros id p Hlk.
    apply Replace_spec_lookup_Some in Hlk as [_ [Hin|Hold]].
    + by apply (proj1 (Forall_forall _ _) Hall).
    + destruct (Hptr id p) as [t Ht].
      { by rewrite (hasSnapshot_snapshot w m Hm). }
      exists t. eapply lookup_weaken; [exact Ht|]. apply (rf_tblHeap _ _ Hf).
Qed.

(** X3.  A stored meta row above the previous watermark whose table the
    catalog does not know: after the cycle the cache has no entry for that
    table ID, whatever the other rows of the batch are, and the drop is
    logged. *)
Theorem Update_evicts_unknown_table `{!Collaborators}
    (is_ : InfoSchema) (w : World) (row : MetaRow) :
  hasSnapshot w →
  sql_failure (storage w) = None →
  row ∈ stats_meta (storage w) →
  PrevLastVersion (hdl w) < row_version row →
  TableByID is_ (row_table_id row) = None →
  ∃ w', Update is_ w = Ok None w' ∧
    snapshot w' !! row_table_id row = None ∧
    LogUnknownTable (row_table_id row) ∈ logs w'.
Proof.
  intros [m Hm] Hsql Hin Hgt Hcat.
  destruct (Update_result is_ w m Hm Hsql) as (acc & w1 & Hrun & _ & _ & HU).
  destruct (updateRows_appended _ _ _ _ _ _ _ Hrun)
    as (ts & ds & -> & _ & HC & _ & HL).
  assert (Hb : row ∈ refreshBatch w) by by apply elem_of_refreshBatch.
  eexists. split; [exact HU|]. rewrite snapshot_installed. split.
  - unfold Replace_spec. rewrite applyRemovals_lookup, decide_True; [done|].
    apply HC; [done|]. intros w0. left. unfold rowFate. by rewrite Hcat.
  - by apply HL.
Qed.

(** X4.  A stored meta row above the previous watermark whose table is in
    the catalog but for which the store has no statistics (the
    reconstruction returns nil and no error): after the cycle the cache has
    no entry for that table ID. *)
Theorem Update_evicts_table_without_statistics `{!Collaborators}
    (is_ : InfoSchema) (w : World) (row : MetaRow) (tableInfo : TableInfo) :
  hasSnapshot w →
  sql_failure (storage w) = None →
  row ∈ stats_meta (storage w) →
  PrevLastVersion (hdl w) < row_version row →
  TableByID is_ (row_table_id row) = Some tableInfo →
  (∀ w0, tableStatsFromStorage tableInfo false w0 = (None, None)) →
  ∃ w', Update is_ w = Ok None w' ∧
    snapshot w' !! row_table_id row = None.
Proof.
  intros [m Hm] Hsql Hin Hgt Hcat Hnil.
  destruct (Update_result is_ w m Hm Hsql) as (acc & w1 & Hrun & _ & _ & HU).
  destruct (updateRows_appended _ _ _ _ _ _ _ Hrun)
    as (ts & ds & -> & _ & HC & _ & _).
  assert (Hb : row ∈ refreshBatch w) by by apply elem_of_refreshBatch.
  eexists. split; [exact HU|]. rewrite snapshot_installed.
  unfold Replace_spec. rewrite applyRemovals_lookup, decide_True; [done|].
  apply HC; [done|]. intros w0. right. unfold rowFate. by rewrite Hcat, Hnil.
Qed.

(** X5.  When the statistics of every table of the batch fail to be read,
    [Update] still returns nil: the errors are logged, one entry per row, and
    not reported.  The content of the cache and the table objects are what
    they were, and yet the watermarks move: previous takes the old current
    and current the version of the last row. *)
Theorem Update_swallows_reconstruction_errors `{!Collaborators}
    (is_ : InfoSchema) (w : World) :
  hasSnapshot w →
  sql_failure (storage w) = None →
  (∀ row, row ∈ refreshBatch w →
     ∃ tableInfo, TableByID is_ (row_table_id row) = Some tableInfo ∧
       ∀ w0, is_Some (tableStatsFromStorage tableInfo false w0).2) →
  ∃ w', Update is_ w = Ok None w' ∧
    snapshot w' = snapshot w ∧
    tblHeap w' = tblHeap w ∧
    length (logs w') = (length (logs w) + length (refreshBatch w))%nat ∧
    PrevLastVersion (hdl w') = LastVersion (hdl w) ∧
    LastVersion (hdl w') = lastVersionOf (refreshBatch w) (LastVersion (hdl w)).
Proof.
  intros [m Hm] Hsql Hfail.
  destruct (Update_success is_ w m Hm Hsql) as (acc & w1 & Hrun & Hf & Hv & HU).
  destruct (updateRows_all_skipped is_ (refreshBatch w) [] [] (cycleStart w))
    as (w1' & Hrun' & Hheap & Hlen).
  { intros row w0 Hrow. destruct (Hfail row Hrow) as (tableInfo & Hcat & Herr).
    unfold rowFate. rewrite Hcat.
    destruct (Herr (atRow row w0)) as [err Herr'].
    destruct (tableStatsFromStorage tableInfo false (atRow row w0)) as [[?|] oe].
    - simpl in Herr'. subst oe. by exists err.
    - simpl in Herr'. subst oe. by exists err. }
  rewrite Hrun in Hrun'. injection Hrun' as -> <-.
  eexists. split; [exact HU|]. rewrite snapshot_installed.
  split; [by rewrite (hasSnapshot_snapshot w m Hm)|].
  split; [done|]. split; [done|].
  unfold installed. simpl. rewrite (rf_hdl _ _ Hf). simpl. done.
Qed.

(** X6.  With a catalog that files tables under their own ID and a
    reconstruction that gives each object the ID of its table, a cycle
    changes the cache only at the table IDs of the rows of its batch: the
    entry of every other table ID is the pointer it was. *)
Theorem Update_keeps_entries_of_other_tables `{!Collaborators}
    (is_ : InfoSchema) (w : World) (id : Z) :
  hasSnapshot w →
  sql_failure (storage w) = None →
  catalogById is_ →
  rebuildsOwnTable →
  (∀ row, row ∈ refreshBatch w → row_table_id row ≠ id) →
  ∃ w', Update is_ w = Ok None w' ∧ snapshot w' !! id = snapshot w !! id.
Proof.
  intros [m Hm] Hsql Hcat Hown Hother.
  destruct (Update_result is_ w m Hm Hsql) as (acc & w1 & Hrun & _ & _ & HU).
  destruct (updateRows_appended _ _ _ _ _ _ _ Hrun)
    as (ts & ds & -> & HB & _ & HE & _).
  eexists. split; [exact HU|]. rewrite snapshot_installed.
  rewrite (hasSnapshot_snapshot w m Hm).
  unfold Replace_spec. rewrite applyRemovals_lookup, decide_False.
  - apply applyUpdates_lookup_other. intros p Hp.
    destruct (HE p Hp) as (_ & row & w0 & t & Hrow & Hfate & Hheap).
    unfold tableIdAt. cbn [fst] in *. rewrite Hheap. simpl.
    apply rowFate_Rebuilt in Hfate as (tableInfo & Hinfo & Hst).
    intros [= Heq]. apply (Hother row Hrow).
    rewrite <- Heq, (Hown tableInfo false (atRow row w0) t) by by rewrite Hst.
    symmetry. by apply Hcat.
  - cbn [snd]. intros Hd. destruct (HB id Hd) as (row & _ & Hrow & Hid & _).
    by apply (Hother row Hrow).
Qed.

(** The last row of a table in a batch is the one the cache ends up with. *)
Lemma Update_last_row `{!Collaborators}
    (is_ : InfoSchema) (w : World) (before after : list MetaRow)
    (row : MetaRow) (tableInfo : TableInfo) (t : Table.t) :
  hasSnapshot w →
  sql_failure (storage w) = None →
  catalogById is_ →
  rebuildsOwnTable →
  refreshBatch w = before ++ row :: after →
  (∀ row', row' ∈ after → row_table_id row' ≠ row_table_id row) →
  TableByID is_ (row_table_id row) = Some tableInfo →
  (∀ w0, tableStatsFromStorage tableInfo false w0 = (Some t, None)) →
  ∃ w' p,
    Update is_ w = Ok None w' ∧
    snapshot w' !! row_table_id row = Some p ∧
    tblHeap w' !! p = Some (stamped row t).
Proof.
  intros [m Hm] Hsql Hcat Hown Hbatch Hafter Hinfo Hst.
  destruct (Update_result is_ w m Hm Hsql) as (acc & w3 & Hrun & _ & _ & HU).
  assert (Hid : Table.TableID t = row_table_id row).
  { rewrite (Hown tableInfo false w t) by by rewrite Hst. by apply Hcat. }
  rewrite Hbatch, updateRows_app in Hrun. unfold bind in Hrun.
  destruct (updateRows is_ before [] [] (cycleStart w)) as [acc1 w1| |] eqn:Hrun1;
    [|done..].
  cbn [updateRows] in Hrun. unfold bind in Hrun.
  rewrite updateRow_fate in Hrun.
  assert (Hfate : ∀ w0, rowFate is_ row w0 = Rebuilt t).
  { intros w0. unfold rowFate. by rewrite Hinfo, Hst. }
  rewrite Hfate in Hrun. cbn [fst snd] in Hrun.
  destruct (updateRows_appended _ _ _ _ _ _ _ Hrun1)
    as (ts1 & ds1 & -> & HB1 & _ & _ & _).
  destruct (updateRows_grows _ _ _ _ _ _ _ Hrun) as [Hheap _].
  destruct (updateRows_appended _ _ _ _ _ _ _ Hrun)
    as (ts2 & ds2 & -> & HB2 & _ & HE2 & _).
  cbn [fst snd app] in *.
  set (p := fresh (dom (tblHeap w1))) in *.
  assert (Hp : tblHeap w3 !! p = Some (stamped row t)).
  { eapply lookup_weaken; [|exact Hheap]. simpl. by rewrite lookup_insert_eq. }
  eexists _, p. split; [exact HU|]. rewrite snapshot_installed.
  split; [|done].
  unfold Replace_spec. rewrite applyRemovals_lookup, decide_False.
  - rewrite <- Hid. rewrite <- app_assoc.
    apply (applyUpdates_last_wins _ _ _ _ _ (stamped row t) Hp).
    intros q Hq. destruct (HE2 q Hq) as (_ & r & w0 & t' & Hr & Hf' & Hq').
    unfold tableIdAt. rewrite Hq'. simpl.
    apply rowFate_Rebuilt in Hf' as (info' & Hinfo' & Hst').
    intros [= Heq]. apply (Hafter r Hr).
    rewrite <- Hid, <- Heq.
    rewrite (Hown info' false (atRow r w0) t') by by rewrite Hst'.
    symmetry. by apply Hcat.
  - intros Hd. apply elem_of_app in Hd as [Hd|Hd].
    + destruct (HB1 _ Hd) as (r & w0 & _ & Hr & [Hf'|Hf']).
      * unfold rowFate in Hf'. rewrite Hr, Hinfo, Hst in Hf'. done.
      * unfold rowFate in Hf'. rewrite Hr, Hinfo, Hst in Hf'. done.
    + destruct (HB2 _ Hd) as (r & w0 & _ & Hr & [Hf'|Hf']).
      * unfold rowFate in Hf'. rewrite Hr, Hinfo, Hst in Hf'. done.
      * unfold rowFate in Hf'. rewrite Hr, Hinfo, Hst in Hf'. done.
Qed.


(** X7.  Last write wins inside a batch.  With a catalog that files tables
    under their own ID and a reconstruction that gives each object the ID of
    its table: for a row of the batch that no later row of the same table
    follows, and whose table has statistics that can be rebuilt into [t],
    the cache holds after the cycle, under that table ID, an object with the
    fields of [t] stamped with the version, count and modify count of that
    row. *)
Theorem Update_last_row_of_a_table_wins `{!Collaborators}
    (is_ : InfoSchema) (w : World) (before after : list MetaRow)
    (row : MetaRow) (tableInfo : TableInfo) (t : Table.t) :
  hasSnapshot w →
  sql_failure (storage w) = None →
  catalogById is_ →
  rebuildsOwnTable →
  refreshBatch w = before ++ row :: after →
  (∀ row', row' ∈ after → row_table_id row' ≠ row_table_id row) →
  TableByID is_ (row_table_id row) = Some tableInfo →
  (∀ w0, tableStatsFromStorage tableInfo false w0 = (Some t, None)) →
  ∃ w' p,
    Update is_ w = Ok None w' ∧
    snapshot w' !! row_table_id row = Some p ∧
    tblHeap w' !! p = Some (stamped row t).
Proof.
  intros Hsnap Hsql Hcat Hown Hbatch Hafter Hinfo Hst.
  destruct (Update_last_row is_ w before after row tableInfo t Hsnap Hsql Hcat
              Hown Hbatch Hafter Hinfo Hst) as (w' & p & HU & Hlk & Hp).
  by exists w', p.
Qed.

(** X20.  A refresh followed by a lookup.  Under the conditions of the
    last-row property, for a table info with the table ID of that row,
    [GetTableStats] right after the cycle is a hit: it returns the object
    stamped with that row and changes nothing. *)
Theorem GetTableStats_after_Update_returns_rebuilt_table `{!Collaborators}
    (is_ : InfoSchema) (w : World) (before after : list MetaRow)
    (row : MetaRow) (tableInfo tblInfo : TableInfo) (t : Table.t) :
  hasSnapshot w →
  sql_failure (storage w) = None →
  catalogById is_ →
  rebuildsOwnTable →
  refreshBatch w = before ++ row :: after →
  (∀ row', row' ∈ after → row_table_id row' ≠ row_table_id row) →
  TableByID is_ (row_table_id row) = Some tableInfo →
  (∀ w0, tableStatsFromStorage tableInfo false w0 = (Some t, None)) →
  TableInfo_ID tblInfo = row_table_id row →
  ∃ w' p,
    Update is_ w = Ok None w' ∧
    GetTableStats tblInfo w' = Ok p w' ∧
    tblHeap w' !! p = Some (stamped row t).
Proof.
  intros Hsnap Hsql Hcat Hown Hbatch Hafter Hinfo Hst Hid.
  destruct (Update_last_row is_ w before after row tableInfo t Hsnap Hsql Hcat
              Hown Hbatch Hafter Hinfo Hst) as (w' & p & HU & Hlk & Hp).
  exists w', p. split; [done|]. split; [|done].
  destruct (Update_watermarks is_ w Hsnap Hsql) as (w'' & HU' & _ & _ & Hs' & _).
  rewrite HU in HU'. injection HU' as <-. destruct Hs' as [m' Hm'].
  unfold GetTableStats, bind, statsCache_Load. rewrite Hm'.
  rewrite (hasSnapshot_snapshot w' m' Hm') in Hlk. by rewrite Hid, Hlk.
Qed.

(** X8.  Every cycle whose query succeeds, the ones with an empty batch
    included, publishes by exactly one [Store] of a map object that did not
    exist before, and writes to no map object that existed before: a reader
    that loaded the old snapshot keeps seeing it as it was. *)
Theorem Update_publishes_by_one_store `{!Collaborators}
    (is_ : InfoSchema) (w : World) :
  hasSnapshot w →
  sql_failure (storage w) = None →
  ∃ w', Update is_ w = Ok None w' ∧
    storeLog w' = storeLog w ++ [statsCacheRef (hdl w')] ∧
    (statsCacheRef (hdl w') ∉ dom (mapHeap w)) ∧
    (∀ r0 m0, mapHeap w !! r0 = Some m0 → mapHeap w' !! r0 = Some m0) ∧
    mapHeap w' !! statsCacheRef (hdl w) = Some (snapshot w).
Proof.
  intros [m Hm] Hsql.
  destruct (Update_result is_ w m Hm Hsql) as (acc & w1 & _ & Hf & _ & HU).
  eexists. split; [exact HU|].
  assert (Hfresh : fresh (dom (mapHeap w)) ∉ dom (mapHeap w)) by apply is_fresh.
  assert (Hold : ∀ r0 m0, mapHeap w !! r0 = Some m0 →
            mapHeap (installed (fresh (dom (mapHeap w)))
                       (Replace_spec (tblHeap w1) m acc.1 acc.2) w1) !! r0
            = Some m0).
  { intros r0 m0 H0. apply installed_old_maps.
    - by rewrite (rf_mapHeap _ _ Hf).
    - by rewrite (rf_mapHeap _ _ Hf). }
  split; [unfold installed; simpl; by rewrite (rf_storeLog _ _ Hf)|].
  split; [done|]. split; [done|].
  apply Hold. by rewrite (hasSnapshot_snapshot w m Hm).
Qed.

(** X9.  Because the batch comes in ascending order of version, the current
    watermark after a cycle is at least the version of every stored row
    above the previous watermark, and, when there is such a row, it is the
    version of one of them. *)
Theorem Update_current_watermark_is_largest_version `{!Collaborators}
    (is_ : InfoSchema) (w : World) :
  hasSnapshot w →
  sql_failure (storage w) = None →
  ∃ w', Update is_ w = Ok None w' ∧
    (∀ row, row ∈ stats_meta (storage w) →
       PrevLastVersion (hdl w) < row_version row →
       row_version row ≤ LastVersion (hdl w') ∧
       ∃ row', row' ∈ stats_meta (storage w) ∧
         PrevLastVersion (hdl w) < row_version row' ∧
         row_version row' = LastVersion (hdl w')).
Proof.
  intros Hsnap Hsql.
  destruct (Update_watermarks is_ w Hsnap Hsql) as (w' & HU & _ & Hlast & _).
  exists w'. split; [done|]. intros row Hin Hgt.
  assert (Hb : row ∈ refreshBatch w) by by apply elem_of_refreshBatch.
  destruct (last (refreshBatch w)) as [row'|] eqn:Hl.
  - rewrite (lastVersionOf_last _ row') in Hlast by done. rewrite Hlast.
    split; [by apply (sorted_last_max _ _ _ (refreshBatch_sorted w) Hl)|].
    apply last_Some_elem_of, elem_of_refreshBatch in Hl as [? ?].
    by exists row'.
  - apply last_None in Hl. rewrite Hl in Hb. by apply elem_of_nil in Hb.
Qed.

(** ** UpdateTableStats on its own *)

(** X10.  [UpdateTableStats] leaves alone every entry whose ID is neither
    removed nor the table ID of an update: the new snapshot holds the pointer
    the prior one held, or nothing if it held nothing; removing an ID that is
    not cached does no harm, and no table object changes. *)
Theorem UpdateTableStats_keeps_other_entries
    (w : World) (m : gmap Z loc) (tables : list loc) (deletedIDs : list Z) (id : Z) :
  mapHeap w !! statsCacheRef (hdl w) = Some m →
  Forall (λ p, is_Some (tblHeap w !! p)) tables →
  id ∉ deletedIDs →
  (∀ p, p ∈ tables → tableIdAt (tblHeap w) p ≠ Some id) →
  ∃ w', UpdateTableStats tables deletedIDs w = Ok tt w' ∧
    snapshot w' !! id = m !! id ∧
    tblHeap w' = tblHeap w.
Proof.
  intros Hm Hall Hid Hother.
  eexists. split; [by apply UpdateTableStats_spec|].
  rewrite snapshot_installed. split; [|done].
  unfold Replace_spec. rewrite applyRemovals_lookup, decide_False by done.
  by apply applyUpdates_lookup_other.
Qed.

(** X11.  When several updates of one call carry the same table ID, the last
    of them is the one the new snapshot holds (unless the ID is removed as
    well). *)
Theorem UpdateTableStats_last_update_wins
    (w : World) (m : gmap Z loc) (before after : list loc) (p : loc)
    (t : Table.t) (deletedIDs : list Z) :
  mapHeap w !! statsCacheRef (hdl w) = Some m →
  Forall (λ q, is_Some (tblHeap w !! q)) (before ++ p :: after) →
  tblHeap w !! p = Some t →
  (∀ q, q ∈ after → tableIdAt (tblHeap w) q ≠ Some (Table.TableID t)) →
  Table.TableID t ∉ deletedIDs →
  ∃ w', UpdateTableStats (before ++ p :: after) deletedIDs w = Ok tt w' ∧
    snapshot w' !! Table.TableID t = Some p.
Proof.
  intros Hm Hall Hp Hafter Hid.
  eexists. split; [by apply UpdateTableStats_spec|].
  rewrite snapshot_installed.
  unfold Replace_spec. rewrite applyRemovals_lookup, decide_False by done.
  by apply applyUpdates_last_wins.
Qed.

Lemma forRange_updates_nil (tables : list loc) r w p :
  is_Some (mapHeap w !! r) →
  p ∈ tables → tblHeap w !! p = None →
  forRange tables (λ tbl, do t <- readTable tbl;
                          let id := Table.TableID t in mapAssign r id tbl) w
  = Panic.
Proof.
  revert w. induction tables as [|q tables IH]; intros w [m0 Hr] Hin Hnil.
  - by apply elem_of_nil in Hin.
  - cbn [forRange]. unfold bind at 1. unfold bind at 1. unfold readTable at 1.
    destruct (tblHeap w !! q) as [t|] eqn:Hq; [|done].
    apply elem_of_cons in Hin as [->|Hin]; [congruence|].
    unfold mapAssign at 1. rewrite Hr.
    apply IH; [|done..]. simpl. rewrite lookup_insert_eq. eauto.
Qed.

(** X12.  A nil pointer among the updates makes [UpdateTableStats] panic (at
    [tbl.TableID]) instead of returning. *)
Theorem UpdateTableStats_nil_table_panics
    (w : World) (tables : list loc) (deletedIDs : list Z) (p : loc) :
  hasSnapshot w →
  p ∈ tables →
  tblHeap w !! p = None →
  UpdateTableStats tables deletedIDs w = Panic.
Proof.
  intros [m Hm] Hin Hnil. unfold UpdateTableStats.
  rewrite (bind_Ok _ _ _ _ _ (copyFromOldCache_spec w m Hm)).
  unfold bind at 1. rewrite (forRange_updates_nil tables _ _ p); [done| |done..].
  simpl. rewrite lookup_insert_eq. eauto.
Qed.

(** ** GetTableStats on a well-formed handle *)

(** X19.  On a well-formed handle [GetTableStats] always returns, and what it
    returns is never nil: it points to a table object.  The handle stays
    well-formed, no table object that existed changes, and the only entry of
    the cache that can differ afterwards is the one under the table ID of the
    pseudo object. *)
Theorem GetTableStats_returns_a_table `{!Collaborators}
    (tblInfo : TableInfo) (w : World) :
  wellFormed w →
  ∃ p w', GetTableStats tblInfo w = Ok p w' ∧
    is_Some (tblHeap w' !! p) ∧
    wellFormed w' ∧
    (∀ p0 t0, tblHeap w !! p0 = Some t0 → tblHeap w' !! p0 = Some t0) ∧
    (∀ id, id ≠ Table.TableID (PseudoTable tblInfo) →
       snapshot w' !! id = snapshot w !! id).
Proof.
  intros [[m Hm] Hptr]. pose proof (hasSnapshot_snapshot w m Hm) as Hsnap.
  destruct (m !! TableInfo_ID tblInfo) as [p|] eqn:Hlk.
  - exists p, w. split.
    { unfold GetTableStats, bind, statsCache_Load. by rewrite Hm, Hlk. }
    split; [apply (Hptr (TableInfo_ID tblInfo)); by rewrite Hsnap|].
    split; [split; [by exists m|done]|]. done.
  - set (p := fresh (dom (tblHeap w))).
    set (w0 := with_tblHeap (<[p := PseudoTable tblInfo]> (tblHeap w)) w).
    assert (Hfresh : tblHeap w !! p = None) by apply not_elem_of_dom, is_fresh.
    assert (Hp : tblHeap w0 !! p = Some (PseudoTable tblInfo)).
    { unfold w0. simpl. by rewrite lookup_insert_eq. }
    assert (HU : UpdateTableStats [p] [] w0 =
                 Ok tt (installed (fresh (dom (mapHeap w0)))
                          (Replace_spec (tblHeap w0) m [p] []) w0)).
    { apply UpdateTableStats_spec; [done|]. apply Forall_singleton. eauto. }
    assert (HR : Replace_spec (tblHeap w0) m [p] [] =
                 <[Table.TableID (PseudoTable tblInfo) := p]> m).
    { unfold Replace_spec, applyRemovals, applyUpdates. cbn [foldl].
      by rewrite Hp. }
    rewrite HR in HU.
    eexists p, _. split.
    { unfold GetTableStats. unfold bind at 1. unfold statsCache_Load at 1.
      rewrite Hm, Hlk. unfold bind at 1. unfold newTable at 1.
      fold p. fold w0. unfold bind. by rewrite HU. }
    split; [simpl; rewrite lookup_insert_eq; eauto|].
    assert (Hkeep : ∀ p0 t0, tblHeap w !! p0 = Some t0 →
                             tblHeap w0 !! p0 = Some t0).
    { intros p0 t0 H0. unfold w0. simpl. rewrite lookup_insert_ne; [done|].
      intros <-. congruence. }
    split; [|split; [exact Hkeep|]].
    + apply wellFormed_installed. intros id q Hq.
      destruct (decide (Table.TableID (PseudoTable tblInfo) = id)) as [<-|Hne].
      * rewrite lookup_insert_eq in Hq. injection Hq as <-. eauto.
      * rewrite lookup_insert_ne in Hq by done.
        destruct (Hptr id q) as [t0 Ht0]; [by rewrite Hsnap|].
        exists t0. by apply Hkeep.
    + intros id Hne. rewrite snapshot_installed, Hsnap.
      by rewrite lookup_insert_ne.
Qed.

(** ** Clear and what it keeps *)

(** X17.  [Clear] always returns and leaves a well-formed handle.  It
    publishes the empty cache as a new map object by one [Store]: the map
    objects and the table objects that existed are untouched, so a reader
    that holds the old snapshot still sees it.  The registry of pending
    columns is not reset.  With both watermarks at zero, the batch of the
    next cycle is every stored row of positive version. *)
Theorem Clear_starts_over_without_touching_old_objects (w : World) :
  ∃ w', Clear w = Ok tt w' ∧
    wellFormed w' ∧
    (∀ row, row ∈ refreshBatch w' ↔
            row ∈ stats_meta (storage w) ∧ 0 < row_version row) ∧
    storeLog w' = storeLog w ++ [statsCacheRef (hdl w')] ∧
    (∀ r0 m0, mapHeap w !! r0 = Some m0 → mapHeap w' !! r0 = Some m0) ∧
    tblHeap w' = tblHeap w ∧
    histogramNeededColumns w' = histogramNeededColumns w.
Proof.
  eexists. split; [reflexivity|]. cbn.
  match goal with |- wellFormed ?w0 ∧ _ =>
    assert (Hs : snapshot w0 = ∅)
  end.
  { unfold snapshot. cbn. by rewrite lookup_insert_eq. }
  split.
  { split.
    - unfold hasSnapshot. cbn. rewrite lookup_insert_eq. eauto.
    - intros id p. rewrite Hs. by rewrite lookup_empty. }
  split; [intros row; apply (elem_of_runSQL 0 (stats_meta (storage w)) row)|].
  split; [done|]. split; [|done].
  intros r0 m0 H0. rewrite lookup_insert_ne; [done|].
  intros <-. pose proof (is_fresh (dom (mapHeap w))) as Hf.
  apply Hf, elem_of_dom. eauto.
Qed.

(** X18.  [GetQueryFeedback] hands out the feedback recorded so far and
    leaves the handle with none, changing nothing else; [Clear] after it
    then gives a handle without feedback, which [Clear] alone does not.  If
    no load notification is waiting, all three queues are empty as well. *)
Theorem GetQueryFeedback_then_Clear_leaves_no_feedback (w : World) :
  ∃ w1 w2,
    GetQueryFeedback w = Ok (feedback (hdl w)) w1 ∧
    w1 = with_hdl (with_feedback []) w ∧
    GetQueryFeedback w1 = Ok [] w1 ∧
    Clear w1 = Ok tt w2 ∧
    feedback (hdl w2) = [] ∧
    snapshot w2 = ∅ ∧
    watermarks w2 = (0, 0) ∧
    queues w2 = ([], [], loadMetaCh (hdl w)) ∧
    (∃ w3, Clear w = Ok tt w3 ∧ feedback (hdl w3) = feedback (hdl w)).
Proof.
  eexists _, _. split; [reflexivity|]. split; [reflexivity|].
  split; [reflexivity|]. split; [reflexivity|]. cbn.
  split; [done|].
  split; [unfold snapshot; cbn; by rewrite lookup_insert_eq|].
  split; [done|]. unfold queues. cbn. rewrite !discardAll_nil.
  split; [done|]. eexists. split; [reflexivity|]. done.
Qed.

(** ** More on the lazy loader *)

Section loader_more.
Context `{!Collaborators}.

Lemma loadColumns_uncached cols w :
  hasSnapshot w →
  (∀ col, col ∈ cols → snapshot w !! col.1 = None) →
  loadColumns cols w = Ok None w.
Proof.
  intros Hsnap. induction cols as [|col cols IH]; intros Hnone; [done|].
  cbn [loadColumns]. unfold bind.
  pose proof (loadColumn_round col w Hsnap) as HR.
  assert (Hcol : snapshot w !! col.1 = None) by (apply Hnone; by left).
  inversion HR as [Hk Heq| | | | | | | ]; try congruence.
  apply IH. intros c Hc. apply Hnone. by right.
Qed.

(** One round on a well-formed handle in front of a store that answers. *)
Lemma loadColumn_working_store col w :
  wellFormed w →
  (∀ tableID c w0, ∃ hg, loadHistogram tableID c w0 = (Some hg, None)) →
  (∀ tableID isIndex histID w0,
     (cmSketchFromStorage tableID isIndex histID w0).2 = None) →
  ∃ w', loadColumn col w = Ok None w' ∧
    wellFormed w' ∧
    dom (snapshot w) ⊆ dom (snapshot w') ∧
    histogramNeededColumns w' ⊆ histogramNeededColumns w ∧
    (is_Some (snapshot w !! col.1) → col ∉ histogramNeededColumns w').
Proof.
  intros [Hsnap Hptr] Hhist Hcms.
  pose proof (loadColumn_round col w Hsnap) as HR.
  assert (Hgone : ∀ w0, col ∉ histogramNeededColumns (unregistered col w0)).
  { intros w0. unfold unregistered. simpl.
    rewrite elem_of_difference, elem_of_singleton. tauto. }
  assert (Hless : ∀ w0, histogramNeededColumns (unregistered col w0)
                        ⊆ histogramNeededColumns w0).
  { intros w0 c. unfold unregistered. simpl.
    rewrite elem_of_difference. tauto. }
  assert (Hcopied : ∀ t0, wellFormed (copied t0 w)).
  { intros t0. split; [done|]. intros id p Hp.
    destruct (Hptr id p Hp) as [t1 Ht1]. exists t1.
    unfold copied. simpl. rewrite lookup_insert_ne; [done|].
    intros <-. pose proof (is_fresh (dom (tblHeap w))) as Hf.
    apply Hf, elem_of_dom. eauto. }
  inversion HR as [Hk Heq|tbl0 Hk Hnil Heq|tbl0 t Hk Ht Hc Heq
                  |tbl0 t c Hk Ht Hc Hlen Heq
                  |tbl0 t c hg err Hk Ht Hc Hlen Hh Heq
                  |tbl0 t c hg cms err Hk Ht Hc Hlen Hh Hs Heq
                  |tbl0 t c cms Hk Ht Hc Hlen Hh Hs Heq
                  |tbl0 t c hg cms Hk Ht Hc Hlen Hh Hs t' Heq].
  - exists w. split; [done|]. split; [done|]. split; [done|]. split; [done|].
    rewrite Hk. by intros [? ?].
  - destruct (Hptr _ _ Hk) as [? ?]. congruence.
  - eexists. split; [done|]. split; [apply (Hcopied t)|]. split; [done|].
    split; [apply (Hless (copied t w))|]. intros _. apply Hgone.
  - eexists. split; [done|]. split; [apply (Hcopied t)|]. split; [done|].
    split; [apply (Hless (copied t w))|]. intros _. apply Hgone.
  - destruct (Hhist col.1 c (copied t w)) as [hg' Hh']. congruence.
  - pose proof (Hcms col.1 0 col.2 (copied t w)) as Hs'. rewrite Hs in Hs'.
    done.
  - destruct (Hhist col.1 c (copied t w)) as [hg' Hh']. congruence.
  - eexists. split; [done|].
    split; [|split; [|split; [|intros _; apply Hgone]]].
    + destruct (wellFormed_installed (fresh (dom (mapHeap w)))
                  (<[Table.TableID t := fresh (dom (tblHeap w))]> (snapshot w))
                  (copied t' w)) as [Hs1 Hp1].
      { intros id p Hp.
        destruct (decide (Table.TableID t = id)) as [<-|Hne].
        - rewrite lookup_insert_eq in Hp. injection Hp as <-.
          unfold copied. simpl. rewrite lookup_insert_eq. eauto.
        - rewrite lookup_insert_ne in Hp by done.
          by apply (proj2 (Hcopied t') id). }
      split; [exact Hs1|exact Hp1].
    + change (snapshot (unregistered col ?w0)) with (snapshot w0).
      rewrite snapshot_installed, dom_insert. apply union_subseteq_r.
    + apply (Hless (installed (fresh (dom (mapHeap w)))
                (<[Table.TableID t := fresh (dom (tblHeap w))]> (snapshot w))
                (copied t' w))).
Qed.

Lemma loadColumns_working_store cols w :
  wellFormed w →
  (∀ tableID c w0, ∃ hg, loadHistogram tableID c w0 = (Some hg, None)) →
  (∀ tableID isIndex histID w0,
     (cmSketchFromStorage tableID isIndex histID w0).2 = None) →
  ∃ w', loadColumns cols w = Ok None w' ∧
    wellFormed w' ∧
    dom (snapshot w) ⊆ dom (snapshot w') ∧
    histogramNeededColumns w' ⊆ histogramNeededColumns w ∧
    (∀ col, col ∈ cols → is_Some (snapshot w !! col.1) →
       col ∉ histogramNeededColumns w').
Proof.
  intros Hwf Hhist Hcms. revert w Hwf.
  induction cols as [|col cols IH]; intros w Hwf.
  - exists w. split; [done|]. split; [done|]. split; [done|]. split; [done|].
    intros col Hin. by apply elem_of_nil in Hin.
  - destruct (loadColumn_working_store col w Hwf Hhist Hcms)
      as (w1 & Hcol & Hwf1 & Hdom1 & Hsub1 & Hgone1).
    destruct (IH w1 Hwf1) as (w' & Hrun & Hwf' & Hdom & Hsub & Hgone).
    exists w'. split.
    { cbn [loadColumns]. unfold bind. by rewrite Hcol. }
    split; [done|]. split; [by etrans|]. split; [by etrans|].
    intros c [->|Hin]%elem_of_cons Hc.
    + intros Hin'. apply (Hgone1 Hc). by apply Hsub.
    + apply Hgone; [done|].
      apply elem_of_dom. apply Hdom1. by apply elem_of_dom.
Qed.

End loader_more.

(** X13.  Pending columns whose table is not in the cache are passed over:
    when that is so for every pending column (and when none is pending),
    [LoadNeededHistograms] returns nil without loading anything, and the
    world, registry included, is exactly what it was. *)
Theorem LoadNeededHistograms_passes_over_uncached_tables `{!Collaborators}
    (w : World) :
  hasSnapshot w →
  (∀ col, col ∈ histogramNeededColumns w → snapshot w !! col.1 = None) →
  LoadNeededHistograms w = Ok None w.
Proof.
  intros Hsnap Hnone. unfold LoadNeededHistograms, bind, allCols, query.
  apply loadColumns_uncached; [done|].
  intros col Hin. apply Hnone. by apply elem_of_elements.
Qed.

(** X14.  On a well-formed handle, in front of a store that answers every
    histogram and sketch request, [LoadNeededHistograms] returns nil (it
    neither fails nor panics), the handle stays well-formed, no column gets
    registered, and the only columns still registered are columns of tables
    that were not in the cache. *)
Theorem LoadNeededHistograms_with_working_store `{!Collaborators} (w : World) :
  wellFormed w →
  (∀ tableID c w0, ∃ hg, loadHistogram tableID c w0 = (Some hg, None)) →
  (∀ tableID isIndex histID w0,
     (cmSketchFromStorage tableID isIndex histID w0).2 = None) →
  ∃ w', LoadNeededHistograms w = Ok None w' ∧
    wellFormed w' ∧
    (∀ col, col ∈ histogramNeededColumns w' →
       col ∈ histogramNeededColumns w ∧ snapshot w !! col.1 = None).
Proof.
  intros Hwf Hhist Hcms.
  destruct (loadColumns_working_store (elements (histogramNeededColumns w)) w
              Hwf Hhist Hcms) as (w' & Hrun & Hwf' & _ & Hsub & Hgone).
  exists w'. split; [exact Hrun|]. split; [done|].
  intros col Hin. pose proof (Hsub col Hin) as Hin0. split; [done|].
  destruct (snapshot w !! col.1) as [p|] eqn:Hp; [|done].
  exfalso. apply (Hgone col); [by apply elem_of_elements|eauto|done].
Qed.

(** X15.  A round that loads: the pending column [col] of a cached table
    whose histogram has no bucket, with a store that returns the histogram
    [hg] and the sketch [cms].  The round returns nil and unregisters the
    column.  The column built from [hg] and [cms] is written into a copy of
    the table under the ID of the old histogram, and the copy is published
    under the table ID of the table; the object that was published before is
    unchanged.  So when the table and the column are filed under their own
    IDs, the cache now holds the loaded column for [col]. *)
Theorem loadColumn_publishes_loaded_column `{!Collaborators}
    (col : Z * Z) (w : World) (tbl0 : loc) (t : Table.t) (c : Column.t)
    (hg : Histogram.t) (cms : option CMSketch) :
  hasSnapshot w →
  snapshot w !! col.1 = Some tbl0 →
  tblHeap w !! tbl0 = Some t →
  Table.Columns t !! col.2 = Some c →
  Histogram.Len (Column.Hist c) = 0 →
  loadHistogram col.1 c (copied t w) = (Some hg, None) →
  cmSketchFromStorage col.1 0 col.2 (copied t w) = (cms, None) →
  ∃ w' p t',
    loadColumn col w = Ok None w' ∧
    (col ∉ histogramNeededColumns w') ∧
    p ≠ tbl0 ∧
    snapshot w' !! Table.TableID t = Some p ∧
    tblHeap w' !! p = Some t' ∧
    Table.Columns t' !! Histogram.ID (Column.Hist c)
      = Some (loadedColumn c hg cms) ∧
    tblHeap w' !! tbl0 = Some t ∧
    (Table.TableID t = col.1 → Histogram.ID (Column.Hist c) = col.2 →
     cachedColumn col w' = Some (loadedColumn c hg cms)).
Proof.
  intros Hsnap Hk Ht Hc Hlen Hh Hs.
  pose proof (loadColumn_round col w Hsnap) as HR.
  assert (Hfresh : tblHeap w !! fresh (dom (tblHeap w)) = None).
  { apply not_elem_of_dom, is_fresh. }
  inversion HR;
    repeat match goal with
    | H1 : ?o = Some ?x, H2 : ?o = Some ?y |- _ =>
        rewrite H1 in H2; injection H2 as <-
    | H1 : ?o = Some ?x, H2 : ?o = None |- _ => rewrite H1 in H2; discriminate
    | H1 : ?o = (?a, ?b), H2 : ?o = (?c, ?d) |- _ =>
        rewrite H1 in H2; first [discriminate | (injection H2; intros; subst)]
    end;
    try lia.
  match goal with t0 := Table.with_Columns _ _ |- _ => rename t0 into t' end.
  eexists _, (fresh (dom (tblHeap w))), t'. split; [done|].
    split.
    { unfold unregistered. simpl.
      rewrite elem_of_difference, elem_of_singleton. tauto. }
    split; [congruence|].
    change (snapshot (unregistered col ?w0)) with (snapshot w0).
    rewrite snapshot_installed.
    split; [by rewrite lookup_insert_eq|].
    split; [simpl; by rewrite lookup_insert_eq|].
    split; [subst t'; unfold Table.with_Columns; cbn [Table.Columns];
            apply lookup_insert_eq|].
    split.
    { simpl. rewrite lookup_insert_ne; [done|]. congruence. }
    intros Hid Hcid. unfold cachedColumn.
    change (snapshot (unregistered col ?w0)) with (snapshot w0).
    rewrite snapshot_installed, <- Hid, lookup_insert_eq. simpl.
    rewrite lookup_insert_eq. subst t'.
    unfold Table.with_Columns. cbn [Table.Columns].
    rewrite <- Hcid. apply lookup_insert_eq.
Qed.

(** ** FlushStats and results without sketches *)

Section flush_panic.
Context `{!Collaborators}.

Lemma saveHistograms_out_of_range t i hists w :
  (i ≤ length (AnalyzeResult.Cms t))%nat →
  (length (AnalyzeResult.Cms t) < i + length hists)%nat →
  saveHistograms t i hists w = Panic.
Proof.
  revert i w. induction hists as [|hg hists IH]; intros i w Hle Hlt.
  - simpl in Hlt. lia.
  - destruct (AnalyzeResult.Cms t !! i) as [cms|] eqn:Hcms.
    + rewrite (saveHistograms_round t i hg hists cms w Hcms).
      apply lookup_lt_Some in Hcms.
      apply IH; [lia|]. simpl in Hlt. lia.
    + cbn [saveHistograms]. by rewrite Hcms.
Qed.

Lemma drainAnalyzeResults_out_of_range fuel w :
  (∀ tableID count isIndex hg cms isAnalyzed,
     keepsQueues (SaveStatsToStorage tableID count isIndex hg cms isAnalyzed)) →
  Exists (λ t, ¬ sketchesCoverHistograms t) (analyzeResultCh (hdl w)) →
  (length (analyzeResultCh (hdl w)) ≤ fuel)%nat →
  drainAnalyzeResults fuel w = Panic.
Proof.
  intros Hkeep. revert w. induction fuel as [|fuel IH]; intros w Hbad Hlen.
  - destruct (analyzeResultCh (hdl w)) as [|t ch'] eqn:Hch.
    + by apply Exists_nil in Hbad.
    + simpl in Hlen. lia.
  - destruct (analyzeResultCh (hdl w)) as [|t ch'] eqn:Hch.
    { by apply Exists_nil in Hbad. }
    cbn [drainAnalyzeResults]. rewrite Hch.
    unfold bind at 1. unfold modify at 1.
    set (w0 := with_hdl (with_analyzeResultCh ch') w).
    destruct (decide (length (AnalyzeResult.Hist t)
                      ≤ length (AnalyzeResult.Cms t))%nat) as [Hcover|Hshort].
    + destruct (saveHistograms_keeps Hkeep t 0 (AnalyzeResult.Hist t) w0)
        as (w1 & Hs & Hq); [exact Hcover|].
      unfold bind at 1. rewrite Hs.
      unfold queues in Hq. simpl in Hq. injection Hq as Hq_d Hq_a Hq_l.
      apply IH.
      * rewrite Hq_a. apply Exists_cons in Hbad as [Hbad|Hbad]; [|done].
        by destruct Hbad.
      * rewrite Hq_a. simpl in Hlen. lia.
    + unfold bind at 1.
      rewrite saveHistograms_out_of_range; [done|lia|simpl; lia].
Qed.

End flush_panic.

(** X16.  An analyze result with fewer sketches than histograms makes
    [FlushStats] panic at [t.Cms[i]]: with collaborators that leave the
    queues alone, the flush does not return once such a result is in the
    queue, however the saves before it went. *)
Theorem FlushStats_panics_on_missing_sketch `{!Collaborators}
    (fuel : nat) (w : World) :
  (∀ e, keepsQueues (HandleDDLEvent e)) →
  (∀ mode, keepsQueues (DumpStatsDeltaToKV mode)) →
  (∀ tableID count isIndex hg cms isAnalyzed,
     keepsQueues (SaveStatsToStorage tableID count isIndex hg cms isAnalyzed)) →
  Exists (λ t, ¬ sketchesCoverHistograms t) (analyzeResultCh (hdl w)) →
  (length (ddlEventCh (hdl w)) ≤ fuel)%nat →
  (length (analyzeResultCh (hdl w)) ≤ fuel)%nat →
  FlushStats fuel w = Panic.
Proof.
  intros Hddl Hdelta Hsave Hbad Hlen_d Hlen_a. unfold FlushStats.
  destruct (drainDDLEvents_empties Hddl fuel w Hlen_d)
    as (w1 & H1 & _ & Ha1 & _).
  unfold bind at 1. rewrite H1.
  destruct (call_keeps (DumpStatsDeltaToKV DumpAll) w1)
    as (err1 & w2 & H2 & Hq2); [done|].
  unfold bind at 1. rewrite H2.
  destruct (logIfError_keeps LogDumpStatsDelta err1 w2) as (w3 & H3 & Hq3).
  unfold bind at 1. rewrite H3.
  assert (Hq : queues w3 = queues w1) by congruence.
  unfold queues in Hq. injection Hq as _ Hq_a _.
  unfold bind at 1.
  rewrite drainAnalyzeResults_out_of_range; [done|done|..].
  - by rewrite Hq_a, Ha1.
  - by rewrite Hq_a, Ha1.
Qed.

(** ** The further properties at concrete handles *)

Lemma wellFormed_computed w :
  hasSnapshot w → pointersValid w = true → wellFormed w.
Proof.
  intros Hsnap Hvalid. split; [done|].
  apply bool_decide_eq_true_1 in Hvalid. intros id p Hp.
  by apply (Hvalid id p).
Qed.

Ltac well_formed := apply wellFormed_computed; [evaluated|vm_compute; reflexivity].

(** Membership of a given element in a given list. *)
Ltac listed := vm_compute; repeat first [by left | right].

Lemma catalogAB_by_id : catalogById catalogAB.
Proof.
  intros tableID tableInfo Hlk. unfold TableByID, catalogAB in Hlk.
  apply lookup_insert_Some in Hlk as [[<- <-]|[_ Hlk]]; [done|].
  apply lookup_insert_Some in Hlk as [[<- <-]|[_ Hlk]]; [done|].
  by apply lookup_singleton_Some in Hlk as [<- <-].
Qed.

Lemma healthy_rebuildsOwnTable : @rebuildsOwnTable healthy.
Proof. intros tableInfo loadAll w t [= <-]. reflexivity. Qed.

Lemma Update_returns_and_keeps_wellFormed_witness :
  wellFormed cachedAB ∧
  ∃ r w', @Update healthy catalogAB cachedAB = Ok r w' ∧ wellFormed w' ∧
    (r = errors_Trace <$> sql_failure (storage cachedAB)) ∧
    (is_Some r → w' = cachedAB).
Proof.
  assert (H1 : wellFormed cachedAB) by well_formed.
  split; [exact H1|].
  exact (@Update_returns_and_keeps_wellFormed healthy catalogAB cachedAB H1).
Defined.

Lemma Update_evicts_unknown_table_witness :
  hasSnapshot cachedAB ∧
  rowB12 ∈ stats_meta (storage cachedAB) ∧
  PrevLastVersion (hdl cachedAB) < row_version rowB12 ∧
  TableByID catalogA (row_table_id rowB12) = None ∧
  is_Some (snapshot cachedAB !! 2) ∧
  ∃ w', @Update healthy catalogA cachedAB = Ok None w' ∧
    snapshot w' !! row_table_id rowB12 = None ∧
    LogUnknownTable (row_table_id rowB12) ∈ logs w'.
Proof.
  assert (H1 : hasSnapshot cachedAB) by evaluated.
  assert (H2 : rowB12 ∈ stats_meta (storage cachedAB)) by listed.
  assert (H3 : PrevLastVersion (hdl cachedAB) < row_version rowB12) by evaluated.
  assert (H4 : TableByID catalogA (row_table_id rowB12) = None) by evaluated.
  split; [exact H1|]. split; [exact H2|]. split; [exact H3|]. split; [exact H4|].
  split; [evaluated|].
  exact (@Update_evicts_unknown_table healthy catalogA cachedAB rowB12
           H1 eq_refl H2 H3 H4).
Defined.

Lemma Update_evicts_table_without_statistics_witness :
  hasSnapshot cachedAB ∧
  rowA10 ∈ stats_meta (storage cachedAB) ∧
  TableByID catalogAB (row_table_id rowA10) = Some tableA ∧
  is_Some (snapshot cachedAB !! 1) ∧
  ∃ w', @Update vacant catalogAB cachedAB = Ok None w' ∧
    snapshot w' !! row_table_id rowA10 = None.
Proof.
  assert (H1 : hasSnapshot cachedAB) by evaluated.
  assert (H2 : rowA10 ∈ stats_meta (storage cachedAB)) by listed.
  assert (H3 : PrevLastVersion (hdl cachedAB) < row_version rowA10) by evaluated.
  assert (H4 : TableByID catalogAB (row_table_id rowA10) = Some tableA)
    by evaluated.
  split; [exact H1|]. split; [exact H2|]. split; [exact H4|].
  split; [evaluated|].
  exact (@Update_evicts_table_without_statistics vacant catalogAB cachedAB
           rowA10 tableA H1 eq_refl H2 H3 H4 (λ _, eq_refl)).
Defined.

Lemma Update_swallows_reconstruction_errors_witness :
  hasSnapshot cachedAB ∧
  refreshBatch cachedAB = [rowA10; rowB12] ∧
  ∃ w', @Update broken catalogAB cachedAB = Ok None w' ∧
    snapshot w' = snapshot cachedAB ∧
    tblHeap w' = tblHeap cachedAB ∧
    length (logs w') = (length (logs cachedAB) + length (refreshBatch cachedAB))%nat ∧
    PrevLastVersion (hdl w') = LastVersion (hdl cachedAB) ∧
    LastVersion (hdl w') =
      lastVersionOf (refreshBatch cachedAB) (LastVersion (hdl cachedAB)).
Proof.
  assert (H1 : hasSnapshot cachedAB) by evaluated.
  assert (H2 : refreshBatch cachedAB = [rowA10; rowB12]) by evaluated.
  split; [exact H1|]. split; [exact H2|].
  apply (@Update_swallows_reconstruction_errors broken catalogAB cachedAB H1
           eq_refl).
  intros row Hin. rewrite H2 in Hin.
  apply elem_of_cons in Hin as [->|Hin].
  { exists tableA. split; [evaluated|]. intros w0. eexists. reflexivity. }
  apply elem_of_cons in Hin as [->|Hin].
  { exists tableB. split; [evaluated|]. intros w0. eexists. reflexivity. }
  by apply elem_of_nil in Hin.
Defined.

Lemma Update_keeps_entries_of_other_tables_witness :
  hasSnapshot onlyB ∧
  catalogById catalogAB ∧
  @rebuildsOwnTable healthy ∧
  refreshBatch onlyB = [rowB12] ∧
  ∃ w', @Update healthy catalogAB onlyB = Ok None w' ∧
    snapshot w' !! 1 = snapshot onlyB !! 1.
Proof.
  assert (H1 : hasSnapshot onlyB) by evaluated.
  assert (H2 : refreshBatch onlyB = [rowB12]) by evaluated.
  split; [exact H1|]. split; [exact catalogAB_by_id|].
  split; [exact healthy_rebuildsOwnTable|]. split; [exact H2|].
  apply (@Update_keeps_entries_of_other_tables healthy catalogAB onlyB 1 H1
           eq_refl catalogAB_by_id healthy_rebuildsOwnTable).
  intros row Hin. rewrite H2 in Hin.
  apply list_elem_of_singleton in Hin as ->. evaluated.
Defined.

Lemma Update_last_row_of_a_table_wins_witness :
  hasSnapshot unreadABA ∧
  refreshBatch unreadABA = [rowA10; rowB12] ++ rowA13 :: [] ∧
  TableByID catalogAB (row_table_id rowA13) = Some tableA ∧
  ∃ w' p,
    @Update healthy catalogAB unreadABA = Ok None w' ∧
    snapshot w' !! row_table_id rowA13 = Some p ∧
    tblHeap w' !! p = Some (stamped rowA13 (coldStats tableA)).
Proof.
  assert (H1 : hasSnapshot unreadABA) by evaluated.
  assert (H2 : refreshBatch unreadABA = [rowA10; rowB12] ++ rowA13 :: [])
    by evaluated.
  assert (H3 : TableByID catalogAB (row_table_id rowA13) = Some tableA)
    by evaluated.
  split; [exact H1|]. split; [exact H2|]. split; [exact H3|].
  apply (@Update_last_row_of_a_table_wins healthy catalogAB unreadABA
           [rowA10; rowB12] [] rowA13 tableA (coldStats tableA) H1 eq_refl
           catalogAB_by_id healthy_rebuildsOwnTable H2).
  - intros row' Hin. by apply elem_of_nil in Hin.
  - exact H3.
  - intros w0. reflexivity.
Defined.

Lemma Update_publishes_by_one_store_witness :
  hasSnapshot cachedAB ∧
  ∃ w', @Update healthy catalogAB cachedAB = Ok None w' ∧
    storeLog w' = storeLog cachedAB ++ [statsCacheRef (hdl w')] ∧
    (statsCacheRef (hdl w') ∉ dom (mapHeap cachedAB)) ∧
    (∀ r0 m0, mapHeap cachedAB !! r0 = Some m0 → mapHeap w' !! r0 = Some m0) ∧
    mapHeap w' !! statsCacheRef (hdl cachedAB) = Some (snapshot cachedAB).
Proof.
  assert (H1 : hasSnapshot cachedAB) by evaluated.
  split; [exact H1|].
  exact (@Update_publishes_by_one_store healthy catalogAB cachedAB H1 eq_refl).
Defined.

Lemma Update_current_watermark_is_largest_version_witness :
  hasSnapshot unreadAB ∧
  ∃ w', @Update healthy catalogAB unreadAB = Ok None w' ∧
    (∀ row, row ∈ stats_meta (storage unreadAB) →
       PrevLastVersion (hdl unreadAB) < row_version row →
       row_version row ≤ LastVersion (hdl w') ∧
       ∃ row', row' ∈ stats_meta (storage unreadAB) ∧
         PrevLastVersion (hdl unreadAB) < row_version row' ∧
         row_version row' = LastVersion (hdl w')).
Proof.
  assert (H1 : hasSnapshot unreadAB) by evaluated.
  split; [exact H1|].
  exact (@Update_current_watermark_is_largest_version healthy catalogAB
           unreadAB H1 eq_refl).
Defined.

Lemma UpdateTableStats_keeps_other_entries_witness :
  mapHeap cachedAB !! statsCacheRef (hdl cachedAB) = Some (snapshot cachedAB) ∧
  Forall (λ p, is_Some (tblHeap cachedAB !! p)) [2%positive] ∧
  (1 ∉ [5]) ∧
  ∃ w', UpdateTableStats [2%positive] [5] cachedAB = Ok tt w' ∧
    snapshot w' !! 1 = snapshot cachedAB !! 1 ∧
    tblHeap w' = tblHeap cachedAB.
Proof.
  assert (H1 : mapHeap cachedAB !! statsCacheRef (hdl cachedAB)
               = Some (snapshot cachedAB)) by evaluated.
  assert (H2 : Forall (λ p, is_Some (tblHeap cachedAB !! p)) [2%positive]).
  { repeat constructor; evaluated. }
  assert (H3 : 1 ∉ [5]).
  { intros Hin. apply list_elem_of_singleton in Hin. discriminate. }
  split; [exact H1|]. split; [exact H2|]. split; [exact H3|].
  apply (UpdateTableStats_keeps_other_entries cachedAB (snapshot cachedAB)
           [2%positive] [5] 1 H1 H2 H3).
  intros p Hin. apply list_elem_of_singleton in Hin as ->.
  vm_compute. discriminate.
Defined.

Lemma UpdateTableStats_last_update_wins_witness :
  tblHeap recachedAB !! 1%positive = Some (stamped rowA10 (coldStats tableA)) ∧
  tblHeap recachedAB !! 3%positive = Some (stamped rowA10 (coldStats tableA)) ∧
  ∃ w', UpdateTableStats ([1%positive; 2%positive] ++ 3%positive :: [4%positive])
          [] recachedAB = Ok tt w' ∧
    snapshot w' !! Table.TableID (stamped rowA10 (coldStats tableA))
      = Some 3%positive.
Proof.
  assert (H1 : mapHeap recachedAB !! statsCacheRef (hdl recachedAB)
               = Some (snapshot recachedAB)) by evaluated.
  assert (H2 : Forall (λ q, is_Some (tblHeap recachedAB !! q))
                 ([1%positive; 2%positive] ++ 3%positive :: [4%positive])).
  { repeat constructor; evaluated. }
  assert (H3 : tblHeap recachedAB !! 3%positive
               = Some (stamped rowA10 (coldStats tableA))) by evaluated.
  split; [evaluated|]. split; [exact H3|].
  apply (UpdateTableStats_last_update_wins recachedAB (snapshot recachedAB)
           [1%positive; 2%positive] [4%positive] 3%positive
           (stamped rowA10 (coldStats tableA)) [] H1 H2 H3).
  - intros q Hin. apply list_elem_of_singleton in Hin as ->.
    vm_compute. discriminate.
  - apply not_elem_of_nil.
Defined.

Lemma UpdateTableStats_nil_table_panics_witness :
  hasSnapshot cachedAB ∧
  tblHeap cachedAB !! 9%positive = None ∧
  UpdateTableStats [1%positive; 9%positive] [] cachedAB = Panic.
Proof.
  assert (H1 : hasSnapshot cachedAB) by evaluated.
  assert (H2 : tblHeap cachedAB !! 9%positive = None) by evaluated.
  split; [exact H1|]. split; [exact H2|].
  apply (UpdateTableStats_nil_table_panics cachedAB [1%positive; 9%positive]
           [] 9%positive H1); [|exact H2].
  right. left.
Defined.

Lemma GetTableStats_returns_a_table_witness :
  wellFormed cachedAB ∧
  ∃ p w', @GetTableStats healthy tableX cachedAB = Ok p w' ∧
    is_Some (tblHeap w' !! p) ∧
    wellFormed w' ∧
    (∀ p0 t0, tblHeap cachedAB !! p0 = Some t0 → tblHeap w' !! p0 = Some t0) ∧
    (∀ id, id ≠ Table.TableID (@PseudoTable healthy tableX) →
       snapshot w' !! id = snapshot cachedAB !! id).
Proof.
  assert (H1 : wellFormed cachedAB) by well_formed.
  split; [exact H1|].
  exact (@GetTableStats_returns_a_table healthy tableX cachedAB H1).
Defined.

Lemma LoadNeededHistograms_passes_over_uncached_tables_witness :
  hasSnapshot (pending [(9, 1)]) ∧
  elements (histogramNeededColumns (pending [(9, 1)])) = [(9, 1)] ∧
  @LoadNeededHistograms broken (pending [(9, 1)]) = Ok None (pending [(9, 1)]).
Proof.
  assert (H1 : hasSnapshot (pending [(9, 1)])) by evaluated.
  assert (H2 : elements (histogramNeededColumns (pending [(9, 1)])) = [(9, 1)])
    by evaluated.
  split; [exact H1|]. split; [exact H2|].
  apply (@LoadNeededHistograms_passes_over_uncached_tables broken
           (pending [(9, 1)]) H1).
  intros col Hin. apply elem_of_elements in Hin. rewrite H2 in Hin.
  apply list_elem_of_singleton in Hin as ->. evaluated.
Defined.

Lemma LoadNeededHistograms_with_working_store_witness :
  wellFormed (pending [(1, 7); (9, 1)]) ∧
  ∃ w', @LoadNeededHistograms healthy (pending [(1, 7); (9, 1)]) = Ok None w' ∧
    wellFormed w' ∧
    (∀ col, col ∈ histogramNeededColumns w' →
       col ∈ histogramNeededColumns (pending [(1, 7); (9, 1)]) ∧
       snapshot (pending [(1, 7); (9, 1)]) !! col.1 = None).
Proof.
  assert (H1 : wellFormed (pending [(1, 7); (9, 1)])) by well_formed.
  split; [exact H1|].
  apply (@LoadNeededHistograms_with_working_store healthy
           (pending [(1, 7); (9, 1)]) H1).
  - intros tableID c w0. eexists. reflexivity.
  - intros tableID isIndex histID w0. reflexivity.
Defined.

Lemma loadColumn_publishes_loaded_column_witness :
  snapshot (pending [(1, 7)]) !! 1 = Some 1%positive ∧
  tblHeap (pending [(1, 7)]) !! 1%positive
    = Some (stamped rowA10 (coldStats tableA)) ∧
  Histogram.Len (Column.Hist coldColumn) = 0 ∧
  ∃ w' p t',
    @loadColumn healthy (1, 7) (pending [(1, 7)]) = Ok None w' ∧
    ((1, 7) ∉ histogramNeededColumns w') ∧
    p ≠ 1%positive ∧
    snapshot w' !! Table.TableID (stamped rowA10 (coldStats tableA)) = Some p ∧
    tblHeap w' !! p = Some t' ∧
    Table.Columns t' !! Histogram.ID (Column.Hist coldColumn)
      = Some (@loadedColumn healthy coldColumn loadedHistogram None) ∧
    tblHeap w' !! 1%positive = Some (stamped rowA10 (coldStats tableA)) ∧
    (Table.TableID (stamped rowA10 (coldStats tableA)) = 1 →
     Histogram.ID (Column.Hist coldColumn) = 7 →
     cachedColumn (1, 7) w'
       = Some (@loadedColumn healthy coldColumn loadedHistogram None)).
Proof.
  assert (H1 : hasSnapshot (pending [(1, 7)])) by evaluated.
  assert (H2 : snapshot (pending [(1, 7)]) !! 1 = Some 1%positive) by evaluated.
  assert (H3 : tblHeap (pending [(1, 7)]) !! 1%positive
               = Some (stamped rowA10 (coldStats tableA))) by evaluated.
  assert (H4 : Histogram.Len (Column.Hist coldColumn) = 0) by evaluated.
  split; [exact H2|]. split; [exact H3|]. split; [exact H4|].
  exact (@loadColumn_publishes_loaded_column healthy (1, 7) (pending [(1, 7)])
           1%positive (stamped rowA10 (coldStats tableA)) coldColumn
           loadedHistogram None H1 H2 H3 eq_refl H4 eq_refl eq_refl).
Defined.

Lemma FlushStats_panics_on_missing_sketch_witness :
  Exists (λ t, ¬ sketchesCoverHistograms t) (analyzeResultCh (hdl shortQueue)) ∧
  (length (ddlEventCh (hdl shortQueue)) ≤ 2)%nat ∧
  (length (analyzeResultCh (hdl shortQueue)) ≤ 2)%nat ∧
  @FlushStats broken 2 shortQueue = Panic.
Proof.
  assert (H1 : Exists (λ t, ¬ sketchesCoverHistograms t)
                 (analyzeResultCh (hdl shortQueue))).
  { apply Exists_cons_tl, Exists_cons_hd.
    unfold sketchesCoverHistograms. simpl. lia. }
  assert (H2 : (length (ddlEventCh (hdl shortQueue)) ≤ 2)%nat).
  { vm_compute. repeat constructor. }
  assert (H3 : (length (analyzeResultCh (hdl shortQueue)) ≤ 2)%nat).
  { vm_compute. repeat constructor. }
  split; [exact H1|]. split; [exact H2|]. split; [exact H3|].
  apply (@FlushStats_panics_on_missing_sketch broken 2 shortQueue);
    first [exact H1 | exact H2 | exact H3 | (intros; intros ?; reflexivity)].
Defined.

Lemma GetTableStats_after_Update_returns_rebuilt_table_witness :
  hasSnapshot unreadABA ∧
  refreshBatch unreadABA = [rowA10; rowB12] ++ rowA13 :: [] ∧
  TableInfo_ID tableA = row_table_id rowA13 ∧
  ∃ w' p,
    @Update healthy catalogAB unreadABA = Ok None w' ∧
    @GetTableStats healthy tableA w' = Ok p w' ∧
    tblHeap w' !! p = Some (stamped rowA13 (coldStats tableA)).
Proof.
  assert (H1 : hasSnapshot unreadABA) by evaluated.
  assert (H2 : refreshBatch unreadABA = [rowA10; rowB12] ++ rowA13 :: [])
    by evaluated.
  split; [exact H1|]. split; [exact H2|]. split; [reflexivity|].
  apply (@GetTableStats_after_Update_returns_rebuilt_table healthy catalogAB
           unreadABA [rowA10; rowB12] [] rowA13 tableA tableA
           (coldStats tableA) H1 eq_refl catalogAB_by_id
           healthy_rebuildsOwnTable H2).
  - intros row' Hin. by apply elem_of_nil in Hin.
  - reflexivity.
  - intros w0. reflexivity.
  - reflexivity.
Defined.
